(** * accessibility-tester: a shallow embedding of [accessibility_tester.py]

    The development follows the Python module top-down:

    - Python values the module relies on (strings, [in], [strip], [int]);
    - the BeautifulSoup document tree and the queries the module uses;
    - the Selenium driver as the module sees it (windows, documents,
      computed styles);
    - the [AccessibilityTester] object as a state record, its methods as
      computations in a state-and-exception monad;
    - the colour mathematics over the real numbers.

    Conventions.  Python [int] is [Z].  Python [float] is modelled by the
    real numbers [R] where a power is taken (colour mathematics) and by the
    rationals [Q] where only division and comparison occur (the final
    ratio, the alpha channel): rounding is not modelled.  A [dict] is a
    [gmap].  A [str] is held as its UTF-8 encoding, a character being one
    code point.  An uncaught Python exception is the [Raised] outcome and
    keeps the state reached so far. *)

From Stdlib Require Import Ascii String Reals Lra QArith Permutation.
From stdpp Require Import gmap strings list.
From Stdlib Require Import DecimalString DecimalNat.

Local Open Scope string_scope.
Local Open Scope list_scope.
Local Open Scope Z_scope.

(** ** Python strings *)

Module Py.

(** [needle in hay] for two [str]: substring test. *)
Fixpoint contains (hay needle : string) : bool :=
  if String.prefix needle hay then true
  else match hay with
       | EmptyString => false
       | String _ hay' => contains hay' needle
       end.

(** [x in l] for a list of [str]. *)
Definition in_list (x : string) (l : list string) : bool :=
  bool_decide (x ∈ l).

(** A continuation byte of UTF-8. *)
Definition continuation (b : N) : bool := ((128 <=? b) && (b <? 192))%N.

(** The code point of a well-formed sequence of two, three or four
    bytes: the lead byte tells the length, the others are continuation
    bytes, and the code point is neither one that a shorter sequence
    encodes nor a surrogate nor above U+10FFFF. *)
Definition two_bytes (b1 b2 : N) : option N :=
  let cp := ((b1 - 192) * 64 + (b2 - 128))%N in
  if ((192 <=? b1) && (b1 <? 224) && continuation b2 && (128 <=? cp))%N then Some cp
  else None.

Definition three_bytes (b1 b2 b3 : N) : option N :=
  let cp := ((b1 - 224) * 4096 + (b2 - 128) * 64 + (b3 - 128))%N in
  if ((224 <=? b1) && (b1 <? 240) && continuation b2 && continuation b3
      && (2048 <=? cp) && negb ((55296 <=? cp) && (cp <? 57344)))%N then Some cp
  else None.

Definition four_bytes (b1 b2 b3 b4 : N) : option N :=
  let cp := ((b1 - 240) * 262144 + (b2 - 128) * 4096 + (b3 - 128) * 64 + (b4 - 128))%N in
  if ((240 <=? b1) && (b1 <? 248) && continuation b2 && continuation b3 && continuation b4
      && (65536 <=? cp) && (cp <=? 1114111))%N then Some cp
  else None.

(** The characters of a [str], as code points.  A byte that begins no
    well-formed sequence stands for itself. *)
Fixpoint code_points (s : string) : list N :=
  match s with
  | EmptyString => []
  | String c1 s1 =>
      let b1 := N_of_ascii c1 in
      match s1 with
      | EmptyString => [b1]
      | String c2 s2 =>
          match two_bytes b1 (N_of_ascii c2) with
          | Some cp => cp :: code_points s2
          | None =>
              match s2 with
              | EmptyString => b1 :: code_points s1
              | String c3 s3 =>
                  match three_bytes b1 (N_of_ascii c2) (N_of_ascii c3) with
                  | Some cp => cp :: code_points s3
                  | None =>
                      match s3 with
                      | EmptyString => b1 :: code_points s1
                      | String c4 s4 =>
                          match four_bytes b1 (N_of_ascii c2) (N_of_ascii c3)
                                           (N_of_ascii c4) with
                          | Some cp => cp :: code_points s4
                          | None => b1 :: code_points s1
                          end
                      end
                  end
              end
          end
      end
  end.

(** The characters that [str.strip] removes (and for which [str.isspace]
    holds): the ASCII white space and separators, U+0085, U+00A0, U+1680,
    U+2000 to U+200A, U+2028, U+2029, U+202F, U+205F and U+3000. *)
Definition isspace (cp : N) : bool :=
  (((9 <=? cp) && (cp <=? 13)) || ((28 <=? cp) && (cp <=? 32))
   || (cp =? 133) || (cp =? 160) || (cp =? 5760)
   || ((8192 <=? cp) && (cp <=? 8202))
   || (cp =? 8232) || (cp =? 8233) || (cp =? 8239) || (cp =? 8287) || (cp =? 12288))%N.

(** [s.strip() == ""]: every character is white space. *)
Definition strip_is_empty (s : string) : bool := forallb isspace (code_points s).

(** [str.isdigit] on one ASCII character. *)
Definition isdigit (c : ascii) : bool :=
  let n := nat_of_ascii c in (48 <=? n)%nat && (n <=? 57)%nat.

(** [''.join(filter(str.isdigit, s))]. *)
Fixpoint filter_digits (s : string) : string :=
  match s with
  | EmptyString => EmptyString
  | String c s' =>
      if isdigit c then String c (filter_digits s') else filter_digits s'
  end.

Fixpoint int_digits (acc : Z) (s : string) : Z :=
  match s with
  | EmptyString => acc
  | String c s' => int_digits (10 * acc + (Z.of_nat (nat_of_ascii c) - 48)) s'
  end.

(** [int(s)] for a string of decimal digits; [None] is [ValueError]
    (the empty string). *)
Definition int (s : string) : option Z :=
  match s with
  | EmptyString => None
  | _ => Some (int_digits 0 s)
  end.

(** ['%d' % n]. *)
Definition fmt_d (n : nat) : string := NilEmpty.string_of_uint (Nat.to_uint n).

(** ['/'.join(l)]. *)
Fixpoint join (sep : string) (l : list string) : string :=
  match l with
  | [] => ""
  | [x] => x
  | x :: l' => x +:+ sep +:+ join sep l'
  end.

(** [l[i]] with Python's negative indices; [None] is [IndexError]. *)
Definition index {A} (l : list A) (i : Z) : option A :=
  if i <? 0 then
    (if 0 <=? Z.of_nat (length l) + i then l !! Z.to_nat (Z.of_nat (length l) + i) else None)
  else l !! Z.to_nat i.

End Py.

(** ** The BeautifulSoup tree *)

(** A parsed page.  The [BeautifulSoup] object itself is the tag named
    ["[document]"] at the root. *)
#[warnings="-register-all"] Inductive Node :=
| Tag (name : string) (attrs : gmap string string) (contents : list Node)
| NavigableString (text : string)
| Comment (text : string)
| Doctype (text : string).

(** A position in the tree: child indices, innermost first, so that the
    parent of [i :: p] is [p] and the root is [[]]. *)
Definition Ref := list nat.

(** An element handle: where the node is and what it is. *)
Definition Element : Type := Ref * Node.

Definition is_tag (n : Node) : bool :=
  match n with Tag _ _ _ => true | _ => false end.

Definition is_string (n : Node) : bool := negb (is_tag n).

Definition node_name (n : Node) : option string :=
  match n with Tag nm _ _ => Some nm | _ => None end.

Definition node_attrs (n : Node) : gmap string string :=
  match n with Tag _ a _ => a | _ => ∅ end.

Definition node_contents (n : Node) : list Node :=
  match n with Tag _ _ cs => cs | _ => [] end.

Definition node_text (n : Node) : string :=
  match n with
  | Tag _ _ _ => ""
  | NavigableString t | Comment t | Doctype t => t
  end.

Definition named (nm : string) (n : Node) : bool :=
  match n with Tag nm' _ _ => bool_decide (nm' = nm) | _ => false end.

Definition named_any (nms : list string) (n : Node) : bool :=
  match n with Tag nm' _ _ => bool_decide (nm' ∈ nms) | _ => false end.

(** All descendants of the node at [here], in document order. *)
Fixpoint descendants (here : Ref) (n : Node) : list Element :=
  match n with
  | Tag _ _ cs =>
      (fix children (i : nat) (l : list Node) {struct l} : list Element :=
         match l with
         | [] => []
         | c :: l' => (i :: here, c) :: descendants (i :: here) c ++ children (S i) l'
         end) 0%nat cs
  | _ => []
  end.

(** [tag.find_all(name)]. *)
Definition find_all (e : Element) (nm : string) : list Element :=
  filter (λ x, named nm x.2 = true) (descendants e.1 e.2).

(** [tag.find_all([name, ...])], also written [tag([name, ...])]. *)
Definition find_all_names (e : Element) (nms : list string) : list Element :=
  filter (λ x, named_any nms x.2 = true) (descendants e.1 e.2).

(** [tag.find_all(name, type=[v, ...])]: the attribute must be present and
    equal to one of the values. *)
Definition type_among (tys : list string) (n : Node) : bool :=
  match node_attrs n !! "type" with
  | Some t => bool_decide (t ∈ tys)
  | None => false
  end.

Definition find_all_typed (e : Element) (nm : string) (tys : list string) : list Element :=
  filter (λ x, named nm x.2 && type_among tys x.2 = true) (descendants e.1 e.2).

(** [tag.find(name)]. *)
Definition find (e : Element) (nm : string) : option Element :=
  head (find_all e nm).

(** [tag.find(id=v)]. *)
Definition has_id (v : string) (n : Node) : bool :=
  is_tag n && bool_decide (node_attrs n !! "id" = Some v).

Definition find_id (e : Element) (v : string) : option Element :=
  head (filter (λ x, has_id v x.2 = true) (descendants e.1 e.2)).

(** [tag.findAll(text=True)]: every string below the tag; comments and
    doctypes are strings too. *)
Definition find_all_text (e : Element) : list Element :=
  filter (λ x, is_string x.2 = true) (descendants e.1 e.2).

(** [tag.findChildren(name, recursive=False)]. *)
Definition find_children (e : Element) (nm : string) : list Node :=
  filter (λ c, named nm c = true) (node_contents e.2).

(** [tag.get_attribute_list(key)[0]]: the value, or [None]. *)
Definition get_attribute_list_0 (n : Node) (key : string) : option string :=
  node_attrs n !! key.

Definition is_comment (n : Node) : bool :=
  match n with Comment _ => true | _ => false end.

Definition is_doctype (n : Node) : bool :=
  match n with Doctype _ => true | _ => false end.

(** The node a reference points to. *)
Fixpoint node_at (root : Node) (r : Ref) : option Node :=
  match r with
  | [] => Some root
  | i :: p =>
      match node_at root p with
      | Some n => node_contents n !! i
      | None => None
      end
  end.

(** [element.parent]; the root has none. *)
Definition parent (root : Node) (e : Element) : option Element :=
  match e.1 with
  | [] => None
  | _ :: p =>
      match node_at root p with
      | Some n => Some (p, n)
      | None => None
      end
  end.

(** The handle of the [BeautifulSoup] object itself. *)
Definition soup (root : Node) : Element := ([], root).

(** The net effect of calling [extract()] on every node that satisfies
    [P]: those nodes, with all they contain, are gone from the tree. *)
Fixpoint extract_all (P : Node → bool) (n : Node) : Node :=
  match n with
  | Tag nm a cs =>
      Tag nm a
        ((fix children (l : list Node) {struct l} : list Node :=
            match l with
            | [] => []
            | c :: l' => if P c then children l' else extract_all P c :: children l'
            end) cs)
  | _ => n
  end.

(** [extract()] on the first node in document order that satisfies [P];
    [None] when there is none ([find] returned [None]). *)
Fixpoint extract_first (P : Node → bool) (n : Node) : option Node :=
  match n with
  | Tag nm a cs =>
      match
        (fix children (l : list Node) {struct l} : option (list Node) :=
           match l with
           | [] => None
           | c :: l' =>
               if P c then Some l'
               else match extract_first P c with
                    | Some c' => Some (c' :: l')
                    | None =>
                        match children l' with
                        | Some l'' => Some (c :: l'')
                        | None => None
                        end
                    end
           end) cs
      with
      | Some cs' => Some (Tag nm a cs')
      | None => None
      end
  | _ => None
  end.

(** ** [xpath_soup] *)

(** One step of the path: the child's name, with its 1-based rank among
    the siblings of the same name unless it is the only one. *)
Definition xpath_component (siblings_and_others : list Node) (i : nat) (nm : string) : string :=
  let siblings := filter (λ c, named nm c = true) siblings_and_others in
  if bool_decide (1%nat = length siblings) then nm
  else nm +:+ "[" +:+
       Py.fmt_d (S (length (filter (λ c, named nm c = true) (take i siblings_and_others))))
       +:+ "]".

(** The components from the root down to the element.  The source walks
    [child.parents] upwards and reverses; a string stands for its parent
    ([child = element if element.name else element.parent]). *)
Fixpoint xpath_components (par : Node) (path : list nat) : list string :=
  match path with
  | [] => []
  | i :: rest =>
      match node_contents par !! i with
      | Some (Tag nm a cs) =>
          xpath_component (node_contents par) i nm :: xpath_components (Tag nm a cs) rest
      | _ => []
      end
  end.

Definition xpath_soup (root : Node) (element : option Ref) : string :=
  match element with
  | None => "/html"
  | Some r =>
      match xpath_components root (rev r) with
      | [] => "/html"
      | components => "/" +:+ Py.join "/" components
      end
  end.

(** ** The Selenium driver, as the module uses it *)

(** A colour tuple [(r, g, b, a)], what [eval(color[4:])] yields. *)
Record Rgba := { red : Z; green : Z; blue : Z; alpha : Q }.

(** What [eval] raises on a text that is no tuple of numbers:
    [SyntaxError] when it is no Python expression, [NameError] when it is
    a name. *)
Inductive EvalError :=
| NotAnExpression
| UndefinedName (name : string).

(** A computed colour: the text ["rgb(r, g, b)"], the text
    ["rgba(r, g, b, a)"], or any other serialisation, such as
    ["color(srgb 1 0 0)"] or ["lab(50 0 0)"], given with what [eval]
    raises on the part of it that the module hands to [eval]. *)
Inductive CssColor :=
| CssRgb (r g b : Z)
| CssRgba (c : Rgba)
| CssOther (text : string) (error : EvalError).

(** The text that [convert_to_rgba_value] returns: ["rgba(r, g, b, a)"],
    or a text that begins with ["rgba"] and was returned as it came. *)
Inductive RgbaText :=
| RgbaOf (c : Rgba)
| Unread (text : string) (error : EvalError).

(** What [value_of_css_property] answers for one element. *)
Record Style := {
  display : string;
  color : CssColor;
  background_color : CssColor;
  font_size : string;
  font_weight : string }.

(** An [a] element of the live page: [is_displayed()] and
    [get_attribute("href")]. *)
Record Anchor := { is_displayed : bool; href : option string }.

(** A loaded page: [current_url], the parse of [page_source], the result of
    [find_elements(by="tag name", value="a")], and
    [find_element(by="xpath", value=...)] with the styles of the element
    found ([None]: no such element). *)
Record Document := {
  current_url : string;
  page_source : Node;
  anchors : list Anchor;
  find_element : string → option Style }.

(** The browser session.  Windows are never closed by the module, so a
    window handle is the index of the window in [window_handles]. *)
Record Driver := {
  window_handles : list Document;
  current_window_handle : nat }.

(** A [WebElement]: it belongs to the window it was found in. *)
Record WebElement := { el_window : nat; el_anchor : Anchor }.

(** The page of a window opened by [window.open('')]. *)
Definition about_blank : Document :=
  {| current_url := "about:blank";
     page_source := Tag "[document]" ∅ [];
     anchors := [];
     find_element := λ _, None |}.

(** ** The tester object *)

Inductive Exn :=
| AttributeError
| KeyError (key : string)
| ValueError
| TypeError
| IndexError
| ZeroDivisionError
| NoSuchElementException
| StaleElementReferenceException
| WebDriverException
| NameError (name : string)
| SyntaxError
| Exception (msg : string).

(** An argument of [print]. *)
Inductive PyVal :=
| VStr (s : string)
| VInt (n : Z)
| VColor (c : Rgba)
| VRound (q : Q) (ndigits : Z).

(** The constructor arguments that never change. *)
Record Config := {
  url : string;
  required_degree : Q;
  chosen_driver : string;
  headless : bool;
  screenshots : bool;
  browser_height : Z;
  browser_width : Z;
  follow : bool }.

(** The mutable part of [self], and the console. *)
Record State := {
  config : Config;
  driver : option Driver;
  page : option Node;
  correct : gmap string Z;
  wrong : gmap string Z;
  visited_links : list string;
  stdout : list (list PyVal);
  screenshot_files : list string }.

Definition set_driver (d : option Driver) (s : State) : State :=
  {| config := config s; driver := d; page := page s; correct := correct s;
     wrong := wrong s; visited_links := visited_links s; stdout := stdout s;
     screenshot_files := screenshot_files s |}.

Definition set_page (p : option Node) (s : State) : State :=
  {| config := config s; driver := driver s; page := p; correct := correct s;
     wrong := wrong s; visited_links := visited_links s; stdout := stdout s;
     screenshot_files := screenshot_files s |}.

Definition set_correct (m : gmap string Z) (s : State) : State :=
  {| config := config s; driver := driver s; page := page s; correct := m;
     wrong := wrong s; visited_links := visited_links s; stdout := stdout s;
     screenshot_files := screenshot_files s |}.

Definition set_wrong (m : gmap string Z) (s : State) : State :=
  {| config := config s; driver := driver s; page := page s; correct := correct s;
     wrong := m; visited_links := visited_links s; stdout := stdout s;
     screenshot_files := screenshot_files s |}.

Definition set_visited_links (l : list string) (s : State) : State :=
  {| config := config s; driver := driver s; page := page s; correct := correct s;
     wrong := wrong s; visited_links := l; stdout := stdout s;
     screenshot_files := screenshot_files s |}.

Definition set_stdout (o : list (list PyVal)) (s : State) : State :=
  {| config := config s; driver := driver s; page := page s; correct := correct s;
     wrong := wrong s; visited_links := visited_links s; stdout := o;
     screenshot_files := screenshot_files s |}.

Definition set_screenshot_files (f : list string) (s : State) : State :=
  {| config := config s; driver := driver s; page := page s; correct := correct s;
     wrong := wrong s; visited_links := visited_links s; stdout := stdout s;
     screenshot_files := f |}.

(** The six categories, in the order of the dictionaries. *)
Definition categories : list string :=
  ["doc_language"; "alt_texts"; "input_labels"; "empty_buttons"; "empty_links";
   "color_contrast"].

(** [AccessibilityTester.__init__]. *)
Definition init (url : string) (required_degree : Q) (chosen_driver : string)
    (headless screenshots : bool) (browser_height browser_width : Z) (follow : bool) : State :=
  {| config := {| url := url; required_degree := required_degree;
                  chosen_driver := chosen_driver; headless := headless;
                  screenshots := screenshots; browser_height := browser_height;
                  browser_width := browser_width; follow := follow |};
     driver := None;
     page := None;
     correct := list_to_map ((λ k, (k, 0)) <$> categories);
     wrong := list_to_map ((λ k, (k, 0)) <$> categories);
     visited_links := [];
     stdout := [];
     screenshot_files := [] |}.

(** ** The monad of methods: state, exceptions, and fuel for the recursion
    of [test_page] *)

Inductive Result (A : Type) :=
| Done (a : A) (s : State)
| Raised (e : Exn) (s : State)
| OutOfFuel.
Arguments Done {A} a s.
Arguments Raised {A} e s.
Arguments OutOfFuel {A}.

Definition M (A : Type) : Type := State → Result A.

Definition ret {A} (a : A) : M A := λ s, Done a s.

Definition bind {A B} (m : M A) (f : A → M B) : M B :=
  λ s, match m s with
       | Done a s' => f a s'
       | Raised e s' => Raised e s'
       | OutOfFuel => OutOfFuel
       end.

Definition raise {A} (e : Exn) : M A := λ s, Raised e s.

Definition gets {A} (f : State → A) : M A := λ s, Done (f s) s.

Definition modify (f : State → State) : M unit := λ s, Done tt (f s).

Declare Scope py_scope.
Delimit Scope py_scope with py.
Notation "x <- m ;; k" := (bind m (λ x, k))
  (at level 100, m at next level, right associativity) : py_scope.
Notation "m ;; k" := (bind m (λ _, k))
  (at level 100, right associativity) : py_scope.
Local Open Scope py_scope.

(** [for x in l: body(x)]. *)
Fixpoint for_each {A} (l : list A) (body : A → M unit) : M unit :=
  match l with
  | [] => ret tt
  | x :: l' => body x ;; for_each l' body
  end.

(** An [Optional] that must not be [None] here. *)
Definition some_or {A} (e : Exn) (o : option A) : M A :=
  match o with Some a => ret a | None => raise e end.

(** [self.page], about to be used as a tag. *)
Definition get_page : M Node := o <- gets page ;; some_or AttributeError o.

(** [self.driver], about to be used. *)
Definition get_driver : M Driver := o <- gets driver ;; some_or AttributeError o.

(** [print(a, b, ...)]: one line, kept as the list of its arguments. *)
Definition print (args : list PyVal) : M unit :=
  modify (λ s, set_stdout (stdout s ++ [args]) s).

(** [self.correct[k] += 1]. *)
Definition incr_correct (k : string) : M unit :=
  λ s, match correct s !! k with
       | Some v => Done tt (set_correct (<[k := v + 1]> (correct s)) s)
       | None => Raised (KeyError k) s
       end.

(** [self.wrong[k] += 1]. *)
Definition incr_wrong (k : string) : M unit :=
  λ s, match wrong s !! k with
       | Some v => Done tt (set_wrong (<[k := v + 1]> (wrong s)) s)
       | None => Raised (KeyError k) s
       end.

(** ** The checks that read only the parsed page *)

(** ["k" in tag.attrs and not tag["k"] == ""]. *)
Definition attr_set (n : Node) (k : string) : bool :=
  match node_attrs n !! k with
  | Some v => negb (bool_decide (v = ""))
  | None => false
  end.

(** ["k" in tag.attrs and tag["k"] == v]. *)
Definition attr_is (n : Node) (k v : string) : bool :=
  bool_decide (node_attrs n !! k = Some v).

(** [check_doc_language] (3.1.1 H57). *)
Definition check_doc_language : M unit :=
  pg <- get_page ;;
  html <- some_or AttributeError (find (soup pg) "html") ;;
  match get_attribute_list_0 html.2 "lang" with
  | Some lang_attr =>
      if negb (bool_decide (lang_attr = "")) then
        print [VStr "  Document language is set"] ;;
        incr_correct "doc_language"
      else
        print [VStr "x Document language is empty"] ;;
        incr_wrong "doc_language"
  | None =>
      print [VStr "x Document language is missing"] ;;
      incr_wrong "doc_language"
  end.

(** The body of the loop of [check_alt_texts]. *)
Definition check_alt_text (pg : Node) (img_element : Element) : M unit :=
  match get_attribute_list_0 img_element.2 "alt" with
  | Some alt_text =>
      if negb (bool_decide (alt_text = "")) then
        print [VStr "  Alt text is correct"; VStr (xpath_soup pg (Some img_element.1))] ;;
        incr_correct "alt_texts"
      else
        print [VStr "x Alt text is empty"; VStr (xpath_soup pg (Some img_element.1))] ;;
        incr_wrong "alt_texts"
  | None =>
      print [VStr "x Alt text is missing"; VStr (xpath_soup pg (Some img_element.1))] ;;
      incr_wrong "alt_texts"
  end.

(** [check_alt_texts] (1.1.1 H37). *)
Definition check_alt_texts : M unit :=
  pg <- get_page ;;
  for_each (find_all (soup pg) "img") (check_alt_text pg).

(** The guard of [check_input_labels]: the input is not of type hidden,
    submit, reset or button, or has no type at all. *)
Definition needs_label (input_element : Node) : bool :=
  match node_attrs input_element !! "type" with
  | Some t =>
      negb (bool_decide (t = "hidden")) && negb (bool_decide (t = "submit"))
      && negb (bool_decide (t = "reset")) && negb (bool_decide (t = "button"))
  | None => true
  end.

(** The inner loop of [check_input_labels]: is there a label whose [for]
    is the [id] of the input? *)
Definition label_correct (label_elements : list Element) (input_element : Node) : bool :=
  foldl (λ found label_element,
           match node_attrs label_element.2 !! "for", node_attrs input_element !! "id" with
           | Some f, Some i => if bool_decide (f = i) then true else found
           | _, _ => found
           end)
        false label_elements.

(** The body of the loop of [check_input_labels]. *)
Definition check_input_label (pg : Node) (label_elements : list Element)
    (input_element : Element) : M unit :=
  let xp := VStr (xpath_soup pg (Some input_element.1)) in
  if needs_label input_element.2 then
    if attr_is input_element.2 "type" "image" && attr_set input_element.2 "alt" then
      print [VStr "  Input of type image labelled with alt text"; xp] ;;
      incr_correct "input_labels"
    else if attr_set input_element.2 "aria-label" then
      print [VStr "  Input labelled with aria-label attribute"; xp] ;;
      incr_correct "input_labels"
    else if attr_set input_element.2 "aria-labelledby" then
      match find_id (soup pg) (default "" (node_attrs input_element.2 !! "aria-labelledby")) with
      | Some label_element =>
          match find_all_text label_element with
          | _ :: _ =>
              print [VStr "  Input labelled with aria-labelledby attribute"; xp] ;;
              incr_correct "input_labels"
          | [] =>
              print [VStr "x Input labelled with aria-labelledby attribute, but related label has no text"; xp] ;;
              incr_wrong "input_labels"
          end
      | None =>
          print [VStr "x Input labelled with aria-labelledby attribute, but related label does not exist"; xp] ;;
          incr_wrong "input_labels"
      end
    else if label_correct label_elements input_element.2 then
      print [VStr "  Input labelled with label element"; xp] ;;
      incr_correct "input_labels"
    else
      print [VStr "x Input not labelled at all"; xp] ;;
      incr_wrong "input_labels"
  else ret tt.

(** [check_input_labels] (1.3.1 H44 & ARIA16). *)
Definition check_input_labels : M unit :=
  pg <- get_page ;;
  let input_elements := find_all (soup pg) "input" in
  let label_elements := find_all (soup pg) "label" in
  for_each input_elements (check_input_label pg label_elements).

(** The body of the first loop of [check_buttons]: an input of type
    submit, button or reset. *)
Definition check_button_input (pg : Node) (input_element : Element) : M unit :=
  if attr_set input_element.2 "value" then
    print [VStr "  Button has content"; VStr (xpath_soup pg (Some input_element.1))] ;;
    incr_correct "empty_buttons"
  else
    print [VStr "x Button is empty"; VStr (xpath_soup pg (Some input_element.1))] ;;
    incr_wrong "empty_buttons".

(** The body of the second loop of [check_buttons]: a [button] element. *)
Definition check_button (pg : Node) (button_element : Element) : M unit :=
  let texts := find_all_text button_element in
  if negb (bool_decide (texts = [])) || attr_set button_element.2 "title" then
    print [VStr "  Button has content"; VStr (xpath_soup pg (Some button_element.1))] ;;
    incr_correct "empty_buttons"
  else
    print [VStr "x Button is empty"; VStr (xpath_soup pg (Some button_element.1))] ;;
    incr_wrong "empty_buttons".

(** [check_buttons] (1.1.1 & 2.4.4). *)
Definition check_buttons : M unit :=
  pg <- get_page ;;
  let input_elements := find_all_typed (soup pg) "input" ["submit"; "button"; "reset"] in
  let button_elements := find_all (soup pg) "button" in
  for_each input_elements (check_button_input pg) ;;
  for_each button_elements (check_button pg).

(** The loop over the image children in [check_links]. *)
Definition all_alt_texts_set (img_elements : list Node) : bool :=
  foldl (λ ok img_element,
           match get_attribute_list_0 img_element "alt" with
           | Some alt_text => if bool_decide (alt_text = "") then false else ok
           | None => false
           end)
        true img_elements.

(** The body of the loop of [check_links]. *)
Definition check_link (pg : Node) (link_element : Element) : M unit :=
  let texts_in_link_element := find_all_text link_element in
  let img_elements := find_children link_element "img" in
  if negb (bool_decide (texts_in_link_element = []))
     || (negb (bool_decide (img_elements = [])) && all_alt_texts_set img_elements) then
    print [VStr "  Link has content"; VStr (xpath_soup pg (Some link_element.1))] ;;
    incr_correct "empty_links"
  else
    print [VStr "x Link is empty"; VStr (xpath_soup pg (Some link_element.1))] ;;
    incr_wrong "empty_links".

(** [check_links] (2.4.4 G91 & H30). *)
Definition check_links : M unit :=
  pg <- get_page ;;
  for_each (find_all (soup pg) "a") (check_link pg).

(** ** Colour mathematics *)

(** [convert_rgb_8bit_value]: one 8-bit channel to its linear value. *)
Definition convert_rgb_8bit_value (single_rgb_8bit_value : Z) : R :=
  let srgb := (IZR single_rgb_8bit_value / 255)%R in
  if Rle_dec srgb 0.03928 then (srgb / 12.92)%R
  else Rpower ((srgb + 0.055) / 1.055) 2.4.

(** The relative luminance computed inside [get_contrast_ratio]. *)
Definition luminance (c : Rgba) : R :=
  (0.2126 * convert_rgb_8bit_value (red c)
   + 0.7152 * convert_rgb_8bit_value (green c)
   + 0.0722 * convert_rgb_8bit_value (blue c))%R.

(** [get_contrast_ratio]. *)
Definition get_contrast_ratio (text_color background_color : Rgba) : R :=
  let luminance_text := luminance text_color in
  let luminance_background := luminance background_color in
  if Rgt_dec luminance_text luminance_background then
    ((luminance_text + 0.05) / (luminance_background + 0.05))%R
  else
    ((luminance_background + 0.05) / (luminance_text + 0.05))%R.

(** [x >= y] on floats. *)
Definition float_ge (x y : R) : bool := if Rge_dec x y then true else false.

Definition eval_error (error : EvalError) : Exn :=
  match error with
  | NotAnExpression => SyntaxError
  | UndefinedName name => NameError name
  end.

(** [convert_to_rgba_value]: a colour without alpha gets alpha 1.  A text
    that begins with ["rgba"] is returned as it is; of any other text,
    what follows the first three characters goes to [eval]. *)
Definition convert_to_rgba_value (c : CssColor) : Exn + RgbaText :=
  match c with
  | CssRgb r g b => inr (RgbaOf {| red := r; green := g; blue := b; alpha := 1 |})
  | CssRgba c => inr (RgbaOf c)
  | CssOther text error =>
      if String.prefix "rgba" text then inr (Unread text error) else inl (eval_error error)
  end.

(** [eval(color[4:])] on a text that [convert_to_rgba_value] has
    returned. *)
Definition eval_tuple (color : RgbaText) : Exn + Rgba :=
  match color with
  | RgbaOf c => inr c
  | Unread _ error => inl (eval_error error)
  end.

(** The string ["rgba(255,255,255,1)"]. *)
Definition white : Rgba := {| red := 255; green := 255; blue := 255; alpha := 1 |}.

(** [driver.find_element] works on the window the driver is switched to. *)
Definition current_document (d : Driver) : option Document :=
  window_handles d !! current_window_handle d.

(** [get_background_color] on an element that is not [None]; the
    recursive call on [text.parent] follows the reference, and the parent
    of the root is [None], for which the function answers white.  The
    text it returns has been through [eval] in the test of the alpha
    channel, so the answer is given as the tuple. *)
Fixpoint get_background_color_of (doc : Document) (pg : Node) (text : Ref) : Exn + Rgba :=
  match find_element doc (xpath_soup pg (Some text)) with
  | None => inl NoSuchElementException
  | Some selenium_element =>
      match convert_to_rgba_value (background_color selenium_element) with
      | inl e => inl e
      | inr background_color =>
          match eval_tuple background_color with
          | inl e => inl e
          | inr tuple =>
              if Qeq_bool (alpha tuple) 0 then
                match text with
                | [] => inr white
                | _ :: text_parent => get_background_color_of doc pg text_parent
                end
              else inr tuple
          end
      end
  end.

(** [get_background_color]. *)
Definition get_background_color (doc : Document) (pg : Node) (text : option Ref) : Exn + Rgba :=
  match text with
  | None => inr white
  | Some r => get_background_color_of doc pg r
  end.

(** ** [extract_texts] and the colour check *)

(** [extract_texts].  [soup2 = soup] is the same object, so the removals
    happen in the caller's tree: the function yields the tree as it has
    become, together with the list it returns. *)
Definition extract_texts (soup0 : Node) : Node * list Element :=
  let soup1 := extract_all (named_any ["script"; "style"; "title"; "noscript"]) soup0 in
  let soup2 := extract_all is_comment soup1 in
  let soup3 := default soup2 (extract_first is_doctype soup2) in
  let texts_on_page := find_all_text (soup soup3) in
  (soup3,
   omap (λ text,
           if negb (Py.strip_is_empty (node_text text.2))
              && negb (bool_decide (node_text text.2 = String "010" ""))
           then parent soup3 text else None)
        texts_on_page).

Definition lift {A} (r : Exn + A) : M A :=
  match r with inl e => raise e | inr a => ret a end.

(** The size test of [check_color_contrast]: at least 18px, or bold (or a
    [strong] element) and at least 14px.  [int] of no digit at all is a
    [ValueError]. *)
Definition large_text (font_size font_weight : string) (text : Node) : Exn + bool :=
  if Py.contains font_size "px" then
    match Py.int (Py.filter_digits font_size) with
    | None => inl ValueError
    | Some n =>
        inr ((18 <=? n)
             || ((bool_decide (font_weight = "bold") || bool_decide (font_weight = "700")
                  || bool_decide (font_weight = "800") || bool_decide (font_weight = "900")
                  || bool_decide (node_name text = Some "strong"))
                 && (14 <=? n)))
    end
  else inr false.

(** Which candidates are looked at: shown, and not an input unless it has
    a type other than hidden. *)
Definition contrast_candidate (element_visible : string) (text : Node) : bool :=
  negb (bool_decide (element_visible = "none"))
  && (negb (bool_decide (node_name text = Some "input"))
      || (bool_decide (node_name text = Some "input")
          && match node_attrs text !! "type" with
             | Some t => negb (bool_decide (t = "hidden"))
             | None => false
             end)).

(** The two outcomes of the comparison with the threshold. *)
Definition report_contrast (ok : bool) (xp : string) (text_color background_color : Rgba) : M unit :=
  if ok then
    print [VStr "  Contrast meets minimum requirements"; VStr xp;
           VColor text_color; VColor background_color] ;;
    incr_correct "color_contrast"
  else
    print [VStr "x Contrast does not meet minimum requirements"; VStr xp;
           VColor text_color; VColor background_color] ;;
    incr_wrong "color_contrast".

(** The body of the loop of [check_color_contrast]. *)
Definition check_contrast (pg : Node) (text : Element) : M unit :=
  drv <- get_driver ;;
  doc <- some_or WebDriverException (current_document drv) ;;
  selenium_element <-
    some_or NoSuchElementException (find_element doc (xpath_soup pg (Some text.1))) ;;
  if contrast_candidate (display selenium_element) text.2 then
    text_color_text <- lift (convert_to_rgba_value (color selenium_element)) ;;
    background_color <- lift (get_background_color doc pg (Some text.1)) ;;
    text_color <- lift (eval_tuple text_color_text) ;;
    let contrast := get_contrast_ratio text_color background_color in
    large <- lift (large_text (font_size selenium_element) (font_weight selenium_element) text.2) ;;
    if large : bool then
      report_contrast (float_ge contrast 3) (xpath_soup pg (Some text.1))
        text_color background_color
    else
      report_contrast (float_ge contrast 4.5) (xpath_soup pg (Some text.1))
        text_color background_color
  else ret tt.

(** [check_color_contrast] (1.4.3 G18 & G145). *)
Definition check_color_contrast : M unit :=
  pg <- get_page ;;
  let extracted := extract_texts pg in
  modify (set_page (Some extracted.1)) ;;
  let input_elements := find_all (soup extracted.1) "input" in
  for_each (extracted.2 ++ input_elements) (check_contrast extracted.1).

(** ** [calculate_result] *)

(** [sum(d.values())]. *)
Definition sum_values (d : gmap string Z) : Z :=
  map_fold (λ _ v acc, v + acc) 0 d.

(** [for category, value in d.items(): print(" ", category + ":", value)].
    The dictionaries keep the keys of [__init__], in its order. *)
Definition print_items (d : gmap string Z) : M unit :=
  for_each categories
    (λ category,
       match d !! category with
       | Some value => print [VStr " "; VStr (category +:+ ":"); VInt value]
       | None => ret tt
       end).

(** [calculate_result].  Returning normally after ["Nothing found"],
    returning normally after the success line, and raising are its three
    ways out. *)
Definition calculate_result : M unit :=
  correct_total <- gets (λ s, sum_values (correct s)) ;;
  false_total <- gets (λ s, sum_values (wrong s)) ;;
  if (correct_total =? 0) && (false_total =? 0) then
    print [VStr "Nothing found"]
  else
    print [VStr (String "010" "Result")] ;;
    print [VStr "---------------------"] ;;
    print [VStr "Correct:"; VInt correct_total] ;;
    (d <- gets correct ;; print_items d) ;;
    print [VStr "Errors:"; VInt false_total] ;;
    (d <- gets wrong ;; print_items d) ;;
    if correct_total + false_total =? 0 then raise ZeroDivisionError
    else
      let ratio := (inject_Z correct_total / inject_Z (correct_total + false_total))%Q in
      print [VStr "Ratio (correct to total):"; VRound ratio 2; VStr (String "010" "")] ;;
      required <- gets (λ s, required_degree (config s)) ;;
      if Qle_bool required ratio then
        print [VStr "Accessibility test successful - can deploy"]
      else
        raise (Exception "Too many accessibility errors - try fix them!").

(** ** [test_page]: the checks of one page and the crawl *)

(** The line printed at the head of each tested page. *)
Definition page_header (current : string) : list PyVal :=
  [VStr (String "010" (String "010" current) +:+ String "010" "---------------------")].

(** [window_handles.index(h)]: a handle is its own index. *)
Definition handle_index (drv : Driver) (h : nat) : option Z :=
  if bool_decide (h < length (window_handles drv))%nat then Some (Z.of_nat h) else None.

(** [switch_to.window(window_handles[i])]. *)
Definition switch_to_window_at (i : Z) : M unit :=
  drv <- get_driver ;;
  h <- some_or IndexError (Py.index (seq 0 (length (window_handles drv))) i) ;;
  modify (set_driver (Some {| window_handles := window_handles drv;
                              current_window_handle := h |})).

(** [switch_to.window(window_handles[window_handles.index(current_window_handle)-1])]:
    the window before the current one; from the first window, Python's
    index [-1] is the last one. *)
Definition switch_to_previous_window : M unit :=
  drv <- get_driver ;;
  i <- some_or ValueError (handle_index drv (current_window_handle drv)) ;;
  switch_to_window_at (i - 1).

(** [execute_script("window.open('');")]. *)
Definition window_open : M unit :=
  drv <- get_driver ;;
  modify (set_driver (Some {| window_handles := window_handles drv ++ [about_blank];
                              current_window_handle := current_window_handle drv |})).

(** [driver.current_url], [driver.page_source], [find_elements] and the
    reads of a [WebElement]. *)
Definition get_document : M Document :=
  drv <- get_driver ;;
  some_or WebDriverException (current_document drv).

Definition find_anchors : M (list WebElement) :=
  drv <- get_driver ;;
  doc <- get_document ;;
  ret ((λ a, {| el_window := current_window_handle drv; el_anchor := a |}) <$> anchors doc).

(** A [WebElement] can be read only in the window it was found in. *)
Definition element_read {A} (f : Anchor → A) (link : WebElement) : M A :=
  drv <- get_driver ;;
  if bool_decide (el_window link = current_window_handle drv) then ret (f (el_anchor link))
  else raise StaleElementReferenceException.

(** [driver.quit()]: every window is closed. *)
Definition driver_quit : M unit :=
  drv <- get_driver ;;
  modify (set_driver (Some {| window_handles := [];
                              current_window_handle := current_window_handle drv |})).

Section Crawl.

(** The world outside: what a URL loads ([None]: the navigation fails),
    [urllib.parse.urljoin] and [urllib.parse.urlparse(...).hostname]. *)
Variable fetch : string → option Document.
Variable urljoin : string → option string → string.
Variable hostname : string → option string.

(** [driver.get(url)]: the current window shows the document of [url]. *)
Definition driver_get (target : string) : M unit :=
  drv <- get_driver ;;
  doc <- some_or WebDriverException (fetch target) ;;
  if bool_decide (current_window_handle drv < length (window_handles drv))%nat then
    modify (set_driver (Some {| window_handles := <[current_window_handle drv := doc]> (window_handles drv);
                                current_window_handle := current_window_handle drv |}))
  else raise WebDriverException.

(** The six checks, in the order of [test_page]. *)
Definition run_checks : M unit :=
  check_doc_language ;;
  check_alt_texts ;;
  check_input_labels ;;
  check_buttons ;;
  check_links ;;
  check_color_contrast.

(** The screenshot of [test_page]; the file is named after the host (the
    time stamp in the name is left out). *)
Definition take_screenshot : M unit :=
  doc <- get_document ;;
  host <- some_or TypeError (hostname (current_url doc)) ;;
  modify (λ s, set_screenshot_files (screenshot_files s ++ ["/screenshots/" +:+ host]) s).

(** The body of the loop over the links; [recurse] is [self.test_page()].
    The conditions are evaluated from left to right as Python's [or]
    does.  (The script that empties the [target] attribute of the links
    changes nothing that the module reads.) *)
Definition visit_link (recurse : M unit) (link : WebElement) : M unit :=
  self_url <- gets (λ s, url (config s)) ;;
  link_href <- element_read href link ;;
  let full_link := urljoin self_url link_href in
  displayed <- element_read is_displayed link ;;
  if negb displayed || bool_decide (link_href = Some "") || bool_decide (link_href = None) then
    ret tt
  else
    doc <- get_document ;;
    visited <- gets visited_links ;;
    if bool_decide (full_link = current_url doc) || Py.in_list full_link visited then
      ret tt
    else
      let link_url := default "" link_href in
      window_open ;;
      drv <- get_driver ;;
      switch_to_window_at (Z.of_nat (length (window_handles drv)) - 1) ;;
      driver_get link_url ;;
      doc' <- get_document ;;
      visited' <- gets visited_links ;;
      if Py.in_list (current_url doc') visited' then switch_to_previous_window
      else
        host <- some_or TypeError (hostname self_url) ;;
        if negb (Py.contains (current_url doc') host) then switch_to_previous_window
        else recurse.

(** [test_page].  The recursion is bounded by [fuel] in the model only. *)
Fixpoint test_page (fuel : nat) : M unit :=
  match fuel with
  | O => λ _, OutOfFuel
  | S fuel' =>
      doc <- get_document ;;
      modify (set_page (Some (page_source doc))) ;;
      print (page_header (current_url doc)) ;;
      run_checks ;;
      shots <- gets (λ s, screenshots (config s)) ;;
      (if shots : bool then take_screenshot else ret tt) ;;
      following <- gets (λ s, follow (config s)) ;;
      if following : bool then
        modify (λ s, set_visited_links (visited_links s ++ [current_url doc]) s) ;;
        link_list <- find_anchors ;;
        for_each link_list (visit_link (test_page fuel')) ;;
        switch_to_previous_window
      else ret tt
  end.

(** [start_driver], for a driver name accepted by it: one window, showing
    the page of [self.url]. *)
Definition start_driver : M unit :=
  name <- gets (λ s, chosen_driver (config s)) ;;
  if bool_decide (name ∈ ["chrome"; "firefox"; "edge"; "opera"; "safari"]) then
    self_url <- gets (λ s, url (config s)) ;;
    modify (set_driver (Some {| window_handles := [about_blank]; current_window_handle := 0 |})) ;;
    driver_get self_url ;;
    doc <- get_document ;;
    modify (set_page (Some (page_source doc)))
  else raise (Exception "Webdriver must be one of: Chrome, Firefox, Edge, Opera, Safari").

(** The four calls that follow the construction of the tester in
    [main.py], in their order: start the driver, test the page, quit the
    driver, compute the result. *)
Definition run (fuel : nat) : M unit :=
  start_driver ;;
  test_page fuel ;;
  driver_quit ;;
  calculate_result.

End Crawl.

(** ** Definitions used to state the properties *)

(** The channels of a colour are 8-bit values. *)
Definition channels_in_range (c : Rgba) : Prop :=
  0 <= red c <= 255 ∧ 0 <= green c <= 255 ∧ 0 <= blue c <= 255.

(** The element, its parent, and so on up to the root: the chain that
    [get_background_color] follows through [text.parent]. *)
Fixpoint ancestor_chain (text : Ref) : list Ref :=
  text :: match text with
          | [] => []
          | _ :: text_parent => ancestor_chain text_parent
          end.

(** A colour text as a tuple, when it can be read as one. *)
Definition read_colour (c : CssColor) : option Rgba :=
  match convert_to_rgba_value c with
  | inr color => match eval_tuple color with inr tuple => Some tuple | inl _ => None end
  | inl _ => None
  end.

(** The background colour the driver reports for an element. *)
Definition background_of (doc : Document) (pg : Node) (text : Ref) : option Rgba :=
  find_element doc (xpath_soup pg (Some text)) ≫= (λ st, read_colour (background_color st)).

(** The rule in the words of the specification: the first colour of the
    chain with alpha above zero, opaque white when there is none. *)
Definition resolve_effective_background (chain : list Rgba) : Rgba :=
  match List.find (λ c, negb (Qle_bool (alpha c) 0)) chain with
  | Some c => c
  | None => white
  end.

(** The lines [calculate_result] prints for the items of a dictionary. *)
Definition items_lines (d : gmap string Z) : list (list PyVal) :=
  omap (λ category,
          (λ value, [VStr " "; VStr (category +:+ ":"); VInt value]) <$> d !! category)
       categories.

(** The lines [calculate_result] prints from ["Result"] to the errors of
    each category. *)
Definition report_lines (s : State) : list (list PyVal) :=
  [[VStr (String "010" "Result")];
   [VStr "---------------------"];
   [VStr "Correct:"; VInt (sum_values (correct s))]]
  ++ items_lines (correct s)
  ++ [[VStr "Errors:"; VInt (sum_values (wrong s))]]
  ++ items_lines (wrong s).

(** The ratio of [calculate_result]. *)
Definition ratio_of (s : State) : Q :=
  (inject_Z (sum_values (correct s))
   / inject_Z (sum_values (correct s) + sum_values (wrong s)))%Q.

Definition ratio_line (s : State) : list PyVal :=
  [VStr "Ratio (correct to total):"; VRound (ratio_of s) 2; VStr (String "010" "")].

(** ** Sample data *)

Definition transparent : Rgba := {| red := 0; green := 0; blue := 0; alpha := 0 |}.

Definition sample_style (bg : CssColor) : Style :=
  {| display := "block"; color := CssRgb 0 0 0; background_color := bg;
     font_size := "16px"; font_weight := "400" |}.

(** [<html lang="en"><body><p>Hi</p></body></html>] *)
Definition sample_page : Node :=
  Tag "[document]" ∅
    [Tag "html" {[ "lang" := "en" ]}
       [Tag "body" ∅ [Tag "p" ∅ [NavigableString "Hi"]]]].

(** The paragraph and the body are transparent, the root is light grey. *)
Definition sample_find_element (xp : string) : option Style :=
  if bool_decide (xp = "/html/body/p") then Some (sample_style (CssRgba transparent))
  else if bool_decide (xp = "/html/body") then Some (sample_style (CssRgba transparent))
  else if bool_decide (xp = "/html") then Some (sample_style (CssRgb 240 240 240))
  else None.

Definition sample_doc : Document :=
  {| current_url := "http://a.test/"; page_source := sample_page; anchors := [];
     find_element := sample_find_element |}.

(** A tester built with level 1, before the driver starts. *)
Definition fresh_tester (follow : bool) : State :=
  init "http://a.test/" 1 "chrome" true false 1080 1920 follow.

(** The tallies after a page whose only finding is a missing language. *)
Definition one_error_state : State :=
  set_wrong (<["doc_language" := 1]> (wrong (fresh_tester false))) (fresh_tester false).

(** ** Findings

    What one judgement of a check amounts to: the verdict and the line it
    prints.  [record_finding] is the common shape of the branches of the
    checks: print the line, then add one to [correct] or to [wrong]. *)

Definition Finding : Type := bool * list PyVal.

Definition record_finding (cat : string) (f : Finding) : M unit :=
  print f.2 ;; if f.1 then incr_correct cat else incr_wrong cat.

Definition record_judgement (cat : string) (j : option Finding) : M unit :=
  match j with Some f => record_finding cat f | None => ret tt end.

Definition passes (fs : list Finding) : Z :=
  Z.of_nat (length (filter (λ f, f.1 = true) fs)).

Definition fails (fs : list Finding) : Z :=
  Z.of_nat (length (filter (λ f, f.1 = false) fs)).

(** The state after a list of findings of one category has been recorded:
    their lines are on the console, and the two counters of the category
    have grown by the number of passes and of fails. *)
Definition tally (cat : string) (fs : list Finding) (s : State) : State :=
  {| config := config s; driver := driver s; page := page s;
     correct := alter (λ v, v + passes fs) cat (correct s);
     wrong := alter (λ v, v + fails fs) cat (wrong s);
     visited_links := visited_links s;
     stdout := stdout s ++ fs.*2;
     screenshot_files := screenshot_files s |}.

(** Both counters of a category exist. *)
Definition has_category (cat : string) (s : State) : Prop :=
  is_Some (correct s !! cat) ∧ is_Some (wrong s !! cat).

(** Both dictionaries have the six keys. *)
Definition has_categories (s : State) : Prop :=
  ∀ k, k ∈ categories → is_Some (correct s !! k) ∧ is_Some (wrong s !! k).

(** A line with the address of the element. *)
Definition line_at (msg : string) (pg : Node) (e : Element) : list PyVal :=
  [VStr msg; VStr (xpath_soup pg (Some e.1))].

(** An attribute that is present and not empty. *)
Definition nonempty_attr (n : Node) (k : string) : Prop :=
  ∃ v, node_attrs n !! k = Some v ∧ v ≠ "".

Definition doc_language_finding (html : Node) : Finding :=
  match node_attrs html !! "lang" with
  | Some lang_attr =>
      if bool_decide (lang_attr = "") then (false, [VStr "x Document language is empty"])
      else (true, [VStr "  Document language is set"])
  | None => (false, [VStr "x Document language is missing"])
  end.

Definition alt_text_finding (pg : Node) (e : Element) : Finding :=
  match node_attrs e.2 !! "alt" with
  | Some alt_text =>
      if bool_decide (alt_text = "") then (false, line_at "x Alt text is empty" pg e)
      else (true, line_at "  Alt text is correct" pg e)
  | None => (false, line_at "x Alt text is missing" pg e)
  end.

Definition button_line (ok : bool) (pg : Node) (e : Element) : list PyVal :=
  line_at (if ok then "  Button has content" else "x Button is empty") pg e.

Definition button_input_finding (pg : Node) (e : Element) : Finding :=
  (attr_set e.2 "value", button_line (attr_set e.2 "value") pg e).

Definition button_passes (e : Element) : bool :=
  negb (bool_decide (find_all_text e = [])) || attr_set e.2 "title".

Definition button_finding (pg : Node) (e : Element) : Finding :=
  (button_passes e, button_line (button_passes e) pg e).

Definition link_passes (e : Element) : bool :=
  negb (bool_decide (find_all_text e = []))
  || (negb (bool_decide (find_children e "img" = []))
      && all_alt_texts_set (find_children e "img")).

Definition link_finding (pg : Node) (e : Element) : Finding :=
  (link_passes e,
   line_at (if link_passes e then "  Link has content" else "x Link is empty") pg e).

(** The ways the labelling of an input is decided, in the order of the
    specification: (a) image with alternative text, (b) direct label
    attribute, (c) label reference, with its two failures, (d) label
    element, and no label at all. *)
Inductive Labelling :=
| ByImageAlt
| ByAriaLabel
| ByReference
| ReferenceEmpty
| ReferenceMissing
| ByLabelElement
| NotLabelled.

Definition labelling_passes (l : Labelling) : bool :=
  match l with
  | ByImageAlt | ByAriaLabel | ByReference | ByLabelElement => true
  | ReferenceEmpty | ReferenceMissing | NotLabelled => false
  end.

Definition labelling_reason (l : Labelling) : string :=
  match l with
  | ByImageAlt => "  Input of type image labelled with alt text"
  | ByAriaLabel => "  Input labelled with aria-label attribute"
  | ByReference => "  Input labelled with aria-labelledby attribute"
  | ReferenceEmpty =>
      "x Input labelled with aria-labelledby attribute, but related label has no text"
  | ReferenceMissing =>
      "x Input labelled with aria-labelledby attribute, but related label does not exist"
  | ByLabelElement => "  Input labelled with label element"
  | NotLabelled => "x Input not labelled at all"
  end.

(** Is there a label element whose [for] is the [id] of the input? *)
Definition has_label_for (label_elements : list Element) (input_element : Node) : bool :=
  existsb (λ label_element,
             match node_attrs label_element.2 !! "for", node_attrs input_element !! "id" with
             | Some f, Some i => bool_decide (f = i)
             | _, _ => false
             end)
          label_elements.

(** The four paths in priority order; the first path that applies decides. *)
Definition labelling (pg : Node) (label_elements : list Element) (input_element : Node) : Labelling :=
  if attr_is input_element "type" "image" && attr_set input_element "alt" then ByImageAlt
  else if attr_set input_element "aria-label" then ByAriaLabel
  else match node_attrs input_element !! "aria-labelledby" with
       | Some reference =>
           if bool_decide (reference = "") then
             if has_label_for label_elements input_element then ByLabelElement else NotLabelled
           else match find_id (soup pg) reference with
                | None => ReferenceMissing
                | Some label_element =>
                    if bool_decide (find_all_text label_element = []) then ReferenceEmpty
                    else ByReference
                end
       | None =>
           if has_label_for label_elements input_element then ByLabelElement else NotLabelled
       end.

Definition input_label_judgement (pg : Node) (label_elements : list Element)
    (e : Element) : option Finding :=
  if needs_label e.2 then
    let l := labelling pg label_elements e.2 in
    Some (labelling_passes l, line_at (labelling_reason l) pg e)
  else None.

(** [<html lang="en"><body><input type="submit" title="Send"></body></html>] *)
Definition titled_submit_page : Node :=
  Tag "[document]" ∅
    [Tag "html" {[ "lang" := "en" ]}
       [Tag "body" ∅
          [Tag "input" {[ "type" := "submit"; "title" := "Send" ]} []]]].

(** [<html lang="en"><body><input aria-labelledby="x"><span id="x"></span>
    <label for="a">Name</label><input id="a" aria-labelledby="nowhere"></body></html>] *)
Definition labelled_inputs_page : Node :=
  Tag "[document]" ∅
    [Tag "html" {[ "lang" := "en" ]}
       [Tag "body" ∅
          [Tag "input" {[ "aria-labelledby" := "x" ]} [];
           Tag "span" {[ "id" := "x" ]} [];
           Tag "label" {[ "for" := "a" ]} [NavigableString "Name"];
           Tag "input" {[ "id" := "a"; "aria-labelledby" := "nowhere" ]} []]]].

(** [<html lang="en"><body><label for="a">Name</label>
    <input id="a" aria-labelledby="nowhere"></body></html>] *)
Definition dangling_reference_page : Node :=
  Tag "[document]" ∅
    [Tag "html" {[ "lang" := "en" ]}
       [Tag "body" ∅
          [Tag "label" {[ "for" := "a" ]} [NavigableString "Name"];
           Tag "input" {[ "id" := "a"; "aria-labelledby" := "nowhere" ]} []]]].

(** [<html lang="en"><body><input aria-labelledby="x">
    <span id="x"><!-- none --></span></body></html>] *)
Definition comment_reference_page : Node :=
  Tag "[document]" ∅
    [Tag "html" {[ "lang" := "en" ]}
       [Tag "body" ∅
          [Tag "input" {[ "aria-labelledby" := "x" ]} [];
           Tag "span" {[ "id" := "x" ]} [Comment " none "]]]].

(** A tester that has parsed [pg]. *)
Definition tester_on (pg : Node) : State := set_page (Some pg) (fresh_tester false).

(** ** Relations between the state before and after a computation *)

(** [m] relates the state it starts from to the state it ends in or
    raises from, by [R]. *)
Definition preserves {A} (R : State → State → Prop) (m : M A) : Prop :=
  ∀ s, match m s with
       | Done _ s' | Raised _ s' => R s s'
       | OutOfFuel => True
       end.

(** Every counter of [d] is still there in [d'], and is no smaller. *)
Definition dict_le (d d' : gmap string Z) : Prop :=
  ∀ k v, d !! k = Some v → ∃ v', d' !! k = Some v' ∧ v <= v'.

Definition tallies_grow (s s' : State) : Prop :=
  dict_le (correct s) (correct s') ∧ dict_le (wrong s) (wrong s').

Definition same_tallies (s s' : State) : Prop :=
  correct s' = correct s ∧ wrong s' = wrong s.

(** One judgement: nothing is counted, or exactly one of the two counters
    of the category goes up by exactly one. *)
Definition judged_once (cat : string) (s s' : State) : Prop :=
  same_tallies s s' ∨
  (∃ v, correct s !! cat = Some v ∧ correct s' = <[cat := v + 1]> (correct s)
        ∧ wrong s' = wrong s) ∨
  (∃ v, wrong s !! cat = Some v ∧ wrong s' = <[cat := v + 1]> (wrong s)
        ∧ correct s' = correct s).

(** ** The colour check as a list of findings *)

(** What the body of the loop of [check_color_contrast] does with one
    candidate, in the document of the current window: raise, skip it, or
    record a finding. *)
Definition contrast_judgement_in (doc : Document) (pg : Node) (text : Element)
    : Exn + option Finding :=
  match find_element doc (xpath_soup pg (Some text.1)) with
  | None => inl NoSuchElementException
  | Some selenium_element =>
      if contrast_candidate (display selenium_element) text.2 then
        match convert_to_rgba_value (color selenium_element) with
        | inl e => inl e
        | inr text_color_text =>
            match get_background_color doc pg (Some text.1) with
            | inl e => inl e
            | inr background_color =>
                match eval_tuple text_color_text with
                | inl e => inl e
                | inr text_color =>
                    match large_text (font_size selenium_element)
                                     (font_weight selenium_element) text.2 with
                    | inl e => inl e
                    | inr large =>
                        let ok := float_ge (get_contrast_ratio text_color background_color)
                                           (if large then 3 else 4.5)%R in
                        inr (Some (ok,
                                   [VStr (if ok then "  Contrast meets minimum requirements"
                                          else "x Contrast does not meet minimum requirements");
                                    VStr (xpath_soup pg (Some text.1));
                                    VColor text_color; VColor background_color]))
                    end
                end
            end
        end
      else inr None
  end.

Definition contrast_judgement (session : option Driver) (pg : Node) (text : Element)
    : Exn + option Finding :=
  match session with
  | None => inl AttributeError
  | Some drv =>
      match current_document drv with
      | None => inl WebDriverException
      | Some doc => contrast_judgement_in doc pg text
      end
  end.

(** The findings recorded before the first exception, and that exception. *)
Fixpoint judge_until_raise (js : list (Exn + option Finding)) : list Finding * option Exn :=
  match js with
  | [] => ([], None)
  | inl e :: _ => ([], Some e)
  | inr j :: js' => (option_list j ++ (judge_until_raise js').1, (judge_until_raise js').2)
  end.

Definition finish (r : option Exn) (s : State) : Result unit :=
  match r with None => Done tt s | Some e => Raised e s end.

(** The candidates of the colour check and what becomes of them. *)
Definition contrast_outcome (session : option Driver) (pg : Node) : list Finding * option Exn :=
  let extracted := extract_texts pg in
  judge_until_raise
    (contrast_judgement session extracted.1
       <$> (extracted.2 ++ find_all (soup extracted.1) "input")).

(** ** Running the checks in some order *)

Definition run_in_order (checks : list (M unit)) : M unit :=
  for_each checks (λ check, check).

(** The five checks that only read the parsed page. *)
Definition snapshot_checks : list (M unit) :=
  [check_doc_language; check_alt_texts; check_input_labels; check_buttons; check_links].

(** The six checks, in the order of [test_page]. *)
Definition all_checks : list (M unit) := snapshot_checks ++ [check_color_contrast].

(** The two dictionaries at the end, however the run ended. *)
Definition tallies_of (r : Result unit) : option (gmap string Z * gmap string Z) :=
  match r with
  | Done _ s | Raised _ s => Some (correct s, wrong s)
  | OutOfFuel => None
  end.

(** The findings of the five page-only checks on a page whose [html]
    element is [html]. *)
Definition snapshot_findings (pg : Node) (html : Element) : list (string * list Finding) :=
  [("doc_language", [doc_language_finding html.2]);
   ("alt_texts", alt_text_finding pg <$> find_all (soup pg) "img");
   ("input_labels",
    omap (input_label_judgement pg (find_all (soup pg) "label")) (find_all (soup pg) "input"));
   ("empty_buttons",
    (button_input_finding pg <$> find_all_typed (soup pg) "input" ["submit"; "button"; "reset"])
    ++ (button_finding pg <$> find_all (soup pg) "button"));
   ("empty_links", link_finding pg <$> find_all (soup pg) "a")].

Definition tally_all (l : list (string * list Finding)) (s : State) : State :=
  foldl (λ s' x, tally x.1 x.2 s') s l.

Definition total_passes (k : string) (l : list (string * list Finding)) : Z :=
  foldr (λ x acc, if decide (x.1 = k) then passes x.2 + acc else acc) 0 l.

Definition total_fails (k : string) (l : list (string * list Finding)) : Z :=
  foldr (λ x acc, if decide (x.1 = k) then fails x.2 + acc else acc) 0 l.

(** [<html lang="en"><body><noscript><img alt="logo"></noscript></body></html>] *)
Definition noscript_page : Node :=
  Tag "[document]" ∅
    [Tag "html" {[ "lang" := "en" ]}
       [Tag "body" ∅
          [Tag "noscript" ∅ [Tag "img" {[ "alt" := "logo" ]} []]]]].

(** A fragment without an [html] element: [<img alt="logo">] *)
Definition bare_image_page : Node :=
  Tag "[document]" ∅ [Tag "img" {[ "alt" := "logo" ]} []].

(** A check that records the findings [x.2.2] in the category [x.2.1]
    when the page is [pg]. *)
Definition records_on (pg : Node) (x : M unit * (string * list Finding)) : Prop :=
  ∀ s, page s = Some pg → has_category x.2.1 s → x.1 s = Done tt (tally x.2.1 x.2.2 s).

(** ** Observing the crawl *)

(** The line [test_page] prints at the head of a page begins with two
    newlines; no line of a check does. *)
Definition is_page_header (l : list PyVal) : bool :=
  match l with
  | [VStr h] => String.prefix (String "010" (String "010" "")) h
  | _ => false
  end.

(** The configuration is kept, and the console has grown by lines that
    satisfy [P]. *)
Definition appends (P : Config → list PyVal → Prop) (s s' : State) : Prop :=
  config s' = config s ∧
  ∃ new, stdout s' = stdout s ++ new ∧ Forall (P (config s)) new.

(** The configuration and the console are as before. *)
Definition silent (s s' : State) : Prop :=
  config s' = config s ∧ stdout s' = stdout s.

Definition no_header (_ : Config) (l : list PyVal) : Prop := is_page_header l = false.

(** [driver.current_url], when there is a driver and a current window. *)
Definition current_page_url (s : State) : option string :=
  match driver s with
  | Some drv => current_url <$> current_document drv
  | None => None
  end.

(** The relation of a computation at one state. *)
Definition preserves_at {A} (R : State → State → Prop) (m : M A) (s : State) : Prop :=
  match m s with
  | Done _ s' | Raised _ s' => R s s'
  | OutOfFuel => True
  end.

(** A page header is one of a page whose URL contains the host name of
    the configured URL. *)
Definition header_within (hostname : string → option string) (c : Config)
    (l : list PyVal) : Prop :=
  is_page_header l = true →
  ∃ u, l = page_header u ∧ ∃ h, hostname (url c) = Some h ∧ Py.contains u h = true.

(** The same, or the header of the page the crawl starts on. *)
Definition header_of_start_or_within (hostname : string → option string)
    (start : option string) (c : Config) (l : list PyVal) : Prop :=
  is_page_header l = true →
  ∃ u, l = page_header u ∧
       (start = Some u ∨ ∃ h, hostname (url c) = Some h ∧ Py.contains u h = true).

(** ** A sample web *)

Definition origin_url : string := "http://a.test/".
Definition other_url : string := "http://a.test/b".
Definition foreign_url : string := "http://evil.example/".

(** [<html lang="en"><body><a href=target><img alt="go"></a></body></html>] *)
Definition link_page (target : string) : Node :=
  Tag "[document]" ∅
    [Tag "html" {[ "lang" := "en" ]}
       [Tag "body" ∅
          [Tag "a" {[ "href" := target ]} [Tag "img" {[ "alt" := "go" ]} []]]]].

(** A page at [here] whose only link, shown, goes to [target]. *)
Definition link_doc (here target : string) : Document :=
  {| current_url := here;
     page_source := link_page target;
     anchors := [{| is_displayed := true; href := Some target |}];
     find_element := λ _, None |}.

(** The origin page links to a page of another host. *)
Definition foreign_web (u : string) : option Document :=
  if bool_decide (u = origin_url) then Some (link_doc origin_url foreign_url)
  else if bool_decide (u = foreign_url) then Some (link_doc foreign_url origin_url)
  else None.

(** A page that links to itself. *)
Definition self_web (u : string) : option Document :=
  if bool_decide (u = origin_url) then Some (link_doc origin_url origin_url) else None.

(** Two pages of one host that link to each other. *)
Definition cycle_web (u : string) : option Document :=
  if bool_decide (u = origin_url) then Some (link_doc origin_url other_url)
  else if bool_decide (u = other_url) then Some (link_doc other_url origin_url)
  else None.



(** [urljoin] on links that are absolute already. *)
Definition sample_urljoin (base : string) (link : option string) : string :=
  match link with
  | Some l => if bool_decide (l = "") then base else l
  | None => base
  end.

(** [urlparse(u).hostname] on the URLs of the samples. *)
Definition sample_hostname (u : string) : option string :=
  if String.prefix "http://a.test/" u then Some "a.test"
  else if String.prefix "http://evil.example/" u then Some "evil.example"
  else None.

(** The tester once [start_driver] has loaded [home] in the first window. *)
Definition started_on (home : Document) : State :=
  set_page (Some (page_source home))
    (set_driver (Some {| window_handles := [home]; current_window_handle := 0 |})
       (fresh_tester true)).

(** ** The crawl on a small web *)

(** The outcome of the colour check in a given document. *)
Definition contrast_outcome_in (doc : Document) (pg : Node) : list Finding * option Exn :=
  let extracted := extract_texts pg in
  judge_until_raise
    (contrast_judgement_in doc extracted.1
       <$> (extracted.2 ++ find_all (soup extracted.1) "input")).

(** The six checks raise nothing on the document: it has an [html]
    element, and the colour check finds the style of every candidate and
    digits in every font size given in px. *)
Definition checks_pass (doc : Document) : Prop :=
  is_Some (find (soup (page_source doc)) "html") ∧
  (contrast_outcome_in doc (page_source doc)).2 = None.

(** The findings of the six checks on a document, category by category,
    in the order of [test_page]. *)
Definition page_findings (doc : Document) : list (string * list Finding) :=
  match find (soup (page_source doc)) "html" with
  | Some html => snapshot_findings (page_source doc) html
  | None => []
  end
  ++ [("color_contrast", (contrast_outcome_in doc (page_source doc)).1)].

(** The link is shown and leads, with a non-empty [href], to [target]
    once joined with [base]. *)
Definition links_to (urljoin : string → option string → string) (base target : string)
    (a : Anchor) : bool :=
  is_displayed a
  && match href a with
     | Some h => negb (bool_decide (h = "")) && bool_decide (urljoin base (Some h) = target)
     | None => false
     end.

(** What matters of the state during the crawl. *)
Definition shape (cfg : Config) (drv : Driver) (visited : list string)
    (out : list (list PyVal)) (s : State) : Prop :=
  config s = cfg ∧ driver s = Some drv ∧ visited_links s = visited ∧ stdout s = out ∧
  Forall (λ k, has_category k s) categories.

(** The header lines among the lines printed. *)
Definition headers (out : list (list PyVal)) : list (list PyVal) :=
  filter (λ l, is_page_header l = true) out.

(** The [WebElement]s that [find_elements] yields in window [w]. *)
Definition elements_in (w : nat) (l : list Anchor) : list WebElement :=
  (λ a, {| el_window := w; el_anchor := a |}) <$> l.

(** The test that makes [visit_link] pass over a link, [base] being the
    configured URL. *)
Definition passed_over (urljoin : string → option string → string) (base : string)
    (a : Anchor) (current : string) (visited : list string) : bool :=
  negb (is_displayed a) || bool_decide (href a = Some "") || bool_decide (href a = None)
  || bool_decide (urljoin base (href a) = current) || Py.in_list (urljoin base (href a)) visited.

(** The configuration of a crawl from [origin]: links are followed, no
    screenshots are taken, and the six counters are in place. *)
Definition crawling (origin : string) (s : State) : Prop :=
  url (config s) = origin ∧ follow (config s) = true ∧ screenshots (config s) = false ∧
  Forall (λ k, has_category k s) categories.

(** ** Termination of the crawl *)

(** The computation does not run out of fuel, whatever the state. *)
Definition total {A} (m : M A) : Prop := ∀ s, m s ≠ OutOfFuel.

Definition same_visited (s s' : State) : Prop := visited_links s' = visited_links s.

Definition visited_grows (s s' : State) : Prop :=
  ∀ u, u ∈ visited_links s → u ∈ visited_links s'.

(** How many URLs of [universe], counted with repetition, are not visited
    yet. *)
Definition remaining (universe visited : list string) : nat :=
  length (filter (λ u, u ∉ visited) universe).

(** ** No page is tested twice *)

(** The console has grown by lines that are not page headers, and the
    configuration and the visited list are as before. *)
Definition checked (s s' : State) : Prop := appends no_header s s' ∧ same_visited s s'.

(** Every page whose header is on the console is in [visited_links]. *)
Definition tested_are_visited (s : State) : Prop :=
  ∀ v, page_header v ∈ stdout s → v ∈ visited_links s.

(** The invariant of a crawl that follows links. *)
Definition crawl_invariant (s : State) : Prop :=
  follow (config s) = true ∧ tested_are_visited s ∧ NoDup (headers (stdout s)).

(** The invariant while the page at [u] is being tested: its header is on
    the console already, and [u] joins [visited_links] only after the
    checks. *)
Definition testing (u : string) (s : State) : Prop :=
  follow (config s) = true ∧ (u ∉ visited_links s) ∧ NoDup (headers (stdout s)) ∧
  ∀ v, page_header v ∈ stdout s → (v = u ∨ v ∈ visited_links s).

(** What the crawl ensures: the invariant when it returns, and in any
    case no header printed twice. *)
Definition ensures_once {A} (r : Result A) : Prop :=
  match r with
  | Done _ s' => crawl_invariant s'
  | Raised _ s' => NoDup (headers (stdout s'))
  | OutOfFuel => True
  end.

(** The inner loops of [descendants], [extract_all] and [extract_first],
    by name. *)
Definition descendants_children (here : Ref) : nat → list Node → list Element :=
  fix children (i : nat) (l : list Node) {struct l} : list Element :=
    match l with
    | [] => []
    | c :: l' => (i :: here, c) :: descendants (i :: here) c ++ children (S i) l'
    end.

(** Following child indices from [par] downwards, outermost first. *)
Fixpoint walk (par : Node) (path : list nat) : option Node :=
  match path with
  | [] => Some par
  | i :: rest =>
      match node_contents par !! i with
      | Some c => walk c rest
      | None => None
      end
  end.

(** The character [c] does not occur in [s]. *)
Fixpoint free_of (c : ascii) (s : string) : bool :=
  match s with
  | EmptyString => true
  | String x s' => negb (Ascii.eqb x c) && free_of c s'
  end.

(** A tag name that [xpath_soup] can put in a path without ambiguity: it
    holds neither a slash nor an opening bracket. *)
Definition plain_name (nm : string) : bool := free_of "/" nm && free_of "[" nm.

(** Every tag below the root has such a name. *)
Definition plain_names (pg : Node) : bool :=
  forallb (λ e, match node_name e.2 with Some nm => plain_name nm | None => true end)
          (descendants [] pg).

Definition extract_all_children (P : Node → bool) : list Node → list Node :=
  fix children (l : list Node) {struct l} : list Node :=
    match l with
    | [] => []
    | c :: l' => if P c then children l' else extract_all P c :: children l'
    end.

Definition extract_first_children (P : Node → bool) : list Node → option (list Node) :=
  fix children (l : list Node) {struct l} : option (list Node) :=
    match l with
    | [] => None
    | c :: l' =>
        if P c then Some l'
        else match extract_first P c with
             | Some c' => Some (c' :: l')
             | None =>
                 match children l' with
                 | Some l'' => Some (c :: l'')
                 | None => None
                 end
             end
    end.

(** No node below [n] satisfies [P]. *)
Definition free_from (P : Node → bool) (n : Node) : Prop :=
  Forall (λ e, P e.2 = false) (descendants [] n).

(** [P] looks at the kind of a node, its name and its attributes, not at
    what it contains. *)
Definition shallow (P : Node → bool) : Prop :=
  ∀ nm a cs cs', P (Tag nm a cs) = P (Tag nm a cs').

(** [not text.strip() == "" and not text == "\n"]. *)
Definition shown_text (text : Node) : bool :=
  negb (Py.strip_is_empty (node_text text))
  && negb (bool_decide (node_text text = String "010" "")).

(** [<html lang="en"><body><p>&nbsp;</p><p>Hi</p></body></html>]: the
    first paragraph holds the one character U+00A0. *)
Definition nbsp_page : Node :=
  Tag "[document]" ∅
    [Tag "html" {[ "lang" := "en" ]}
       [Tag "body" ∅
          [Tag "p" ∅ [NavigableString (String "194" (String "160" ""))];
           Tag "p" ∅ [NavigableString "Hi"]]]].

(** How many elements of [l] satisfy [P]. *)
Definition count {A} (P : A → bool) (l : list A) : Z :=
  Z.of_nat (length (filter (λ x, P x = true) l)).

Definition black : Rgba := {| red := 0; green := 0; blue := 0; alpha := 1 |}.

(** Every character of [s] is a decimal digit. *)
Fixpoint all_digits (s : string) : bool :=
  match s with
  | EmptyString => true
  | String c s' => Py.isdigit c && all_digits s'
  end.

(** What the checks have no business with: the configuration, the
    browser session, the visited list and the screenshots. *)
Definition steady (s s' : State) : Prop :=
  config s' = config s ∧ driver s' = driver s ∧ visited_links s' = visited_links s ∧
  screenshot_files s' = screenshot_files s.

(** [visited_links] has only been appended to. *)
Definition visited_extends (s s' : State) : Prop :=
  ∃ new, visited_links s' = visited_links s ++ new.

(** The configuration is kept, and with screenshots switched off no
    screenshot has been taken. *)
Definition no_shots (s s' : State) : Prop :=
  config s' = config s ∧
  (screenshots (config s) = false → screenshot_files s' = screenshot_files s).

(** The configuration, the browser session and the visited list are as
    before. *)
Definition anchored (s s' : State) : Prop :=
  config s' = config s ∧ driver s' = driver s ∧ visited_links s' = visited_links s.

(** The same keys, and no counter is smaller. *)
Definition counters_le (d d' : gmap string Z) : Prop :=
  ∀ k, match d !! k, d' !! k with
       | Some v, Some v' => v <= v'
       | None, None => True
       | _, _ => False
       end.

Definition counters_grow (s s' : State) : Prop :=
  counters_le (correct s) (correct s') ∧ counters_le (wrong s) (wrong s').

(** No counter is negative. *)
Definition counters_nonneg (s : State) : Prop :=
  (∀ k v, correct s !! k = Some v → 0 <= v) ∧ (∀ k v, wrong s !! k = Some v → 0 <= v).

(** How many findings of a category have been counted. *)
Definition judged (k : string) (s : State) : Z :=
  default 0 (correct s !! k) + default 0 (wrong s !! k).

(** The exceptions of [eval] on a colour text. *)
Definition eval_exception (e : Exn) : Prop :=
  e = SyntaxError ∨ ∃ name, e = NameError name.

(** Only exceptions that satisfy [P] are raised. *)
Definition raises_only {A} (P : Exn → Prop) (m : M A) : Prop :=
  ∀ s, match m s with Raised e _ => P e | _ => True end.

(** The exceptions of Python and of the libraries, as opposed to those
    the module raises itself with [raise Exception(...)]. *)
Definition library_exception (e : Exn) : Prop :=
  e ≠ ZeroDivisionError ∧ ∀ msg, e ≠ Exception msg.

(** ** [main]

    [str.lower] on the letters of ASCII.  Python's own differs on
    characters outside ASCII only, and a name that holds such a character
    is none of the five driver names either way. *)
Definition lower_char (c : ascii) : ascii :=
  let n := nat_of_ascii c in
  if (65 <=? n)%nat && (n <=? 90)%nat then ascii_of_nat (n + 32) else c.

Fixpoint str_lower (s : string) : string :=
  match s with
  | EmptyString => EmptyString
  | String c s' => String (lower_char c) (str_lower s')
  end.

(** The names [start_driver] and [main] accept. *)
Definition driver_names : list string := ["chrome"; "firefox"; "edge"; "opera"; "safari"].

Module Cli.

(** What [parser.parse_args()] returns. *)
Record Namespace := {
  webpage : string;
  level : Q;
  driver : string;
  headless : bool;
  screenshots : bool;
  height : Z;
  width : Z;
  follow : bool }.

End Cli.

Section Main.

(** [validators.url]. *)
Variable validators_url : string → bool.

(** [main], once the arguments are parsed.  The module [main.py] imports
    [argparse] and [validators] and binds nothing else but [main], so the
    name [AccessibilityTester] that the line after the three validations
    looks up is not defined: that line raises [NameError], and the calls
    that follow it in the file are not reached. *)
Definition main (argument : Cli.Namespace) : Exn + unit :=
  let url := Cli.webpage argument in
  let required_degree := Cli.level argument in
  let driver := str_lower (Cli.driver argument) in
  let run_headless := Cli.headless argument in
  let take_screenshots := Cli.screenshots argument in
  let browser_height := Cli.height argument in
  let browser_width := Cli.width argument in
  let should_follow := Cli.follow argument in
  if negb (validators_url url) then inl (Exception "Invalid URL")
  else if negb (Qle_bool 0 required_degree && Qle_bool required_degree 1) then
    inl (Exception "Accessibility level must be between 0 and 1")
  else if negb (Py.in_list driver driver_names) then
    inl (Exception "Webdriver must be one of: Chrome, Firefox, Edge, Opera, Safari")
  else inl (NameError "AccessibilityTester").

End Main.

(** A page at [origin_url] without links, text or inputs. *)
Definition lone_doc : Document :=
  {| current_url := origin_url; page_source := noscript_page; anchors := [];
     find_element := λ _, None |}.

(** A tester on [home] that does not follow links. *)
Definition started_without_follow (home : Document) : State :=
  set_page (Some (page_source home))
    (set_driver (Some {| window_handles := [home]; current_window_handle := 0 |})
       (fresh_tester false)).

(** The second window shows a page without links; the first window is
    the one before it. *)
Definition two_windows : State :=
  set_driver (Some {| window_handles := [link_doc origin_url origin_url; lone_doc];
                      current_window_handle := 1 |})
    (fresh_tester true).

(** With the six counters in place, the computation keeps them in place
    and raises no [KeyError]. *)
Definition keeps_keys {A} (m : M A) : Prop :=
  ∀ s, has_categories s →
       match m s with
       | Done _ s' => has_categories s'
       | Raised e s' => has_categories s' ∧ ∀ k, e ≠ KeyError k
       | OutOfFuel => True
       end.

(** The number of findings counted, correct and wrong together: the two
    totals that [calculate_result] adds up. *)
Definition findings_counted (s : State) : Z :=
  sum_values (correct s) + sum_values (wrong s).

(** With the six counters in place: they stay in place, and as many
    findings have been counted as lines have been printed. *)
Definition counted_with_lines (s s' : State) : Prop :=
  has_categories s →
  has_categories s' ∧
  findings_counted s' - Z.of_nat (length (stdout s'))
  = findings_counted s - Z.of_nat (length (stdout s)).

(** The visited list and the console have grown together: by the URLs
    [newv] and by lines whose page headers are those of [newv], in the
    same order. *)
Definition log_extends (s s' : State) : Prop :=
  config s' = config s ∧
  ∃ newv newo, visited_links s' = visited_links s ++ newv ∧
               stdout s' = stdout s ++ newo ∧
               headers newo = page_header <$> newv.

(** When links are followed and the computation returns, the visited
    list and the console have grown together. *)
Definition logs {A} (m : M A) : Prop :=
  ∀ s, follow (config s) = true →
       match m s with
       | Done _ s' => log_extends s s'
       | _ => True
       end.

(** * Properties *)

(** ** Colour mathematics *)

Section ColourMath.

Local Open Scope R_scope.

Lemma srgb_low (c : Z) : (c <= 10)%Z → IZR c / 255 <= 0.03928.
Proof. intros H. apply IZR_le in H. lra. Qed.

Lemma srgb_high (c : Z) : (11 <= c)%Z → ¬ IZR c / 255 <= 0.03928.
Proof. intros H. apply IZR_le in H. lra. Qed.

Lemma convert_low (c : Z) :
  IZR c / 255 <= 0.03928 → convert_rgb_8bit_value c = IZR c / 255 / 12.92.
Proof.
  intros H. unfold convert_rgb_8bit_value.
  destruct (Rle_dec _ _) as [_|n]; [reflexivity|]. by destruct n.
Qed.

Lemma convert_high (c : Z) :
  ¬ IZR c / 255 <= 0.03928 →
  convert_rgb_8bit_value c = Rpower ((IZR c / 255 + 0.055) / 1.055) 2.4.
Proof.
  intros H. unfold convert_rgb_8bit_value.
  destruct (Rle_dec _ _) as [l|_]; [by destruct H|reflexivity].
Qed.

(** The one place where the two pieces meet on 8-bit values: from 10 (the
    last value of the linear piece) to 11 (the first of the power piece).
    [x ^ 2.4] is compared through its fifth power, [x ^ 12]. *)
Lemma convert_step_10_11 : convert_rgb_8bit_value 10 <= convert_rgb_8bit_value 11.
Proof.
  rewrite convert_low, convert_high by (try apply srgb_low; try apply srgb_high; lia).
  set (a := (11 / 255 + 0.055) / 1.055).
  set (b := 10 / 255 / 12.92).
  assert (Ha : 0 < a) by (unfold a; lra).
  assert (Hb : 0 < b) by (unfold b; lra).
  destruct (Rle_dec b (Rpower a 2.4)) as [|n]; [assumption|].
  exfalso. apply Rnot_le_lt in n.
  assert (Hy : 0 < Rpower a 2.4) by (unfold Rpower; apply exp_pos).
  assert (H5 : Rpower a 2.4 ^ 5 <= b ^ 5) by (apply pow_incr; lra).
  rewrite <- (Rpower_pow 5 (Rpower a 2.4)) in H5 by assumption.
  rewrite Rpower_mult in H5.
  replace (2.4 * INR 5) with (INR 12) in H5 by (simpl; lra).
  rewrite Rpower_pow in H5 by assumption.
  assert (0.093 <= a) by (unfold a; lra).
  assert (b <= 0.00304) by (unfold b; lra).
  assert (0.093 ^ 12 <= a ^ 12) by (apply pow_incr; lra).
  assert (b ^ 5 <= 0.00304 ^ 5) by (apply pow_incr; lra).
  assert (0.00304 ^ 5 < 0.093 ^ 12) by lra.
  lra.
Qed.

Lemma convert_mono_low (c1 c2 : Z) :
  (c1 <= c2 <= 10)%Z → convert_rgb_8bit_value c1 <= convert_rgb_8bit_value c2.
Proof.
  intros [H1 H2]. rewrite !convert_low by (apply srgb_low; lia).
  apply IZR_le in H1. lra.
Qed.

Lemma convert_mono_high (c1 c2 : Z) :
  (11 <= c1 <= c2)%Z → convert_rgb_8bit_value c1 <= convert_rgb_8bit_value c2.
Proof.
  intros [H1 H2]. rewrite !convert_high by (apply srgb_high; lia).
  apply IZR_le in H1, H2. apply Rle_Rpower_l; lra.
Qed.

Lemma convert_mono (c1 c2 : Z) :
  (c1 <= c2)%Z → convert_rgb_8bit_value c1 <= convert_rgb_8bit_value c2.
Proof.
  intros H.
  destruct (Z_le_gt_dec c2 10); [apply convert_mono_low; lia|].
  destruct (Z_le_gt_dec 11 c1); [apply convert_mono_high; lia|].
  etransitivity; [apply (convert_mono_low c1 10); lia|].
  etransitivity; [apply convert_step_10_11|].
  apply convert_mono_high; lia.
Qed.

Lemma convert_nonneg (c : Z) : (0 <= c)%Z → 0 <= convert_rgb_8bit_value c.
Proof.
  intros H. unfold convert_rgb_8bit_value. apply IZR_le in H.
  destruct (Rle_dec _ _); [lra|]. left. unfold Rpower. apply exp_pos.
Qed.

Lemma luminance_nonneg (c : Rgba) : channels_in_range c → 0 <= luminance c.
Proof.
  intros (Hr & Hg & Hb). unfold luminance.
  pose proof (convert_nonneg (red c) (proj1 Hr)).
  pose proof (convert_nonneg (green c) (proj1 Hg)).
  pose proof (convert_nonneg (blue c) (proj1 Hb)). lra.
Qed.

(** C8.  [convert_rgb_8bit_value] maps 0 to 0 and 255 to 1, is
    non-decreasing over the 8-bit channel values, and is the piecewise
    sRGB transfer function split at [s = 0.03928], where [s] is the
    channel divided by 255: [s / 12.92] up to the split and
    [((s + 0.055) / 1.055) ^ 2.4] above it. *)
Theorem linearize_properties (c1 c2 : Z) (H : (0 <= c1 <= c2)%Z ∧ (c2 <= 255)%Z) :
  convert_rgb_8bit_value 0 = 0 ∧
  convert_rgb_8bit_value 255 = 1 ∧
  convert_rgb_8bit_value c1 <= convert_rgb_8bit_value c2 ∧
  (IZR c1 / 255 <= 0.03928 → convert_rgb_8bit_value c1 = IZR c1 / 255 / 12.92) ∧
  (IZR c1 / 255 > 0.03928 →
   convert_rgb_8bit_value c1 = Rpower ((IZR c1 / 255 + 0.055) / 1.055) 2.4).
Proof.
  repeat split.
  - rewrite convert_low by lra. lra.
  - rewrite convert_high by lra.
    replace ((255 / 255 + 0.055) / 1.055) with 1 by lra.
    unfold Rpower. rewrite ln_1, Rmult_0_r. apply exp_0.
  - apply convert_mono. lia.
  - apply convert_low.
  - intros Hgt. apply convert_high. lra.
Qed.

Lemma linearize_properties_witness :
  convert_rgb_8bit_value 10 <= convert_rgb_8bit_value 11.
Proof.
  assert (Hr : (0 <= 10 <= 11)%Z ∧ (11 <= 255)%Z) by lia.
  exact (proj1 (proj2 (proj2 (linearize_properties 10 11 Hr)))).
Defined.

Lemma contrast_ratio_sym (a b : Rgba) : get_contrast_ratio a b = get_contrast_ratio b a.
Proof.
  unfold get_contrast_ratio.
  destruct (Rgt_dec (luminance a) (luminance b)), (Rgt_dec (luminance b) (luminance a));
    try reflexivity; [lra|].
  assert (E : luminance a = luminance b) by lra. by rewrite E.
Qed.

(** C7.  For colours with 8-bit channels, [get_contrast_ratio] does not
    depend on the order of its two arguments, is 1 on twice the same
    colour, and is never below 1. *)
Theorem contrast_ratio_properties (a b : Rgba)
    (Ha : channels_in_range a) (Hb : channels_in_range b) :
  get_contrast_ratio a b = get_contrast_ratio b a ∧
  get_contrast_ratio a a = 1 ∧
  get_contrast_ratio a b >= 1.
Proof.
  pose proof (luminance_nonneg a Ha). pose proof (luminance_nonneg b Hb).
  split; [apply contrast_ratio_sym|]. split.
  - unfold get_contrast_ratio. destruct (Rgt_dec _ _); field; lra.
  - unfold get_contrast_ratio. destruct (Rgt_dec _ _).
    + apply Rle_ge. apply (Rmult_le_reg_r (luminance b + 0.05)); [lra|].
      replace ((luminance a + 0.05) / (luminance b + 0.05) * (luminance b + 0.05))
        with (luminance a + 0.05) by (field; lra). lra.
    + apply Rle_ge. apply (Rmult_le_reg_r (luminance a + 0.05)); [lra|].
      replace ((luminance b + 0.05) / (luminance a + 0.05) * (luminance a + 0.05))
        with (luminance b + 0.05) by (field; lra). lra.
Qed.

End ColourMath.

Lemma contrast_ratio_properties_witness :
  get_contrast_ratio {| red := 0; green := 0; blue := 0; alpha := 1 |} white =
  get_contrast_ratio white {| red := 0; green := 0; blue := 0; alpha := 1 |}.
Proof.
  refine (proj1 (contrast_ratio_properties
                   {| red := 0; green := 0; blue := 0; alpha := 1 |} white _ _));
    unfold channels_in_range; simpl; lia.
Defined.

(** ** The effective background *)

Lemma alpha_zero_not_positive (c : Rgba) :
  Qeq_bool (alpha c) 0 = true → negb (Qle_bool (alpha c) 0) = false.
Proof.
  intros H. apply Qeq_bool_iff in H. apply negb_false_iff, Qle_bool_iff.
  rewrite H. apply Qle_refl.
Qed.

Lemma alpha_nonzero_positive (c : Rgba) :
  (0 <= alpha c)%Q → Qeq_bool (alpha c) 0 = false → negb (Qle_bool (alpha c) 0) = true.
Proof.
  intros Hpos H. apply negb_true_iff. destruct (Qle_bool (alpha c) 0) eqn:E; [|reflexivity].
  apply Qle_bool_iff in E.
  assert (Hz : (alpha c == 0)%Q) by (by apply Qle_antisym).
  apply Qeq_bool_iff in Hz. congruence.
Qed.

Lemma background_of_read (doc : Document) (pg : Node) (text : Ref) (c : Rgba) :
  background_of doc pg text = Some c →
  ∃ st color, find_element doc (xpath_soup pg (Some text)) = Some st ∧
              convert_to_rgba_value (background_color st) = inr color ∧
              eval_tuple color = inr c.
Proof.
  unfold background_of, read_colour. intros H.
  destruct (find_element doc _) as [st|]; [|discriminate]. simpl in H.
  destruct (convert_to_rgba_value _) as [e|color] eqn:Ec; [discriminate|].
  destruct (eval_tuple color) as [e|tuple] eqn:E; [discriminate|].
  injection H as <-. by exists st, color.
Qed.

Lemma get_background_color_of_chain (doc : Document) (pg : Node) (text : Ref) :
  ∀ bgs : list Rgba,
    Forall2 (λ x c, background_of doc pg x = Some c ∧ (0 <= alpha c)%Q)
            (ancestor_chain text) bgs →
    get_background_color_of doc pg text = inr (resolve_effective_background bgs).
Proof.
  induction text as [|i text_parent IH]; intros bgs Hchain.
  - simpl in Hchain. inversion Hchain as [|x c l l' [Hbg Hpos] Hrest]; subst.
    inversion Hrest; subst.
    apply background_of_read in Hbg as (st & color & Hf & Hc & He).
    cbn [get_background_color_of]. rewrite Hf, Hc, He.
    unfold resolve_effective_background. simpl.
    destruct (Qeq_bool _ 0) eqn:E.
    + by rewrite alpha_zero_not_positive.
    + by rewrite alpha_nonzero_positive.
  - simpl in Hchain. inversion Hchain as [|x c l l' [Hbg Hpos] Hrest]; subst.
    specialize (IH _ Hrest).
    apply background_of_read in Hbg as (st & color & Hf & Hc & He).
    cbn [get_background_color_of]. rewrite Hf, Hc, He.
    unfold resolve_effective_background. simpl.
    destruct (Qeq_bool _ 0) eqn:E.
    + rewrite alpha_zero_not_positive by done. exact IH.
    + by rewrite alpha_nonzero_positive.
Qed.

(** C6.  Given the background colours [bgs] that the driver reports along
    the chain of an element (the element itself, then its ancestors,
    nearest first), each with a non-negative alpha, [get_background_color]
    answers the first of them whose alpha is above zero, and opaque white
    when there is none; for no element at all the chain is empty. *)
Theorem get_background_color_first_opaque (doc : Document) (pg : Node)
    (text : option Ref) (bgs : list Rgba)
    (Hchain : Forall2 (λ x c, background_of doc pg x = Some c ∧ (0 <= alpha c)%Q)
                      (from_option ancestor_chain [] text) bgs) :
  get_background_color doc pg text = inr (resolve_effective_background bgs).
Proof.
  destruct text as [r|]; simpl in *.
  - by apply get_background_color_of_chain.
  - by inversion Hchain.
Qed.

Lemma get_background_color_first_opaque_witness :
  get_background_color sample_doc sample_page (Some [0; 0; 0]%nat) =
  inr (resolve_effective_background
         [transparent; transparent;
          {| red := 240; green := 240; blue := 240; alpha := 1 |};
          {| red := 240; green := 240; blue := 240; alpha := 1 |}]).
Proof.
  apply get_background_color_first_opaque.
  repeat constructor; try (vm_compute; reflexivity); vm_compute; discriminate.
Defined.

(** ** The result *)

Lemma print_run (args : list PyVal) (s : State) :
  print args s = Done tt (set_stdout (stdout s ++ [args]) s).
Proof. reflexivity. Qed.

Lemma set_stdout_twice (o1 o2 : list (list PyVal)) (s : State) :
  set_stdout o2 (set_stdout o1 s) = set_stdout o2 s.
Proof. reflexivity. Qed.

Lemma print_items_lines (d : gmap string Z) (s : State) :
  print_items d s = Done tt (set_stdout (stdout s ++ items_lines d) s).
Proof.
  unfold print_items, items_lines. generalize categories as l. intros l. revert s.
  induction l as [|k l IH]; intros s.
  - simpl. unfold ret. rewrite app_nil_r. by destruct s.
  - simpl. unfold bind at 1. destruct (d !! k) as [v|]; simpl.
    + rewrite IH. simpl. by rewrite <- app_assoc.
    + apply IH.
Qed.

Lemma calculate_result_nothing (s : State) :
  sum_values (correct s) = 0 → sum_values (wrong s) = 0 →
  calculate_result s = Done tt (set_stdout (stdout s ++ [[VStr "Nothing found"]]) s).
Proof.
  intros Hc Hw. unfold calculate_result, bind, gets. by rewrite Hc, Hw.
Qed.

Lemma bind_done {A B} (m : M A) (f : A → M B) (s s' : State) (a : A) :
  m s = Done a s' → bind m f s = f a s'.
Proof. intros H. unfold bind. by rewrite H. Qed.

Lemma calculate_result_ratio (s : State) :
  sum_values (correct s) + sum_values (wrong s) ≠ 0 →
  calculate_result s =
    if Qle_bool (required_degree (config s)) (ratio_of s) then
      Done tt (set_stdout (stdout s ++ report_lines s
                           ++ [ratio_line s; [VStr "Accessibility test successful - can deploy"]]) s)
    else
      Raised (Exception "Too many accessibility errors - try fix them!")
             (set_stdout (stdout s ++ report_lines s ++ [ratio_line s]) s).
Proof.
  intros Hne. unfold calculate_result.
  rewrite (bind_done _ _ s s (sum_values (correct s))) by reflexivity.
  rewrite (bind_done _ _ s s (sum_values (wrong s))) by reflexivity.
  destruct ((sum_values (correct s) =? 0) && (sum_values (wrong s) =? 0)) eqn:E.
  { apply andb_true_iff in E as [E1 E2]. apply Z.eqb_eq in E1, E2. lia. }
  apply Z.eqb_neq in Hne. rewrite Hne.
  erewrite bind_done by apply print_run.
  erewrite bind_done by apply print_run.
  erewrite bind_done by apply print_run.
  erewrite bind_done; [|erewrite bind_done by reflexivity; apply print_items_lines].
  erewrite bind_done by apply print_run.
  erewrite bind_done; [|erewrite bind_done by reflexivity; apply print_items_lines].
  erewrite bind_done by apply print_run.
  erewrite bind_done by reflexivity.
  change (required_degree (config (set_stdout _ _))) with (required_degree (config s)).
  fold (ratio_of s).
  destruct (Qle_bool _ _).
  - rewrite print_run. simpl. rewrite !set_stdout_twice. do 2 f_equal.
    unfold report_lines, ratio_line. rewrite <- !app_assoc. reflexivity.
  - unfold raise. simpl. rewrite !set_stdout_twice. do 2 f_equal.
    unfold report_lines, ratio_line. rewrite <- !app_assoc. reflexivity.
Qed.

(** C4, as the code has it.  With non-negative totals: when their sum is
    zero, [calculate_result] prints ["Nothing found"] and returns, no
    division taking place; otherwise it prints the report and the ratio
    [correct / (correct + wrong)], and returns normally after the success
    line exactly when the ratio reaches [required_degree]; below it, the
    method ends by raising [Exception("Too many accessibility errors - try
    fix them!")]. *)
Theorem calculate_result_outcomes (s : State)
    (Hc : 0 <= sum_values (correct s)) (Hw : 0 <= sum_values (wrong s)) :
  (sum_values (correct s) + sum_values (wrong s) = 0 →
   calculate_result s = Done tt (set_stdout (stdout s ++ [[VStr "Nothing found"]]) s)) ∧
  (sum_values (correct s) + sum_values (wrong s) ≠ 0 →
   ((required_degree (config s) <= ratio_of s)%Q →
    calculate_result s =
      Done tt (set_stdout (stdout s ++ report_lines s
                 ++ [ratio_line s; [VStr "Accessibility test successful - can deploy"]]) s)) ∧
   (¬ (required_degree (config s) <= ratio_of s)%Q →
    calculate_result s =
      Raised (Exception "Too many accessibility errors - try fix them!")
             (set_stdout (stdout s ++ report_lines s ++ [ratio_line s]) s))).
Proof.
  split.
  - intros H0. apply calculate_result_nothing; lia.
  - intros Hne. rewrite calculate_result_ratio by done.
    destruct (Qle_bool _ _) eqn:E; split; intros H; try reflexivity.
    + apply Qle_bool_iff in E. contradiction.
    + apply Qle_bool_iff in H. congruence.
Qed.

Lemma calculate_result_outcomes_witness :
  calculate_result one_error_state =
    Raised (Exception "Too many accessibility errors - try fix them!")
           (set_stdout (stdout one_error_state ++ report_lines one_error_state
                        ++ [ratio_line one_error_state]) one_error_state).
Proof.
  assert (Hc : 0 <= sum_values (correct one_error_state)) by (vm_compute; discriminate).
  assert (Hw : 0 <= sum_values (wrong one_error_state)) by (vm_compute; discriminate).
  refine (proj2 (proj2 (calculate_result_outcomes one_error_state Hc Hw) _) _).
  - vm_compute. discriminate.
  - vm_compute. intros H. apply H. reflexivity.
Defined.

(** C4, the part that fails: a ratio below the required degree is not
    returned as a value.  With no correct finding, one wrong one and the
    required degree 1, the ratio is 0 and the method raises. *)
Lemma calculate_result_raises_below_threshold :
  sum_values (correct one_error_state) = 0 ∧
  sum_values (wrong one_error_state) = 1 ∧
  (ratio_of one_error_state < required_degree (config one_error_state))%Q ∧
  ¬ (∃ s', calculate_result one_error_state = Done tt s') ∧
  ∃ s', calculate_result one_error_state =
          Raised (Exception "Too many accessibility errors - try fix them!") s'.
Proof.
  split; [by vm_compute|]. split; [by vm_compute|]. split; [by vm_compute|].
  split.
  - intros [s' H]. vm_compute in H. discriminate.
  - eexists. vm_compute. reflexivity.
Qed.

(** ** Recording findings *)

Lemma alter_add_0 (k : string) (m : gmap string Z) : alter (λ v, v + 0) k m = m.
Proof.
  apply map_eq. intros j. rewrite lookup_alter. case_decide; [|done].
  subst. destruct (m !! j); simpl; [f_equal; lia|done].
Qed.

Lemma insert_incr (k : string) (v : Z) (m : gmap string Z) :
  m !! k = Some v → <[k := v + 1]> m = alter (λ v, v + 1) k m.
Proof.
  intros H. apply map_eq. intros j. rewrite lookup_insert, lookup_alter.
  case_decide; [|done]. subst. by rewrite H.
Qed.

Lemma alter_add_add (k : string) (a b : Z) (m : gmap string Z) :
  alter (λ v, v + b) k (alter (λ v, v + a) k m) = alter (λ v, v + (a + b)) k m.
Proof.
  apply map_eq. intros j. destruct (decide (k = j)) as [->|Hne].
  - rewrite !lookup_alter_eq. destruct (m !! j); simpl; [apply (f_equal Some); lia|done].
  - by rewrite !lookup_alter_ne.
Qed.

Lemma passes_app (fs1 fs2 : list Finding) : passes (fs1 ++ fs2) = passes fs1 + passes fs2.
Proof. unfold passes. by rewrite filter_app, length_app, Nat2Z.inj_add. Qed.

Lemma fails_app (fs1 fs2 : list Finding) : fails (fs1 ++ fs2) = fails fs1 + fails fs2.
Proof. unfold fails. by rewrite filter_app, length_app, Nat2Z.inj_add. Qed.

Lemma tally_nil (cat : string) (s : State) : tally cat [] s = s.
Proof.
  unfold tally. change (passes []) with 0. change (fails []) with 0.
  rewrite !alter_add_0. simpl. rewrite app_nil_r. by destruct s.
Qed.

Lemma tally_app (cat : string) (fs1 fs2 : list Finding) (s : State) :
  tally cat fs2 (tally cat fs1 s) = tally cat (fs1 ++ fs2) s.
Proof.
  unfold tally. simpl. rewrite !alter_add_add, passes_app, fails_app.
  by rewrite fmap_app, app_assoc.
Qed.

Lemma tally_has_category (cat cat' : string) (fs : list Finding) (s : State) :
  has_category cat' s → has_category cat' (tally cat fs s).
Proof.
  intros [[c Hc] [w Hw]]. unfold has_category, tally. simpl.
  rewrite !lookup_alter. split; case_decide; subst; rewrite ?Hc, ?Hw; simpl; by eexists.
Qed.

Lemma record_finding_run (cat : string) (f : Finding) (s : State) :
  has_category cat s → record_finding cat f s = Done tt (tally cat [f] s).
Proof.
  intros [[c Hc] [w Hw]]. unfold record_finding, bind. rewrite print_run.
  destruct f as [[] ln]; simpl.
  - unfold incr_correct. simpl. rewrite Hc. f_equal. unfold tally, set_correct. simpl.
    f_equal.
    + rewrite (insert_incr _ _ _ Hc). done.
    + change (fails [(true, ln)]) with 0. by rewrite alter_add_0.
  - unfold incr_wrong. simpl. rewrite Hw. f_equal. unfold tally, set_wrong. simpl.
    f_equal.
    + change (passes [(false, ln)]) with 0. by rewrite alter_add_0.
    + rewrite (insert_incr _ _ _ Hw). done.
Qed.

Lemma record_judgement_run (cat : string) (j : option Finding) (s : State) :
  has_category cat s → record_judgement cat j s = Done tt (tally cat (option_list j) s).
Proof.
  intros H. destruct j as [f|]; simpl.
  - by apply record_finding_run.
  - by rewrite tally_nil.
Qed.

Lemma for_each_ext {A} (l : list A) (f g : A → M unit) (s : State) :
  (∀ x s', f x s' = g x s') → for_each l f s = for_each l g s.
Proof.
  intros H. revert s. induction l as [|x l IH]; intros s; [done|].
  simpl. unfold bind. rewrite H. destruct (g x s); auto.
Qed.

Lemma for_each_record (cat : string) {A} (l : list A) (g : A → option Finding) (s : State) :
  has_category cat s →
  for_each l (λ x, record_judgement cat (g x)) s = Done tt (tally cat (omap g l) s).
Proof.
  revert s. induction l as [|x l IH]; intros s H.
  - simpl. by rewrite tally_nil.
  - simpl. unfold bind. rewrite record_judgement_run by done.
    rewrite IH by (by apply tally_has_category). rewrite tally_app.
    by destruct (g x).
Qed.

Lemma for_each_record_all (cat : string) {A} (l : list A) (g : A → Finding) (s : State) :
  has_category cat s →
  for_each l (λ x, record_finding cat (g x)) s = Done tt (tally cat (g <$> l) s).
Proof.
  intros H. rewrite (for_each_ext _ _ (λ x, record_judgement cat (Some (g x)))) by done.
  rewrite for_each_record by done.
  assert (omap (λ x, Some (g x)) l = g <$> l) as ->; [|done].
  induction l as [|x l IH]; csimpl; [done|by rewrite IH].
Qed.

(** ** The checks as lists of findings *)

Lemma get_page_run (s : State) (pg : Node) : page s = Some pg → get_page s = Done pg s.
Proof. intros H. unfold get_page, bind, gets, some_or. by rewrite H. Qed.

Lemma check_alt_text_finding (pg : Node) (e : Element) (s : State) :
  check_alt_text pg e s = record_finding "alt_texts" (alt_text_finding pg e) s.
Proof.
  unfold check_alt_text, alt_text_finding, get_attribute_list_0, record_finding, line_at.
  destruct (node_attrs e.2 !! "alt") as [a|]; [|done]. by case_bool_decide.
Qed.

Lemma check_button_input_finding (pg : Node) (e : Element) (s : State) :
  check_button_input pg e s = record_finding "empty_buttons" (button_input_finding pg e) s.
Proof.
  unfold check_button_input, button_input_finding, record_finding, button_line, line_at.
  by destruct (attr_set e.2 "value").
Qed.

Lemma check_button_finding (pg : Node) (e : Element) (s : State) :
  check_button pg e s = record_finding "empty_buttons" (button_finding pg e) s.
Proof.
  unfold check_button, button_finding, record_finding, button_line, line_at.
  fold (button_passes e). by destruct (button_passes e).
Qed.

Lemma check_link_finding (pg : Node) (e : Element) (s : State) :
  check_link pg e s = record_finding "empty_links" (link_finding pg e) s.
Proof.
  unfold check_link, link_finding, record_finding, line_at.
  fold (link_passes e). by destruct (link_passes e).
Qed.

Lemma label_correct_from (labels : list Element) (input_element : Node) (found : bool) :
  foldl (λ found label_element,
           match node_attrs label_element.2 !! "for", node_attrs input_element !! "id" with
           | Some f, Some i => if bool_decide (f = i) then true else found
           | _, _ => found
           end) found labels
  = found || has_label_for labels input_element.
Proof.
  revert found. induction labels as [|l labels IH]; intros found; simpl.
  - by rewrite orb_false_r.
  - rewrite IH. unfold has_label_for.
    destruct (node_attrs l.2 !! "for"), (node_attrs input_element !! "id"); simpl;
      try done.
    case_bool_decide; simpl; [by rewrite orb_true_r|done].
Qed.

Lemma label_correct_exists (labels : list Element) (input_element : Node) :
  label_correct labels input_element = has_label_for labels input_element.
Proof. unfold label_correct. by rewrite label_correct_from. Qed.

Lemma check_input_label_judgement (pg : Node) (labels : list Element) (e : Element) (s : State) :
  check_input_label pg labels e s
  = record_judgement "input_labels" (input_label_judgement pg labels e) s.
Proof.
  unfold check_input_label, input_label_judgement, labelling.
  destruct (needs_label e.2); [|done].
  destruct (attr_is e.2 "type" "image" && attr_set e.2 "alt"); [done|].
  destruct (attr_set e.2 "aria-label"); [done|].
  rewrite label_correct_exists. unfold attr_set.
  destruct (node_attrs e.2 !! "aria-labelledby") as [r|]; simpl.
  - case_bool_decide; simpl.
    + by destruct (has_label_for labels e.2).
    + destruct (find_id (soup pg) r) as [l|]; [|done].
      by destruct (find_all_text l).
  - by destruct (has_label_for labels e.2).
Qed.

Lemma check_alt_texts_run (s : State) (pg : Node) :
  page s = Some pg → has_category "alt_texts" s →
  check_alt_texts s
  = Done tt (tally "alt_texts" (alt_text_finding pg <$> find_all (soup pg) "img") s).
Proof.
  intros Hpg Hk. unfold check_alt_texts. rewrite (bind_done _ _ _ _ _ (get_page_run _ _ Hpg)).
  rewrite (for_each_ext _ _ _ _ (check_alt_text_finding pg)).
  by apply for_each_record_all.
Qed.

Lemma check_links_run (s : State) (pg : Node) :
  page s = Some pg → has_category "empty_links" s →
  check_links s
  = Done tt (tally "empty_links" (link_finding pg <$> find_all (soup pg) "a") s).
Proof.
  intros Hpg Hk. unfold check_links. rewrite (bind_done _ _ _ _ _ (get_page_run _ _ Hpg)).
  rewrite (for_each_ext _ _ _ _ (check_link_finding pg)).
  by apply for_each_record_all.
Qed.

Lemma check_input_labels_run (s : State) (pg : Node) :
  page s = Some pg → has_category "input_labels" s →
  check_input_labels s
  = Done tt (tally "input_labels"
               (omap (input_label_judgement pg (find_all (soup pg) "label"))
                     (find_all (soup pg) "input")) s).
Proof.
  intros Hpg Hk. unfold check_input_labels.
  rewrite (bind_done _ _ _ _ _ (get_page_run _ _ Hpg)).
  rewrite (for_each_ext _ _ _ _ (check_input_label_judgement pg _)).
  by apply for_each_record.
Qed.

Lemma check_buttons_run (s : State) (pg : Node) :
  page s = Some pg → has_category "empty_buttons" s →
  check_buttons s
  = Done tt (tally "empty_buttons"
               ((button_input_finding pg
                   <$> find_all_typed (soup pg) "input" ["submit"; "button"; "reset"])
                ++ (button_finding pg <$> find_all (soup pg) "button")) s).
Proof.
  intros Hpg Hk. unfold check_buttons.
  rewrite (bind_done _ _ _ _ _ (get_page_run _ _ Hpg)).
  erewrite bind_done.
  2:{ rewrite (for_each_ext _ _ _ _ (check_button_input_finding pg)).
      by apply for_each_record_all. }
  rewrite (for_each_ext _ _ _ _ (check_button_finding pg)).
  rewrite for_each_record_all by (by apply tally_has_category).
  by rewrite tally_app.
Qed.

Lemma check_doc_language_run (s : State) (pg : Node) (html : Element) :
  page s = Some pg → find (soup pg) "html" = Some html → has_category "doc_language" s →
  check_doc_language s = Done tt (tally "doc_language" [doc_language_finding html.2] s).
Proof.
  intros Hpg Hhtml Hk. unfold check_doc_language.
  rewrite (bind_done _ _ _ _ _ (get_page_run _ _ Hpg)).
  rewrite Hhtml. unfold some_or. rewrite (bind_done _ _ s s html) by done.
  rewrite <- record_finding_run by done.
  unfold doc_language_finding, record_finding, get_attribute_list_0.
  destruct (node_attrs html.2 !! "lang") as [l|]; [|done]. by case_bool_decide.
Qed.

Lemma attr_set_nonempty (n : Node) (k : string) : attr_set n k = true ↔ nonempty_attr n k.
Proof.
  unfold attr_set, nonempty_attr. destruct (node_attrs n !! k) as [v|].
  - rewrite negb_true_iff, bool_decide_eq_false. split.
    + intros H. by exists v.
    + by intros (v' & [= <-] & H).
  - split; [done|]. by intros (v' & ? & _).
Qed.

Lemma button_passes_iff (e : Element) :
  button_passes e = true ↔ find_all_text e ≠ [] ∨ nonempty_attr e.2 "title".
Proof.
  unfold button_passes.
  rewrite orb_true_iff, negb_true_iff, bool_decide_eq_false, attr_set_nonempty. done.
Qed.

(** C2, as the code has it.  [check_buttons] records one finding for
    every input of type submit, button or reset, a pass exactly when its
    [value] attribute is present and not empty (its title plays no part),
    and then one finding for every [button] element, a pass exactly when
    some string lies below it or its [title] attribute is present and not
    empty. *)
Theorem check_buttons_findings (s : State) (pg : Node)
    (Hpg : page s = Some pg) (Hk : has_category "empty_buttons" s) :
  ∃ for_inputs for_buttons : list Finding,
    check_buttons s = Done tt (tally "empty_buttons" (for_inputs ++ for_buttons) s) ∧
    Forall2 (λ e f, f.1 = true ↔ nonempty_attr e.2 "value")
            (find_all_typed (soup pg) "input" ["submit"; "button"; "reset"]) for_inputs ∧
    Forall2 (λ e f, f.1 = true ↔ find_all_text e ≠ [] ∨ nonempty_attr e.2 "title")
            (find_all (soup pg) "button") for_buttons.
Proof.
  eexists _, _. split; [by apply check_buttons_run|]. split.
  - apply Forall2_fmap_r, Forall_Forall2_diag, Forall_forall. intros e _. simpl.
    apply attr_set_nonempty.
  - apply Forall2_fmap_r, Forall_Forall2_diag, Forall_forall. intros e _. simpl.
    apply button_passes_iff.
Qed.

Lemma check_buttons_findings_witness :
  ∃ for_inputs for_buttons : list Finding,
    check_buttons (tester_on titled_submit_page)
    = Done tt (tally "empty_buttons" (for_inputs ++ for_buttons)
                 (tester_on titled_submit_page)) ∧
    Forall2 (λ e f, f.1 = true ↔ nonempty_attr e.2 "value")
            (find_all_typed (soup titled_submit_page) "input" ["submit"; "button"; "reset"])
            for_inputs ∧
    Forall2 (λ e f, f.1 = true ↔ find_all_text e ≠ [] ∨ nonempty_attr e.2 "title")
            (find_all (soup titled_submit_page) "button") for_buttons.
Proof.
  apply check_buttons_findings.
  - reflexivity.
  - split; vm_compute; by eexists.
Defined.

(** C2, the part that fails: a submit input with a title and no value.
    The claim counts the title and has it pass; the check records a
    fail. *)
Lemma check_buttons_input_title_ignored :
  ∃ e s',
    find_all_typed (soup titled_submit_page) "input" ["submit"; "button"; "reset"] = [e] ∧
    nonempty_attr e.2 "title" ∧
    check_buttons (tester_on titled_submit_page) = Done tt s' ∧
    correct s' !! "empty_buttons" = Some 0 ∧
    wrong s' !! "empty_buttons" = Some 1.
Proof.
  eexists _, _. split; [vm_compute; reflexivity|]. split.
  - exists "Send". split; [vm_compute; reflexivity|discriminate].
  - split; [vm_compute; reflexivity|]. split; vm_compute; reflexivity.
Qed.

Lemma has_label_for_iff (labels : list Element) (input_element : Node) :
  has_label_for labels input_element = true ↔
  ∃ l v, l ∈ labels ∧ node_attrs l.2 !! "for" = Some v ∧ node_attrs input_element !! "id" = Some v.
Proof.
  unfold has_label_for. rewrite existsb_exists. split.
  - intros (l & Hl & H). apply list_elem_of_In in Hl.
    destruct (node_attrs l.2 !! "for") as [f|] eqn:Hf; [|done].
    destruct (node_attrs input_element !! "id") as [i|] eqn:Hi; [|done].
    apply bool_decide_eq_true in H as ->. by exists l, i.
  - intros (l & v & Hl & Hf & Hi). exists l. split; [by apply list_elem_of_In|].
    rewrite Hf, Hi. by apply bool_decide_eq_true.
Qed.

Lemma needs_label_iff (e : Node) :
  needs_label e = true
  ↔ ∀ t, node_attrs e !! "type" = Some t → t ∉ ["hidden"; "submit"; "reset"; "button"].
Proof.
  unfold needs_label. destruct (node_attrs e !! "type") as [t|]; [|by split].
  rewrite !andb_true_iff, !negb_true_iff, !bool_decide_eq_false. split.
  - intros [[[H1 H2] H3] H4] t' [= <-]. rewrite !elem_of_cons, elem_of_nil. tauto.
  - intros H. specialize (H t eq_refl). rewrite !elem_of_cons, elem_of_nil in H. tauto.
Qed.

(** C5, as the code has it.  [check_input_labels] records one finding
    for every input that has no type or a type other than hidden, submit,
    reset and button, and none for the others.  The finding is that of
    the first labelling path that applies, in the order image with
    alternative text, [aria-label], [aria-labelledby], label element.  A
    non-empty [aria-labelledby] decides alone, whatever label elements
    there are: the input passes when the referenced element exists and
    has a string of any kind below it, and fails otherwise, with one
    reason when the element does not exist and another when it has no
    string below it. *)
Theorem check_input_labels_priority (s : State) (pg : Node)
    (Hpg : page s = Some pg) (Hk : has_category "input_labels" s) :
  check_input_labels s
  = Done tt (tally "input_labels"
               (omap (input_label_judgement pg (find_all (soup pg) "label"))
                     (find_all (soup pg) "input")) s) ∧
  labelling_reason ReferenceMissing ≠ labelling_reason ReferenceEmpty ∧
  (∀ e : Node,
     needs_label e = true
     ↔ ∀ t, node_attrs e !! "type" = Some t → t ∉ ["hidden"; "submit"; "reset"; "button"]) ∧
  (∀ labels e, needs_label e.2 = false → input_label_judgement pg labels e = None) ∧
  (∀ labels e,
     needs_label e.2 = true →
     attr_is e.2 "type" "image" && attr_set e.2 "alt" = true →
     input_label_judgement pg labels e
     = Some (true, line_at (labelling_reason ByImageAlt) pg e)) ∧
  (∀ labels e,
     needs_label e.2 = true →
     attr_is e.2 "type" "image" && attr_set e.2 "alt" = false →
     attr_set e.2 "aria-label" = true →
     input_label_judgement pg labels e
     = Some (true, line_at (labelling_reason ByAriaLabel) pg e)) ∧
  (∀ (labels : list Element) (e : Element) (reference : string),
     needs_label e.2 = true →
     attr_is e.2 "type" "image" && attr_set e.2 "alt" = false →
     attr_set e.2 "aria-label" = false →
     node_attrs e.2 !! "aria-labelledby" = Some reference → reference ≠ "" →
     input_label_judgement pg labels e
     = Some match find_id (soup pg) reference with
            | None => (false, line_at (labelling_reason ReferenceMissing) pg e)
            | Some label_element =>
                if bool_decide (find_all_text label_element = [])
                then (false, line_at (labelling_reason ReferenceEmpty) pg e)
                else (true, line_at (labelling_reason ByReference) pg e)
            end) ∧
  (∀ labels e,
     needs_label e.2 = true →
     attr_is e.2 "type" "image" && attr_set e.2 "alt" = false →
     attr_set e.2 "aria-label" = false →
     attr_set e.2 "aria-labelledby" = false →
     input_label_judgement pg labels e
     = Some (if has_label_for labels e.2
             then (true, line_at (labelling_reason ByLabelElement) pg e)
             else (false, line_at (labelling_reason NotLabelled) pg e))).
Proof.
  split; [by apply check_input_labels_run|]. split; [discriminate|].
  split; [apply needs_label_iff|].
  unfold input_label_judgement, labelling.
  split; [by intros labels e ->|].
  split; [by intros labels e -> ->|].
  split; [by intros labels e -> -> ->|].
  split.
  - intros labels e r -> -> -> -> Hne.
    rewrite bool_decide_eq_false_2 by done.
    destruct (find_id (soup pg) r) as [l|]; [|done].
    by case_bool_decide.
  - intros labels e -> -> -> Hc. unfold attr_set in Hc.
    destruct (node_attrs e.2 !! "aria-labelledby") as [r|].
    + apply negb_false_iff in Hc. rewrite Hc. by destruct (has_label_for labels e.2).
    + by destruct (has_label_for labels e.2).
Qed.

Lemma check_input_labels_priority_witness :
  check_input_labels (tester_on labelled_inputs_page)
  = Done tt (tally "input_labels"
               (omap (input_label_judgement labelled_inputs_page
                        (find_all (soup labelled_inputs_page) "label"))
                     (find_all (soup labelled_inputs_page) "input"))
               (tester_on labelled_inputs_page)).
Proof.
  refine (proj1 (check_input_labels_priority (tester_on labelled_inputs_page)
                   labelled_inputs_page _ _)).
  - reflexivity.
  - split; vm_compute; by eexists.
Defined.

(** C5, the part that fails.  First match wins, but a reference that
    leads nowhere is a match: the input whose [aria-labelledby] names no
    element fails although a label element is there for it.  And what the
    check asks of the referenced element is a string node, not text: a
    [span] that holds a comment and nothing else passes. *)
Lemma check_input_labels_reference_decides :
  (∃ e s',
     find_all (soup dangling_reference_page) "input" = [e] ∧
     has_label_for (find_all (soup dangling_reference_page) "label") e.2 = true ∧
     check_input_labels (tester_on dangling_reference_page) = Done tt s' ∧
     correct s' !! "input_labels" = Some 0 ∧
     wrong s' !! "input_labels" = Some 1 ∧
     last (stdout s')
     = Some [VStr "x Input labelled with aria-labelledby attribute, but related label does not exist";
             VStr "/html/body/input"]) ∧
  (∃ e label_element s',
     find_all (soup comment_reference_page) "input" = [e] ∧
     find_id (soup comment_reference_page) "x" = Some label_element ∧
     Forall (λ x, is_comment x.2 = true) (find_all_text label_element) ∧
     check_input_labels (tester_on comment_reference_page) = Done tt s' ∧
     correct s' !! "input_labels" = Some 1 ∧
     wrong s' !! "input_labels" = Some 0).
Proof.
  split.
  - eexists _, _. split; [vm_compute; reflexivity|]. split; [vm_compute; reflexivity|].
    split; [vm_compute; reflexivity|]. split; [vm_compute; reflexivity|].
    split; vm_compute; reflexivity.
  - eexists _, _, _. split; [vm_compute; reflexivity|]. split; [vm_compute; reflexivity|].
    split; [repeat constructor|].
    split; [vm_compute; reflexivity|]. split; vm_compute; reflexivity.
Qed.

(** The two inputs of the sample page: the first refers to an empty
    element, the second to no element (and a label element for it is not
    consulted). *)
Example labelled_inputs_findings :
  omap (input_label_judgement labelled_inputs_page
          (find_all (soup labelled_inputs_page) "label"))
       (find_all (soup labelled_inputs_page) "input")
  = [(false, [VStr (labelling_reason ReferenceEmpty); VStr "/html/body/input[1]"]);
     (false, [VStr (labelling_reason ReferenceMissing); VStr "/html/body/input[2]"])].
Proof. vm_compute. reflexivity. Qed.

(** ** Tallies only grow *)

Section Preservation.

Context {R : State → State → Prop} `{!PreOrder R}.

Lemma preserves_ret {A} (a : A) : preserves R (ret a).
Proof. intros s. simpl. reflexivity. Qed.

Lemma preserves_raise {A} (e : Exn) : preserves R (raise (A := A) e).
Proof. intros s. simpl. reflexivity. Qed.

Lemma preserves_gets {A} (f : State → A) : preserves R (gets f).
Proof. intros s. simpl. reflexivity. Qed.

Lemma preserves_bind {A B} (m : M A) (f : A → M B) :
  preserves R m → (∀ a, preserves R (f a)) → preserves R (bind m f).
Proof.
  intros Hm Hf s. unfold bind. specialize (Hm s). destruct (m s) as [a s'| |]; try done.
  specialize (Hf a s'). destruct (f a s'); try done; by etransitivity.
Qed.

Lemma preserves_some_or {A} (e : Exn) (o : option A) : preserves R (some_or e o).
Proof. destruct o; [apply preserves_ret|apply preserves_raise]. Qed.

Lemma preserves_lift {A} (r : Exn + A) : preserves R (lift r).
Proof. destruct r; [apply preserves_raise|apply preserves_ret]. Qed.

Lemma preserves_for_each {A} (l : list A) (body : A → M unit) :
  (∀ x, preserves R (body x)) → preserves R (for_each l body).
Proof.
  intros H. induction l as [|x l IH]; simpl.
  - apply preserves_ret.
  - apply preserves_bind; [apply H|by intros _].
Qed.

Lemma preserves_modify (f : State → State) : (∀ s, R s (f s)) → preserves R (modify f).
Proof. intros H s. apply H. Qed.

End Preservation.

Lemma preserves_weaken {A} (R R' : State → State → Prop) (m : M A) :
  (∀ s s', R s s' → R' s s') → preserves R m → preserves R' m.
Proof. intros H Hm s. specialize (Hm s). destruct (m s); auto. Qed.

#[local] Instance dict_le_preorder : PreOrder dict_le.
Proof.
  split.
  - intros d k v H. exists v. split; [done|lia].
  - intros d1 d2 d3 H12 H23 k v H. destruct (H12 k v H) as (v' & H' & ?).
    destruct (H23 k v' H') as (v'' & H'' & ?). exists v''. split; [done|lia].
Qed.

#[local] Instance tallies_grow_preorder : PreOrder tallies_grow.
Proof.
  split.
  - intros s. split; reflexivity.
  - intros s1 s2 s3 [? ?] [? ?]. split; by etransitivity.
Qed.

#[local] Instance same_tallies_preorder : PreOrder same_tallies.
Proof.
  split.
  - by intros s.
  - intros s1 s2 s3 [? ?] [? ?]. split; congruence.
Qed.

Lemma same_tallies_grow (s s' : State) : same_tallies s s' → tallies_grow s s'.
Proof. intros [Hc Hw]. split; rewrite ?Hc, ?Hw; reflexivity. Qed.

Lemma dict_le_incr (k : string) (v : Z) (d : gmap string Z) :
  d !! k = Some v → dict_le d (<[k := v + 1]> d).
Proof.
  intros H j w Hj. destruct (decide (k = j)) as [->|Hne].
  - rewrite lookup_insert_eq. exists (v + 1). split; [done|]. rewrite H in Hj.
    injection Hj as ->. lia.
  - rewrite lookup_insert_ne by done. exists w. split; [done|lia].
Qed.

Lemma judged_once_grow (cat : string) (s s' : State) :
  judged_once cat s s' → tallies_grow s s'.
Proof.
  intros [H|[(v & Hv & Hc & Hw)|(v & Hv & Hw & Hc)]].
  - by apply same_tallies_grow.
  - split; rewrite ?Hc, ?Hw; [by apply dict_le_incr|reflexivity].
  - split; rewrite ?Hc, ?Hw; [reflexivity|by apply dict_le_incr].
Qed.

Lemma judged_once_after_same {A} (cat : string) (m : M A) (f : A → M unit) :
  preserves same_tallies m → (∀ a, preserves (judged_once cat) (f a)) →
  preserves (judged_once cat) (bind m f).
Proof.
  intros Hm Hf s. unfold bind. specialize (Hm s). destruct (m s) as [a s'|e s'|].
  - specialize (Hf a s'). destruct Hm as [Hc Hw].
    destruct (f a s') as [? s''|? s''|]; try done; unfold judged_once, same_tallies in *;
      rewrite <- ?Hc, <- ?Hw; exact Hf.
  - by left.
  - done.
Qed.

Lemma print_same (args : list PyVal) : preserves same_tallies (print args).
Proof. by intros s. Qed.

Lemma record_finding_once (cat : string) (f : Finding) :
  preserves (judged_once cat) (record_finding cat f).
Proof.
  apply judged_once_after_same; [apply print_same|]. intros _ s.
  destruct f as [[] ln]; simpl.
  - unfold incr_correct. destruct (correct s !! cat) as [v|] eqn:E.
    + right. left. by exists v.
    + by left.
  - unfold incr_wrong. destruct (wrong s !! cat) as [v|] eqn:E.
    + right. right. by exists v.
    + by left.
Qed.

Lemma record_judgement_once (cat : string) (j : option Finding) :
  preserves (judged_once cat) (record_judgement cat j).
Proof. destruct j; [apply record_finding_once|by left]. Qed.

Lemma preserves_eq {A} (R : State → State → Prop) (m m' : M A) :
  (∀ s, m s = m' s) → preserves R m' → preserves R m.
Proof. intros H Hm s. rewrite H. apply Hm. Qed.

Create HintDb pres.

Ltac pres_step :=
  lazymatch goal with
  | |- preserves _ (ret _) => apply preserves_ret
  | |- preserves _ (raise _) => apply preserves_raise
  | |- preserves _ (gets _) => apply preserves_gets
  | |- preserves _ (some_or _ _) => apply preserves_some_or
  | |- preserves _ (lift _) => apply preserves_lift
  | |- preserves _ (print _) =>
      first [ apply print_same
            | apply (preserves_weaken same_tallies), print_same; solve [auto with pres]
            | solve [auto 4 with pres nocore] ]
  | |- preserves _ (modify _) =>
      first [ apply preserves_modify; intros ?; cbv beta; try apply same_tallies_grow; by split
            | solve [auto 4 with pres nocore] ]
  | |- preserves _ (for_each _ _) => apply preserves_for_each; intros ?
  | |- preserves _ (bind _ _) => apply preserves_bind; [|intros ?]
  | |- preserves _ (if ?b then _ else _) => destruct b
  | |- preserves _ _ => solve [auto 3 with pres nocore]
  end.

Ltac pres := repeat pres_step.

Lemma get_page_same : preserves same_tallies get_page.
Proof. unfold get_page. pres. Qed.

Lemma get_driver_same : preserves same_tallies get_driver.
Proof. unfold get_driver. pres. Qed.

Lemma once_grows {A} (cat : string) (m : M A) :
  preserves (judged_once cat) m → preserves tallies_grow m.
Proof. apply preserves_weaken. apply judged_once_grow. Qed.

Lemma same_grows {A} (m : M A) : preserves same_tallies m → preserves tallies_grow m.
Proof. apply preserves_weaken. apply same_tallies_grow. Qed.

#[local] Hint Resolve get_page_same get_driver_same : pres.
#[local] Hint Resolve same_grows same_tallies_grow : pres.

Lemma same_tallies_once {A} (cat : string) (m : M A) :
  preserves same_tallies m → preserves (judged_once cat) m.
Proof. apply preserves_weaken. intros s s' H. by left. Qed.

Lemma check_doc_language_once : preserves (judged_once "doc_language") check_doc_language.
Proof.
  unfold check_doc_language.
  apply judged_once_after_same; [apply get_page_same|]. intros pg.
  apply judged_once_after_same; [pres|]. intros html.
  destruct (get_attribute_list_0 html.2 "lang") as [l|].
  - destruct (negb (bool_decide (l = ""))).
    + apply (record_finding_once _ (true, _)).
    + apply (record_finding_once _ (false, _)).
  - apply (record_finding_once _ (false, _)).
Qed.

Lemma check_alt_text_once (pg : Node) (e : Element) :
  preserves (judged_once "alt_texts") (check_alt_text pg e).
Proof.
  eapply preserves_eq; [apply check_alt_text_finding|apply record_finding_once].
Qed.

Lemma check_input_label_once (pg : Node) (labels : list Element) (e : Element) :
  preserves (judged_once "input_labels") (check_input_label pg labels e).
Proof.
  eapply preserves_eq; [apply check_input_label_judgement|apply record_judgement_once].
Qed.

Lemma check_button_input_once (pg : Node) (e : Element) :
  preserves (judged_once "empty_buttons") (check_button_input pg e).
Proof.
  eapply preserves_eq; [apply check_button_input_finding|apply record_finding_once].
Qed.

Lemma check_button_once (pg : Node) (e : Element) :
  preserves (judged_once "empty_buttons") (check_button pg e).
Proof.
  eapply preserves_eq; [apply check_button_finding|apply record_finding_once].
Qed.

Lemma check_link_once (pg : Node) (e : Element) :
  preserves (judged_once "empty_links") (check_link pg e).
Proof.
  eapply preserves_eq; [apply check_link_finding|apply record_finding_once].
Qed.

Lemma report_contrast_once (ok : bool) (xp : string) (tc bg : Rgba) :
  preserves (judged_once "color_contrast") (report_contrast ok xp tc bg).
Proof.
  destruct ok.
  - apply (record_finding_once _ (true, _)).
  - apply (record_finding_once _ (false, _)).
Qed.

Lemma check_contrast_once (pg : Node) (e : Element) :
  preserves (judged_once "color_contrast") (check_contrast pg e).
Proof.
  unfold check_contrast.
  apply judged_once_after_same; [apply get_driver_same|]. intros drv.
  apply judged_once_after_same; [pres|]. intros doc.
  apply judged_once_after_same; [pres|]. intros sel.
  destruct (contrast_candidate _ _); [|by apply same_tallies_once; pres].
  apply judged_once_after_same; [pres|]. intros tc_text.
  apply judged_once_after_same; [pres|]. intros bg.
  apply judged_once_after_same; [pres|]. intros tc.
  apply judged_once_after_same; [pres|]. intros large.
  destruct large; apply report_contrast_once.
Qed.

Lemma check_alt_texts_grows : preserves tallies_grow check_alt_texts.
Proof.
  unfold check_alt_texts. pres.
  eapply once_grows, check_alt_text_once.
Qed.

Lemma check_input_labels_grows : preserves tallies_grow check_input_labels.
Proof.
  unfold check_input_labels. pres.
  eapply once_grows, check_input_label_once.
Qed.

Lemma check_buttons_grows : preserves tallies_grow check_buttons.
Proof.
  unfold check_buttons. pres.
  - eapply once_grows, check_button_input_once.
  - eapply once_grows, check_button_once.
Qed.

Lemma check_links_grows : preserves tallies_grow check_links.
Proof.
  unfold check_links. pres.
  eapply once_grows, check_link_once.
Qed.

Lemma check_color_contrast_grows : preserves tallies_grow check_color_contrast.
Proof.
  unfold check_color_contrast. pres.
  eapply once_grows, check_contrast_once.
Qed.

Lemma check_doc_language_grows : preserves tallies_grow check_doc_language.
Proof. eapply once_grows, check_doc_language_once. Qed.

Lemma get_document_same : preserves same_tallies get_document.
Proof. unfold get_document. pres. Qed.

#[local] Hint Resolve get_document_same : pres.

Lemma switch_to_window_at_same (i : Z) : preserves same_tallies (switch_to_window_at i).
Proof. unfold switch_to_window_at. pres. Qed.

#[local] Hint Resolve switch_to_window_at_same : pres.

Lemma switch_to_previous_window_same : preserves same_tallies switch_to_previous_window.
Proof. unfold switch_to_previous_window. pres. Qed.

Lemma window_open_same : preserves same_tallies window_open.
Proof. unfold window_open. pres. Qed.

Lemma find_anchors_same : preserves same_tallies find_anchors.
Proof. unfold find_anchors. pres. Qed.

Lemma element_read_same {A} (f : Anchor → A) (link : WebElement) :
  preserves same_tallies (element_read f link).
Proof. unfold element_read. pres. Qed.

Lemma print_items_same (d : gmap string Z) : preserves same_tallies (print_items d).
Proof. unfold print_items. pres. destruct (d !! x); pres. Qed.

Lemma driver_quit_same : preserves same_tallies driver_quit.
Proof. unfold driver_quit. pres. Qed.

#[local] Hint Resolve driver_quit_same : pres.

Lemma calculate_result_same : preserves same_tallies calculate_result.
Proof. unfold calculate_result. pres; apply print_items_same. Qed.

#[local] Hint Resolve switch_to_previous_window_same window_open_same find_anchors_same
  element_read_same calculate_result_same : pres.
#[local] Hint Resolve check_doc_language_grows check_alt_texts_grows check_input_labels_grows
  check_buttons_grows check_links_grows check_color_contrast_grows : pres.

Section CrawlGrowth.

Variable fetch : string → option Document.
Variable urljoin : string → option string → string.
Variable hostname : string → option string.

Lemma driver_get_same (target : string) : preserves same_tallies (driver_get fetch target).
Proof. unfold driver_get. pres. Qed.

Lemma take_screenshot_same : preserves same_tallies (take_screenshot hostname).
Proof. unfold take_screenshot. pres. Qed.

Lemma run_checks_grows : preserves tallies_grow run_checks.
Proof. unfold run_checks. pres. Qed.

Hint Resolve driver_get_same take_screenshot_same run_checks_grows : pres.

Lemma visit_link_grows (recurse : M unit) (link : WebElement) :
  preserves tallies_grow recurse →
  preserves tallies_grow (visit_link fetch urljoin hostname recurse link).
Proof. intros Hrec. unfold visit_link. pres. Qed.

Lemma test_page_grows (fuel : nat) :
  preserves tallies_grow (test_page fetch urljoin hostname fuel).
Proof.
  induction fuel as [|fuel IH]; [done|].
  simpl. pres. by apply visit_link_grows.
Qed.

Lemma start_driver_same : preserves same_tallies (start_driver fetch).
Proof. unfold start_driver. pres. Qed.

Hint Resolve test_page_grows start_driver_same : pres.

Lemma run_grows (fuel : nat) : preserves tallies_grow (run fetch urljoin hostname fuel).
Proof. unfold run. pres. Qed.

End CrawlGrowth.

(** C10.  Both dictionaries start with 0 for each of the six categories;
    every judgement of a check (the language of the page, an image, an
    input, a button, a link, a text) either counts nothing or adds exactly
    one to exactly one of the two counters of its category; and over
    [test_page], crawl included, and over the whole run, no counter ever
    goes down or disappears, whether the run ends normally or raises. *)
Theorem tallies_monotone :
  (∀ (url : string) (required_degree : Q) (chosen_driver : string)
     (headless screenshots : bool) (browser_height browser_width : Z) (follow : bool),
     Forall (λ k,
               correct (init url required_degree chosen_driver headless screenshots
                             browser_height browser_width follow) !! k = Some 0 ∧
               wrong (init url required_degree chosen_driver headless screenshots
                           browser_height browser_width follow) !! k = Some 0)
            categories) ∧
  preserves (judged_once "doc_language") check_doc_language ∧
  (∀ pg e, preserves (judged_once "alt_texts") (check_alt_text pg e)) ∧
  (∀ pg labels e, preserves (judged_once "input_labels") (check_input_label pg labels e)) ∧
  (∀ pg e, preserves (judged_once "empty_buttons") (check_button_input pg e)) ∧
  (∀ pg e, preserves (judged_once "empty_buttons") (check_button pg e)) ∧
  (∀ pg e, preserves (judged_once "empty_links") (check_link pg e)) ∧
  (∀ pg e, preserves (judged_once "color_contrast") (check_contrast pg e)) ∧
  (∀ fetch urljoin hostname fuel,
     preserves tallies_grow (test_page fetch urljoin hostname fuel)) ∧
  (∀ fetch urljoin hostname fuel,
     preserves tallies_grow (run fetch urljoin hostname fuel)).
Proof.
  split.
  { intros. unfold init, categories. simpl. repeat constructor. }
  split; [apply check_doc_language_once|].
  split; [apply check_alt_text_once|].
  split; [apply check_input_label_once|].
  split; [apply check_button_input_once|].
  split; [apply check_button_once|].
  split; [apply check_link_once|].
  split; [apply check_contrast_once|].
  split; [apply test_page_grows|apply run_grows].
Qed.

(** ** The colour check as findings *)

Lemma check_contrast_judgement (pg : Node) (text : Element) (s : State) :
  check_contrast pg text s
  = match contrast_judgement (driver s) pg text with
    | inl e => Raised e s
    | inr j => record_judgement "color_contrast" j s
    end.
Proof.
  unfold check_contrast, contrast_judgement, contrast_judgement_in, get_driver, bind, gets,
    some_or, lift, ret, raise.
  destruct (driver s) as [drv|]; [|done].
  destruct (current_document drv) as [doc|]; [|done].
  destruct (find_element doc _) as [sel|]; [|done].
  destruct (contrast_candidate _ _); [|done].
  destruct (convert_to_rgba_value _) as [e|tc_text]; [done|].
  destruct (get_background_color doc pg _) as [e|bg]; [done|].
  destruct (eval_tuple tc_text) as [e|tc]; [done|].
  destruct (large_text _ _ _) as [e|large]; [done|].
  destruct large; unfold report_contrast; by destruct (float_ge _ _).
Qed.

Lemma for_each_judge (cat : string) {A} (l : list A) (body : A → M unit)
    (g : A → Exn + option Finding) (session : option Driver) (s : State) :
  (∀ x s', driver s' = session →
           body x s' = match g x with
                       | inl e => Raised e s'
                       | inr j => record_judgement cat j s'
                       end) →
  driver s = session → has_category cat s →
  for_each l body s
  = finish (judge_until_raise (g <$> l)).2 (tally cat (judge_until_raise (g <$> l)).1 s).
Proof.
  intros Hbody. revert s. induction l as [|x l IH]; intros s Hd Hk.
  - simpl. by rewrite tally_nil.
  - simpl. unfold bind. rewrite Hbody by done. destruct (g x) as [e|j]; simpl.
    + by rewrite tally_nil.
    + rewrite record_judgement_run by done.
      rewrite IH by (done || by apply tally_has_category).
      by rewrite tally_app.
Qed.

Lemma check_color_contrast_run (s : State) (pg : Node) :
  page s = Some pg → has_category "color_contrast" s →
  check_color_contrast s
  = finish (contrast_outcome (driver s) pg).2
      (tally "color_contrast" (contrast_outcome (driver s) pg).1
         (set_page (Some (extract_texts pg).1) s)).
Proof.
  intros Hpg Hk. unfold check_color_contrast, contrast_outcome.
  rewrite (bind_done _ _ _ _ _ (get_page_run _ _ Hpg)).
  rewrite (bind_done _ _ s (set_page (Some (extract_texts pg).1) s) tt) by done.
  apply (for_each_judge _ _ _ _ (driver s)); [|done|done].
  intros x s' Hd. rewrite check_contrast_judgement. by rewrite Hd.
Qed.

(** ** The order of the checks *)

Lemma bind_ret_unit (m : M unit) (s : State) : bind m (λ _, ret tt) s = m s.
Proof. unfold bind, ret. by destruct (m s) as [[] ?| |]. Qed.

Lemma run_checks_in_order (s : State) : run_checks s = run_in_order all_checks s.
Proof.
  unfold run_checks, run_in_order, all_checks, snapshot_checks. simpl.
  unfold bind.
  repeat match goal with
         | |- context [match ?m s with _ => _ end] => destruct (m s) as [[] ?| |]; try done
         | |- context [match ?m ?s' with _ => _ end] => destruct (m s') as [[] ?| |]; try done
         end.
Qed.

Lemma tally_all_cons (x : string * list Finding) (l : list (string * list Finding)) (s : State) :
  tally_all (x :: l) s = tally_all l (tally x.1 x.2 s).
Proof. reflexivity. Qed.

Lemma tally_all_frame (l : list (string * list Finding)) (s : State) :
  page (tally_all l s) = page s ∧ driver (tally_all l s) = driver s.
Proof.
  revert s. induction l as [|x l IH]; intros s; [done|].
  rewrite tally_all_cons. destruct (IH (tally x.1 x.2 s)) as [-> ->]. done.
Qed.

Lemma tally_all_has_category (cat : string) (l : list (string * list Finding)) (s : State) :
  has_category cat s → has_category cat (tally_all l s).
Proof.
  revert s. induction l as [|x l IH]; intros s H; [done|].
  rewrite tally_all_cons. by apply IH, tally_has_category.
Qed.

Lemma tally_all_correct (k : string) (l : list (string * list Finding)) (s : State) :
  correct (tally_all l s) !! k = (λ v, v + total_passes k l) <$> correct s !! k.
Proof.
  revert s. induction l as [|x l IH]; intros s.
  - simpl. destruct (correct s !! k); simpl; [apply (f_equal Some); lia|done].
  - rewrite tally_all_cons, IH. simpl. case_decide as Hx.
    + rewrite Hx, lookup_alter_eq. destruct (correct s !! k); simpl; [|done].
      apply (f_equal Some). lia.
    + by rewrite lookup_alter_ne.
Qed.

Lemma tally_all_wrong (k : string) (l : list (string * list Finding)) (s : State) :
  wrong (tally_all l s) !! k = (λ v, v + total_fails k l) <$> wrong s !! k.
Proof.
  revert s. induction l as [|x l IH]; intros s.
  - simpl. destruct (wrong s !! k); simpl; [apply (f_equal Some); lia|done].
  - rewrite tally_all_cons, IH. simpl. case_decide as Hx.
    + rewrite Hx, lookup_alter_eq. destruct (wrong s !! k); simpl; [|done].
      apply (f_equal Some). lia.
    + by rewrite lookup_alter_ne.
Qed.

Lemma total_passes_perm (k : string) (l1 l2 : list (string * list Finding)) :
  l1 ≡ₚ l2 → total_passes k l1 = total_passes k l2.
Proof.
  induction 1 as [|x l1 l2 _ IH|x y l|l1 l2 l3 _ IH1 _ IH2]; simpl.
  - done.
  - by rewrite IH.
  - repeat case_decide; lia.
  - congruence.
Qed.

Lemma total_fails_perm (k : string) (l1 l2 : list (string * list Finding)) :
  l1 ≡ₚ l2 → total_fails k l1 = total_fails k l2.
Proof.
  induction 1 as [|x l1 l2 _ IH|x y l|l1 l2 l3 _ IH1 _ IH2]; simpl.
  - done.
  - by rewrite IH.
  - repeat case_decide; lia.
  - congruence.
Qed.

Lemma tally_all_perm (l1 l2 : list (string * list Finding)) (s : State) :
  l1 ≡ₚ l2 →
  correct (tally_all l1 s) = correct (tally_all l2 s) ∧
  wrong (tally_all l1 s) = wrong (tally_all l2 s).
Proof.
  intros H. split; apply map_eq; intros k.
  - by rewrite !tally_all_correct, (total_passes_perm k l1 l2).
  - by rewrite !tally_all_wrong, (total_fails_perm k l1 l2).
Qed.

Lemma run_in_order_records (pg : Node) (l : list (M unit * (string * list Finding)))
    (s : State) :
  Forall (records_on pg) l → page s = Some pg →
  Forall (λ x, has_category x.2.1 s) l →
  run_in_order (l.*1) s = Done tt (tally_all (l.*2) s).
Proof.
  unfold run_in_order. revert s. induction l as [|x l IH]; intros s Hrec Hpg Hk; [done|].
  inversion Hrec as [|? ? Hx Hl]; subst. inversion Hk as [|? ? Hkx Hkl]; subst.
  rewrite !fmap_cons. cbn [for_each]. unfold bind. rewrite Hx by done.
  rewrite tally_all_cons. apply IH; try done.
  eapply Forall_impl; [exact Hkl|]. intros y Hy. by apply tally_has_category.
Qed.

Lemma run_in_order_app (l1 l2 : list (M unit)) (s : State) :
  run_in_order (l1 ++ l2) s
  = match run_in_order l1 s with
    | Done _ s' => run_in_order l2 s'
    | Raised e s' => Raised e s'
    | OutOfFuel => OutOfFuel
    end.
Proof.
  unfold run_in_order. revert s. induction l1 as [|m l1 IH]; intros s; [done|].
  simpl. unfold bind. destruct (m s); [apply IH|done|done].
Qed.

Lemma perm_fmap_inv {A B} (f : A → B) (l1 : list B) (l2 : list A) :
  l1 ≡ₚ f <$> l2 → ∃ l3, l1 = f <$> l3 ∧ l2 ≡ₚ l3.
Proof.
  intros H. apply Permutation_map_inv in H as (l3 & -> & H). by exists l3.
Qed.

Lemma snapshot_checks_record (pg : Node) (html : Element) :
  find (soup pg) "html" = Some html →
  Forall (records_on pg) (zip snapshot_checks (snapshot_findings pg html)).
Proof.
  intros Hhtml. unfold snapshot_checks, snapshot_findings. cbn [zip zip_with].
  constructor; [intros s Hpg Hk; by eapply check_doc_language_run|].
  constructor; [intros s Hpg Hk; by apply check_alt_texts_run|].
  constructor; [intros s Hpg Hk; by apply check_input_labels_run|].
  constructor; [intros s Hpg Hk; by apply check_buttons_run|].
  constructor; [intros s Hpg Hk; by apply check_links_run|].
  constructor.
Qed.

Lemma tallies_of_finish (r : option Exn) (s : State) :
  tallies_of (finish r s) = Some (correct s, wrong s).
Proof. by destruct r. Qed.

Lemma contrast_after_records (pg : Node) (l : list (M unit * (string * list Finding)))
    (s : State) :
  Forall (records_on pg) l → page s = Some pg →
  Forall (λ x, has_category x.2.1 s) l → has_category "color_contrast" s →
  tallies_of (run_in_order (l.*1 ++ [check_color_contrast]) s)
  = Some (alter (λ v, v + passes (contrast_outcome (driver s) pg).1) "color_contrast"
                (correct (tally_all (l.*2) s)),
          alter (λ v, v + fails (contrast_outcome (driver s) pg).1) "color_contrast"
                (wrong (tally_all (l.*2) s))).
Proof.
  intros Hrec Hpg Hk Hcc.
  rewrite run_in_order_app, (run_in_order_records pg) by done.
  unfold run_in_order. cbn [for_each]. rewrite bind_ret_unit.
  destruct (tally_all_frame (l.*2) s) as [Hpage Hdriver].
  rewrite (check_color_contrast_run _ pg)
    by (by rewrite ?Hpage; try apply tally_all_has_category).
  rewrite tallies_of_finish, Hdriver. done.
Qed.

Lemma check_doc_language_without_html (s : State) (pg : Node) :
  page s = Some pg → find (soup pg) "html" = None →
  check_doc_language s = Raised AttributeError s.
Proof.
  intros Hpg Hhtml. unfold check_doc_language.
  rewrite (bind_done _ _ _ _ _ (get_page_run _ _ Hpg)). by rewrite Hhtml.
Qed.

(** C3, as the code has it.  On a parsed page, with the six counters in
    place.  When the page has an [html] element, the five checks that only
    read the page can run in any order before the colour check: the
    tallies at the end are those of the order of [test_page].  (The colour
    check itself removes nodes from the page it shares with the others, so
    it has to come last.)  When the page has no [html] element,
    [check_doc_language] raises [AttributeError]: in the order of
    [test_page] it comes first, and the checks end there with nothing
    counted. *)
Theorem checks_order_before_contrast (s : State) (pg : Node) (order : list (M unit))
    (Hpg : page s = Some pg)
    (Hk : Forall (λ k, has_category k s) categories)
    (Hperm : order ≡ₚ snapshot_checks) :
  match find (soup pg) "html" with
  | Some _ =>
      tallies_of (run_in_order (order ++ [check_color_contrast]) s) = tallies_of (run_checks s)
  | None => run_checks s = Raised AttributeError s
  end.
Proof.
  destruct (find (soup pg) "html") as [html|] eqn:Hhtml.
  2:{ unfold run_checks, bind at 1. by rewrite (check_doc_language_without_html s pg). }
  set (l := zip snapshot_checks (snapshot_findings pg html)).
  assert (Hl1 : snapshot_checks = l.*1) by reflexivity.
  assert (Hrec : Forall (records_on pg) l) by (by apply snapshot_checks_record).
  assert (Hcats : Forall (λ x, has_category x.2.1 s) l).
  { unfold categories in Hk. rewrite !Forall_cons in Hk.
    destruct Hk as (? & ? & ? & ? & ? & ? & _).
    unfold l, snapshot_checks, snapshot_findings. cbn [zip zip_with].
    repeat (apply List.Forall_cons; [assumption|]). apply List.Forall_nil. }
  assert (Hcc : has_category "color_contrast" s).
  { unfold categories in Hk. rewrite !Forall_cons in Hk. tauto. }
  rewrite Hl1 in Hperm. apply perm_fmap_inv in Hperm as (l' & -> & Hperm).
  rewrite run_checks_in_order. unfold all_checks. rewrite Hl1.
  rewrite !(contrast_after_records pg) by (done || by rewrite <- Hperm).
  destruct (tally_all_perm (l.*2) (l'.*2) s) as [-> ->]; [by rewrite Hperm|done].
Qed.

Lemma checks_order_before_contrast_witness :
  tallies_of (run_in_order ([check_links; check_buttons; check_input_labels; check_alt_texts;
                             check_doc_language] ++ [check_color_contrast])
                           (tester_on noscript_page))
  = tallies_of (run_checks (tester_on noscript_page)).
Proof.
  assert (Hhtml : find (soup noscript_page) "html"
                  = Some ([0]%nat, Tag "html" {[ "lang" := "en" ]}
                            [Tag "body" ∅ [Tag "noscript" ∅ [Tag "img" {[ "alt" := "logo" ]} []]]]))
    by (vm_compute; reflexivity).
  pose proof (checks_order_before_contrast (tester_on noscript_page) noscript_page
                [check_links; check_buttons; check_input_labels; check_alt_texts;
                 check_doc_language]) as H.
  rewrite Hhtml in H. apply H.
  - reflexivity.
  - repeat constructor; vm_compute; by eexists.
  - unfold snapshot_checks. apply (Permutation_rev [_; _; _; _; _]).
Defined.

(** Without an [html] element the order of the five checks does matter:
    the image is counted when [check_alt_texts] comes before
    [check_doc_language], and not in the order of [test_page]. *)
Example order_matters_without_html :
  find (soup bare_image_page) "html" = None ∧
  [check_alt_texts; check_doc_language; check_input_labels; check_buttons; check_links]
  ≡ₚ snapshot_checks ∧
  (tallies_of (run_in_order
                 ([check_alt_texts; check_doc_language; check_input_labels; check_buttons;
                   check_links] ++ [check_color_contrast])
                 (tester_on bare_image_page)))
    ≫= (λ t, t.1 !! "alt_texts") = Some 1 ∧
  (tallies_of (run_checks (tester_on bare_image_page))) ≫= (λ t, t.1 !! "alt_texts") = Some 0.
Proof.
  split; [vm_compute; reflexivity|]. split; [apply perm_swap|].
  split; vm_compute; reflexivity.
Qed.

(** C3, the part that fails: with the colour check first, the image inside
    [noscript] is gone from the shared page before [check_alt_texts] looks
    for images; in the order of [test_page] it is counted. *)
Lemma checks_order_matters :
  check_color_contrast :: snapshot_checks ≡ₚ all_checks ∧
  (tallies_of (run_in_order all_checks (tester_on noscript_page)))
    ≫= (λ t, t.1 !! "alt_texts") = Some 1 ∧
  (tallies_of (run_in_order (check_color_contrast :: snapshot_checks)
                            (tester_on noscript_page)))
    ≫= (λ t, t.1 !! "alt_texts") = Some 0 ∧
  tallies_of (run_in_order (check_color_contrast :: snapshot_checks) (tester_on noscript_page))
  ≠ tallies_of (run_in_order all_checks (tester_on noscript_page)).
Proof.
  assert (H1 : (tallies_of (run_in_order all_checks (tester_on noscript_page)))
                 ≫= (λ t, t.1 !! "alt_texts") = Some 1) by (vm_compute; reflexivity).
  assert (H0 : (tallies_of (run_in_order (check_color_contrast :: snapshot_checks)
                                         (tester_on noscript_page)))
                 ≫= (λ t, t.1 !! "alt_texts") = Some 0) by (vm_compute; reflexivity).
  split; [|split; [exact H1|split; [exact H0|]]].
  - unfold all_checks. by rewrite Permutation_app_comm.
  - intros E. rewrite E, H1 in H0. discriminate.
Qed.

(** ** What the crawl prints *)

#[local] Instance appends_preorder (P : Config → list PyVal → Prop) : PreOrder (appends P).
Proof.
  split.
  - intros s. split; [done|]. exists []. by rewrite app_nil_r.
  - intros s1 s2 s3 [Hc1 (n1 & Ho1 & Hn1)] [Hc2 (n2 & Ho2 & Hn2)]. split; [congruence|].
    exists (n1 ++ n2). split; [by rewrite Ho2, Ho1, app_assoc|].
    apply Forall_app. split; [done|]. by rewrite <- Hc1.
Qed.

#[local] Instance silent_preorder : PreOrder silent.
Proof.
  split.
  - by intros s.
  - intros s1 s2 s3 [? ?] [? ?]. split; congruence.
Qed.

Lemma silent_appends (P : Config → list PyVal → Prop) (s s' : State) :
  silent s s' → appends P s s'.
Proof. intros [Hc Ho]. split; [done|]. exists []. by rewrite app_nil_r. Qed.

Lemma appends_weaken (P Q : Config → list PyVal → Prop) (s s' : State) :
  (∀ l, P (config s) l → Q (config s) l) → appends P s s' → appends Q s s'.
Proof.
  intros H [Hc (new & Ho & Hn)]. split; [done|]. exists new. split; [done|].
  eapply Forall_impl; [exact Hn|]. intros l. apply H.
Qed.

Lemma silent_appends_pres {A} (P : Config → list PyVal → Prop) (m : M A) :
  preserves silent m → preserves (appends P) m.
Proof. apply preserves_weaken. apply silent_appends. Qed.

Lemma print_appends (P : Config → list PyVal → Prop) (args : list PyVal) :
  (∀ c, P c args) → preserves (appends P) (print args).
Proof.
  intros H s. split; [done|]. exists [args]. split; [done|]. by constructor.
Qed.

Lemma incr_correct_silent (k : string) : preserves silent (incr_correct k).
Proof. intros s. unfold incr_correct. by destruct (correct s !! k). Qed.

Lemma incr_wrong_silent (k : string) : preserves silent (incr_wrong k).
Proof. intros s. unfold incr_wrong. by destruct (wrong s !! k). Qed.

#[local] Hint Resolve silent_appends_pres incr_correct_silent incr_wrong_silent : pres.
#[local] Hint Extern 1 (preserves silent (modify _)) =>
  (apply preserves_modify; intros ?; by split) : pres.

Lemma get_page_silent : preserves silent get_page.
Proof. unfold get_page. pres. Qed.

Lemma get_driver_silent : preserves silent get_driver.
Proof. unfold get_driver. pres. Qed.

#[local] Hint Resolve get_page_silent get_driver_silent : pres.

Lemma record_finding_no_header (cat : string) (f : Finding) :
  is_page_header f.2 = false → preserves (appends no_header) (record_finding cat f).
Proof.
  intros H. unfold record_finding. apply preserves_bind.
  - by apply print_appends.
  - intros _. destruct f.1; auto with pres.
Qed.

Lemma check_doc_language_no_header : preserves (appends no_header) check_doc_language.
Proof.
  unfold check_doc_language. pres.
  destruct (get_attribute_list_0 _ _) as [l|].
  - destruct (negb _).
    + by apply (record_finding_no_header _ (true, _)).
    + by apply (record_finding_no_header _ (false, _)).
  - by apply (record_finding_no_header _ (false, _)).
Qed.

Lemma check_alt_texts_no_header : preserves (appends no_header) check_alt_texts.
Proof.
  unfold check_alt_texts. pres.
  eapply preserves_eq; [apply check_alt_text_finding|].
  apply record_finding_no_header. unfold alt_text_finding.
  destruct (node_attrs _ !! _); [case_bool_decide|]; done.
Qed.

Lemma check_input_labels_no_header : preserves (appends no_header) check_input_labels.
Proof.
  unfold check_input_labels. pres.
  eapply preserves_eq; [apply check_input_label_judgement|].
  unfold input_label_judgement. destruct (needs_label _); [|apply preserves_ret].
  by apply record_finding_no_header.
Qed.

Lemma check_buttons_no_header : preserves (appends no_header) check_buttons.
Proof.
  unfold check_buttons. pres.
  - eapply preserves_eq; [apply check_button_input_finding|].
    by apply record_finding_no_header.
  - eapply preserves_eq; [apply check_button_finding|].
    by apply record_finding_no_header.
Qed.

Lemma check_links_no_header : preserves (appends no_header) check_links.
Proof.
  unfold check_links. pres.
  eapply preserves_eq; [apply check_link_finding|].
  by apply record_finding_no_header.
Qed.

Lemma contrast_judgement_line (session : option Driver) (pg : Node) (x : Element)
    (f : Finding) :
  contrast_judgement session pg x = inr (Some f) → is_page_header f.2 = false.
Proof.
  unfold contrast_judgement, contrast_judgement_in.
  destruct session as [drv|]; [|done].
  destruct (current_document drv) as [doc|]; [|done].
  destruct (find_element doc _) as [sel|]; [|done].
  destruct (contrast_candidate _ _); [|done].
  destruct (convert_to_rgba_value _) as [?|tc_text]; [done|].
  destruct (get_background_color _ _ _); [done|].
  destruct (eval_tuple tc_text); [done|].
  destruct (large_text _ _ _); [done|].
  by intros [= <-].
Qed.

Lemma check_color_contrast_no_header : preserves (appends no_header) check_color_contrast.
Proof.
  unfold check_color_contrast. pres.
  intros s. rewrite check_contrast_judgement.
  destruct (contrast_judgement _ _ _) as [e|[f|]] eqn:E; simpl; try reflexivity.
  apply (record_finding_no_header "color_contrast" f).
  by eapply contrast_judgement_line.
Qed.

(** ** The crawl: which pages are tested *)

Lemma preserves_at_bind {A B} (R : State → State → Prop) `{!Transitive R}
    (m : M A) (f : A → M B) (s : State) :
  preserves_at R m s → (∀ a s', m s = Done a s' → preserves_at R (f a) s') →
  preserves_at R (bind m f) s.
Proof.
  unfold preserves_at, bind. intros Hm Hf. destruct (m s) as [a s'|e s'|]; try done.
  specialize (Hf a s' eq_refl). destruct (f a s'); try done; by etransitivity.
Qed.

Lemma preserves_at_of {A} (R : State → State → Prop) (m : M A) (s : State) :
  preserves R m → preserves_at R m s.
Proof. intros H. apply H. Qed.

Lemma preserves_run {A} (R : State → State → Prop) (m : M A) (s s' : State) (a : A) :
  preserves R m → m s = Done a s' → R s s'.
Proof. intros H E. specialize (H s). by rewrite E in H. Qed.

Lemma gets_run {A} (f : State → A) (s s' : State) (a : A) :
  gets f s = Done a s' → s' = s ∧ a = f s.
Proof. by intros [= <- <-]. Qed.

Lemma some_or_run {A} (e : Exn) (o : option A) (s s' : State) (a : A) :
  some_or e o s = Done a s' → s' = s ∧ o = Some a.
Proof. destruct o; [by intros [= <- <-]|done]. Qed.

Lemma get_document_run (s s' : State) (doc : Document) :
  get_document s = Done doc s' → s' = s ∧ current_page_url s = Some (current_url doc).
Proof.
  unfold get_document, get_driver, bind, gets, some_or, current_page_url. simpl.
  destruct (driver s) as [drv|]; [|done]. simpl.
  destruct (current_document drv); [|done]. by intros [= <- <-].
Qed.

Lemma element_read_run {A} (f : Anchor → A) (link : WebElement) (s s' : State) (a : A) :
  element_read f link s = Done a s' → s' = s.
Proof.
  unfold element_read, get_driver, bind, gets, some_or. simpl.
  destruct (driver s) as [drv|]; [|done]. simpl.
  case_bool_decide; [by intros [= _ <-]|done].
Qed.

Lemma get_document_silent : preserves silent get_document.
Proof. unfold get_document. pres. Qed.

#[local] Hint Resolve get_document_silent : pres.

Lemma switch_to_window_at_silent (i : Z) : preserves silent (switch_to_window_at i).
Proof. unfold switch_to_window_at. pres. Qed.

#[local] Hint Resolve switch_to_window_at_silent : pres.

Lemma switch_to_previous_window_silent : preserves silent switch_to_previous_window.
Proof. unfold switch_to_previous_window. pres. Qed.

Lemma window_open_silent : preserves silent window_open.
Proof. unfold window_open. pres. Qed.

Lemma find_anchors_silent : preserves silent find_anchors.
Proof. unfold find_anchors. pres. Qed.

Lemma element_read_silent {A} (f : Anchor → A) (link : WebElement) :
  preserves silent (element_read f link).
Proof. unfold element_read. pres. Qed.

#[local] Hint Resolve switch_to_previous_window_silent window_open_silent find_anchors_silent
  element_read_silent : pres.
#[local] Hint Resolve check_doc_language_no_header check_alt_texts_no_header
  check_input_labels_no_header check_buttons_no_header check_links_no_header
  check_color_contrast_no_header : pres.

Lemma is_page_header_header (u : string) : is_page_header (page_header u) = true.
Proof. unfold is_page_header, page_header. simpl. by destruct (u +:+ _). Qed.

Section CrawlScope.

Variable fetch : string → option Document.
Variable urljoin : string → option string → string.
Variable hostname : string → option string.

Lemma driver_get_silent (target : string) : preserves silent (driver_get fetch target).
Proof. unfold driver_get. pres. Qed.

Lemma take_screenshot_silent : preserves silent (take_screenshot hostname).
Proof. unfold take_screenshot. pres. Qed.

Lemma run_checks_no_header : preserves (appends no_header) run_checks.
Proof. unfold run_checks. pres. Qed.

Hint Resolve driver_get_silent take_screenshot_silent : pres.

Lemma no_header_within (start : option string) (m : M unit) :
  preserves (appends no_header) m →
  preserves (appends (header_of_start_or_within hostname start)) m.
Proof.
  apply preserves_weaken. intros s s'. apply appends_weaken.
  intros l Hl Hh. unfold no_header in Hl. congruence.
Qed.

Lemma within_start (start : option string) (m : M unit) :
  preserves (appends (header_within hostname)) m →
  preserves (appends (header_of_start_or_within hostname start)) m.
Proof.
  apply preserves_weaken. intros s s'. apply appends_weaken.
  intros l Hl Hh. destruct (Hl Hh) as (u & -> & Hu). exists u. split; [done|by right].
Qed.

Lemma get_driver_run (s s' : State) (drv : Driver) :
  get_driver s = Done drv s' → s' = s ∧ driver s = Some drv.
Proof.
  unfold get_driver, bind, gets, some_or. simpl.
  destruct (driver s); [by intros [= <- <-]|done].
Qed.

Ltac at_step :=
  apply preserves_at_bind; [apply _|apply preserves_at_of; pres|].

Lemma visit_link_within (recurse : M unit) (link : WebElement) :
  (∀ s0, preserves_at
           (appends (header_of_start_or_within hostname (current_page_url s0))) recurse s0) →
  preserves (appends (header_within hostname))
            (visit_link fetch urljoin hostname recurse link).
Proof.
  intros Hrec s. change (preserves_at (appends (header_within hostname))
                           (visit_link fetch urljoin hostname recurse link) s).
  unfold visit_link.
  at_step. intros self_url s1 [-> ->]%gets_run.
  at_step. intros link_href s1 ->%element_read_run.
  at_step. intros displayed s1 ->%element_read_run.
  destruct (_ || _); [apply preserves_at_of; pres|].
  at_step. intros doc s1 [-> _]%get_document_run.
  at_step. intros visited s1 [-> _]%gets_run.
  destruct (_ || _); [apply preserves_at_of; pres|].
  at_step. intros [] s1 Hs1. apply (preserves_run silent) in Hs1 as [Hc1 _]; [|pres].
  at_step. intros drv s2 [-> _]%get_driver_run.
  at_step. intros [] s2 Hs2. apply (preserves_run silent) in Hs2 as [Hc2 _]; [|pres].
  at_step. intros [] s3 Hs3. apply (preserves_run silent) in Hs3 as [Hc3 _]; [|pres].
  at_step. intros doc' s4 [-> Hurl]%get_document_run.
  at_step. intros visited' s4 [-> _]%gets_run.
  destruct (Py.in_list _ _); [apply preserves_at_of; pres|].
  at_step. intros host s4 [-> Hhost]%some_or_run.
  destruct (negb (Py.contains (current_url doc') host)) eqn:E;
    [apply preserves_at_of; pres|].
  apply negb_false_iff in E.
  specialize (Hrec s3). unfold preserves_at in *.
  assert (Hweak : ∀ s', appends (header_of_start_or_within hostname (current_page_url s3)) s3 s'
                        → appends (header_within hostname) s3 s').
  { intros s'. apply appends_weaken. intros l Hl Hh.
    destruct (Hl Hh) as (u & -> & [Hu|Hu]); exists u; (split; [done|]); [|done].
    exists host. rewrite Hc3, Hc2, Hc1. split; [done|].
    rewrite Hurl in Hu. by injection Hu as <-. }
  destruct (recurse s3) as [a s'|e s'|]; try done; by apply Hweak.
Qed.

Lemma test_page_within (fuel : nat) (s : State) :
  preserves_at (appends (header_of_start_or_within hostname (current_page_url s)))
               (test_page fetch urljoin hostname fuel) s.
Proof.
  revert s. induction fuel as [|fuel IH]; intros s; [done|].
  cbn [test_page].
  apply preserves_at_bind; [apply _|apply preserves_at_of; pres|].
  intros doc s1 [-> Hurl]%get_document_run. rewrite Hurl.
  apply preserves_at_of. pres.
  - apply print_appends. intros c _. exists (current_url doc). split; [done|by left].
  - apply no_header_within, run_checks_no_header.
  - by apply within_start, visit_link_within.
Qed.

(** C1, as the code has it.  Every page that [test_page] tests during a
    crawl, other than the page the crawl starts on, has a URL that
    contains the host name of the configured URL: a link that leads
    elsewhere is opened in a new window and loaded, and then left without
    being tested. *)
Theorem foreign_pages_not_tested (fuel : nat) (s : State) :
  match test_page fetch urljoin hostname fuel s with
  | Done _ s' | Raised _ s' =>
      ∃ new, stdout s' = stdout s ++ new ∧
             Forall (λ l, is_page_header l = true →
                          ∃ u, l = page_header u ∧
                               (current_page_url s = Some u ∨
                                ∃ h, hostname (url (config s)) = Some h
                                     ∧ Py.contains u h = true))
                    new
  | OutOfFuel => True
  end.
Proof.
  pose proof (test_page_within fuel s) as H. unfold preserves_at in H.
  destruct (test_page fetch urljoin hostname fuel s); try done; by destruct H.
Qed.

End CrawlScope.

(** C1, the part that fails: the origin page has one link, to another
    host.  The crawl opens a second window and loads the foreign page in
    it; only the origin page is tested. *)
Lemma foreign_link_is_opened :
  ∃ s',
    test_page foreign_web sample_urljoin sample_hostname 2
      (started_on (link_doc origin_url foreign_url)) = Done tt s' ∧
    window_handles <$> driver s'
    = Some [link_doc origin_url foreign_url; link_doc foreign_url origin_url] ∧
    sample_hostname (url (config s')) = Some "a.test" ∧
    sample_hostname foreign_url = Some "evil.example" ∧
    filter (λ l, is_page_header l = true) (stdout s') = [page_header origin_url].
Proof.
  eexists. split; [vm_compute; reflexivity|].
  repeat split; vm_compute; reflexivity.
Qed.

(** ** A web of two pages *)

Lemma get_driver_ok (s : State) (drv : Driver) :
  driver s = Some drv → get_driver s = Done drv s.
Proof. intros H. unfold get_driver, bind, gets, some_or. simpl. by rewrite H. Qed.

Lemma get_document_ok (s : State) (drv : Driver) (doc : Document) :
  driver s = Some drv → current_document drv = Some doc → get_document s = Done doc s.
Proof.
  intros Hd Hc. unfold get_document. rewrite (bind_done _ _ _ _ _ (get_driver_ok _ _ Hd)).
  by rewrite Hc.
Qed.

Lemma element_read_ok {A} (f : Anchor → A) (link : WebElement) (s : State) (drv : Driver) :
  driver s = Some drv → el_window link = current_window_handle drv →
  element_read f link s = Done (f (el_anchor link)) s.
Proof.
  intros Hd Hw. unfold element_read. rewrite (bind_done _ _ _ _ _ (get_driver_ok _ _ Hd)).
  by rewrite bool_decide_eq_true_2.
Qed.

Lemma find_anchors_ok (s : State) (drv : Driver) (doc : Document) :
  driver s = Some drv → current_document drv = Some doc →
  find_anchors s = Done (elements_in (current_window_handle drv) (anchors doc)) s.
Proof.
  intros Hd Hc. unfold find_anchors. rewrite (bind_done _ _ _ _ _ (get_driver_ok _ _ Hd)).
  by rewrite (bind_done _ _ _ _ _ (get_document_ok _ _ _ Hd Hc)).
Qed.

Lemma window_open_ok (s : State) (drv : Driver) :
  driver s = Some drv →
  window_open s
  = Done tt (set_driver (Some {| window_handles := window_handles drv ++ [about_blank];
                                 current_window_handle := current_window_handle drv |}) s).
Proof.
  intros Hd. unfold window_open. by rewrite (bind_done _ _ _ _ _ (get_driver_ok _ _ Hd)).
Qed.

Lemma switch_to_window_at_ok (s : State) (drv : Driver) (i : Z) (h : nat) :
  driver s = Some drv →
  Py.index (seq 0 (length (window_handles drv))) i = Some h →
  switch_to_window_at i s
  = Done tt (set_driver (Some {| window_handles := window_handles drv;
                                 current_window_handle := h |}) s).
Proof.
  intros Hd Hi. unfold switch_to_window_at.
  rewrite (bind_done _ _ _ _ _ (get_driver_ok _ _ Hd)). by rewrite Hi.
Qed.

Lemma switch_to_previous_window_ok (s : State) (drv : Driver) (h : nat) :
  driver s = Some drv →
  (current_window_handle drv < length (window_handles drv))%nat →
  Py.index (seq 0 (length (window_handles drv)))
           (Z.of_nat (current_window_handle drv) - 1) = Some h →
  switch_to_previous_window s
  = Done tt (set_driver (Some {| window_handles := window_handles drv;
                                 current_window_handle := h |}) s).
Proof.
  intros Hd Hlt Hi. unfold switch_to_previous_window.
  rewrite (bind_done _ _ _ _ _ (get_driver_ok _ _ Hd)).
  unfold handle_index. rewrite bool_decide_eq_true_2 by done.
  rewrite (bind_done _ _ s s (Z.of_nat (current_window_handle drv))) by done.
  by apply switch_to_window_at_ok.
Qed.

Lemma driver_get_ok (fetch : string → option Document) (target : string) (s : State)
    (drv : Driver) (doc : Document) :
  driver s = Some drv → fetch target = Some doc →
  (current_window_handle drv < length (window_handles drv))%nat →
  driver_get fetch target s
  = Done tt (set_driver
               (Some {| window_handles := <[current_window_handle drv := doc]> (window_handles drv);
                        current_window_handle := current_window_handle drv |}) s).
Proof.
  intros Hd Hf Hlt. unfold driver_get.
  rewrite (bind_done _ _ _ _ _ (get_driver_ok _ _ Hd)). rewrite Hf.
  rewrite (bind_done _ _ s s doc) by done.
  by rewrite bool_decide_eq_true_2.
Qed.

Lemma tally_all_rest (l : list (string * list Finding)) (s : State) :
  config (tally_all l s) = config s ∧ visited_links (tally_all l s) = visited_links s.
Proof.
  revert s. induction l as [|x l IH]; intros s; [done|].
  rewrite tally_all_cons. destruct (IH (tally x.1 x.2 s)) as [-> ->]. done.
Qed.

Lemma contrast_outcome_current (drv : Driver) (doc : Document) (pg : Node) :
  current_document drv = Some doc →
  contrast_outcome (Some drv) pg = contrast_outcome_in doc pg.
Proof.
  intros H. unfold contrast_outcome, contrast_outcome_in, contrast_judgement. by rewrite H.
Qed.

Lemma headers_none (new : list (list PyVal)) :
  Forall (λ l, is_page_header l = false) new → headers new = [].
Proof.
  unfold headers. induction 1 as [|l new Hl _ IH]; [done|].
  rewrite filter_cons_False; [done|]. by rewrite Hl.
Qed.

Lemma headers_app (l1 l2 : list (list PyVal)) : headers (l1 ++ l2) = headers l1 ++ headers l2.
Proof. apply filter_app. Qed.

Lemma run_checks_ok (s : State) (drv : Driver) (doc : Document) :
  page s = Some (page_source doc) → driver s = Some drv →
  current_document drv = Some doc →
  Forall (λ k, has_category k s) categories → checks_pass doc →
  ∃ s', run_checks s = Done tt s' ∧ config s' = config s ∧ driver s' = driver s ∧
        visited_links s' = visited_links s ∧
        Forall (λ k, has_category k s') categories ∧
        ∃ new, stdout s' = stdout s ++ new ∧ headers new = [].
Proof.
  intros Hpg Hd Hc Hk [[html Hhtml] Hpass].
  set (pg := page_source doc) in *.
  set (l := zip snapshot_checks (snapshot_findings pg html)).
  assert (Hrec : Forall (records_on pg) l) by (by apply snapshot_checks_record).
  assert (Hcats : Forall (λ x, has_category x.2.1 s) l).
  { unfold categories in Hk. rewrite !Forall_cons in Hk.
    destruct Hk as (? & ? & ? & ? & ? & ? & _).
    unfold l, snapshot_checks, snapshot_findings. cbn [zip zip_with].
    repeat (apply List.Forall_cons; [assumption|]). apply List.Forall_nil. }
  assert (Hcc : has_category "color_contrast" s).
  { unfold categories in Hk. rewrite !Forall_cons in Hk. tauto. }
  assert (Hrun : run_checks s
                 = Done tt (tally "color_contrast" (contrast_outcome_in doc pg).1
                              (set_page (Some (extract_texts pg).1) (tally_all (l.*2) s)))).
  { rewrite run_checks_in_order. unfold all_checks.
    change snapshot_checks with (l.*1).
    rewrite run_in_order_app, (run_in_order_records pg) by done.
    unfold run_in_order. cbn [for_each]. rewrite bind_ret_unit.
    destruct (tally_all_frame (l.*2) s) as [Hpage Hdriver].
    rewrite (check_color_contrast_run _ pg)
      by (by rewrite ?Hpage; try apply tally_all_has_category).
    rewrite Hdriver, Hd, (contrast_outcome_current _ _ _ Hc), Hpass. done. }
  eexists. split; [exact Hrun|].
  destruct (tally_all_frame (l.*2) s) as [Hpage Hdriver].
  destruct (tally_all_rest (l.*2) s) as [Hconfig Hvisited].
  split; [done|]. split; [done|]. split; [done|]. split.
  - eapply Forall_impl; [exact Hk|]. intros k Hkk.
    apply tally_has_category. by apply (tally_all_has_category k (l.*2) s).
  - pose proof (run_checks_no_header s) as Hno. rewrite Hrun in Hno.
    destruct Hno as [_ (new & Hout & Hnew)]. exists new. split; [done|].
    by apply headers_none.
Qed.

Lemma tally_all_app (l1 l2 : list (string * list Finding)) (s : State) :
  tally_all (l1 ++ l2) s = tally_all l2 (tally_all l1 s).
Proof. apply foldl_app. Qed.

Lemma tally_all_same_tallies (l : list (string * list Finding)) (s1 s2 : State) :
  correct s1 = correct s2 → wrong s1 = wrong s2 →
  correct (tally_all l s1) = correct (tally_all l s2) ∧
  wrong (tally_all l s1) = wrong (tally_all l s2).
Proof.
  intros Hc Hw. split; apply map_eq; intros k.
  - by rewrite !tally_all_correct, Hc.
  - by rewrite !tally_all_wrong, Hw.
Qed.

(** The tallies after the six checks on a document on which they pass:
    those of its findings. *)
Lemma run_checks_findings (s s' : State) (drv : Driver) (doc : Document) :
  page s = Some (page_source doc) → driver s = Some drv →
  current_document drv = Some doc →
  Forall (λ k, has_category k s) categories → checks_pass doc →
  run_checks s = Done tt s' →
  correct s' = correct (tally_all (page_findings doc) s) ∧
  wrong s' = wrong (tally_all (page_findings doc) s).
Proof.
  intros Hpg Hd Hc Hk [[html Hhtml] Hpass] Hdone.
  set (pg := page_source doc) in *.
  set (l := zip snapshot_checks (snapshot_findings pg html)).
  assert (Hrec : Forall (records_on pg) l) by (by apply snapshot_checks_record).
  assert (Hcats : Forall (λ x, has_category x.2.1 s) l).
  { unfold categories in Hk. rewrite !Forall_cons in Hk.
    destruct Hk as (? & ? & ? & ? & ? & ? & _).
    unfold l, snapshot_checks, snapshot_findings. cbn [zip zip_with].
    repeat (apply List.Forall_cons; [assumption|]). apply List.Forall_nil. }
  assert (Hcc : has_category "color_contrast" s).
  { unfold categories in Hk. rewrite !Forall_cons in Hk. tauto. }
  assert (Hrun : run_checks s
                 = Done tt (tally "color_contrast" (contrast_outcome_in doc pg).1
                              (set_page (Some (extract_texts pg).1) (tally_all (l.*2) s)))).
  { rewrite run_checks_in_order. unfold all_checks.
    change snapshot_checks with (l.*1).
    rewrite run_in_order_app, (run_in_order_records pg) by done.
    unfold run_in_order. cbn [for_each]. rewrite bind_ret_unit.
    destruct (tally_all_frame (l.*2) s) as [Hpage Hdriver].
    rewrite (check_color_contrast_run _ pg)
      by (by rewrite ?Hpage; try apply tally_all_has_category).
    rewrite Hdriver, Hd, (contrast_outcome_current _ _ _ Hc), Hpass. done. }
  rewrite Hrun in Hdone. injection Hdone as <-.
  unfold page_findings. fold pg. rewrite Hhtml, tally_all_app.
  change (l.*2) with (snapshot_findings pg html). done.
Qed.

Lemma set_driver_twice (d1 d2 : option Driver) (s : State) :
  set_driver d2 (set_driver d1 s) = set_driver d2 s.
Proof. reflexivity. Qed.

Lemma for_each_unchanged {A} (l : list A) (body : A → M unit) (s : State) :
  (∀ x, x ∈ l → body x s = Done tt s) → for_each l body s = Done tt s.
Proof.
  induction l as [|x l IH]; intros H; [done|].
  simpl. rewrite (bind_done _ _ s s tt) by (apply H; by left).
  apply IH. intros y Hy. apply H. by right.
Qed.

Section TwoPages.

Variable fetch : string → option Document.
Variable urljoin : string → option string → string.
Variable hostname : string → option string.
Variables (A B host : string) (docA docB : Document).

Hypothesis HAB : A ≠ B.
Hypothesis HA : current_url docA = A.
Hypothesis HB : current_url docB = B.
Hypothesis Hhost : hostname A = Some host.
Hypothesis HBhost : Py.contains B host = true.
Hypothesis Hlinks :
  ∀ a h, a ∈ anchors docA ++ anchors docB → is_displayed a = true →
         href a = Some h → h ≠ "" →
         urljoin A (Some h) = A ∨ (urljoin A (Some h) = B ∧ fetch h = Some docB).

Lemma not_elem_of_A : B ∉ [A].
Proof. intros H. apply list_elem_of_singleton in H. by apply HAB. Qed.

Lemma visit_link_skip (recurse : M unit) (a : Anchor) (s : State) (drv : Driver)
    (doc : Document) :
  url (config s) = A → driver s = Some drv → current_document drv = Some doc →
  passed_over urljoin A a (current_url doc) (visited_links s) = true →
  visit_link fetch urljoin hostname recurse
    {| el_window := current_window_handle drv; el_anchor := a |} s = Done tt s.
Proof.
  intros Hu Hd Hc Hskip. unfold visit_link.
  rewrite (bind_done _ _ s s A) by (by unfold gets; rewrite Hu).
  erewrite bind_done by (by apply (element_read_ok _ _ _ drv)).
  erewrite bind_done by (by apply (element_read_ok _ _ _ drv)).
  cbn [el_anchor]. unfold passed_over in Hskip.
  destruct (negb (is_displayed a) || bool_decide (href a = Some "")
            || bool_decide (href a = None)); [done|].
  rewrite (bind_done _ _ _ _ _ (get_document_ok _ _ _ Hd Hc)).
  rewrite (bind_done _ _ s s (visited_links s)) by done.
  simpl in Hskip. by rewrite Hskip.
Qed.

Lemma passed_over_known (a : Anchor) (current : string) (visited : list string) :
  a ∈ anchors docA ++ anchors docB → A ∈ visited → B ∈ visited →
  passed_over urljoin A a current visited = true.
Proof.
  intros Ha HAv HBv. unfold passed_over.
  destruct (is_displayed a) eqn:Hshown; [|done]. simpl.
  destruct (href a) as [h|] eqn:Hh; [|done].
  destruct (decide (h = "")) as [->|Hne]; [done|].
  rewrite (bool_decide_eq_false_2 (Some h = Some "")) by congruence.
  rewrite (bool_decide_eq_false_2 (Some h = None)) by done. simpl.
  unfold Py.in_list.
  destruct (Hlinks a h Ha Hshown Hh Hne) as [->|[-> _]];
    rewrite (bool_decide_eq_true_2 (_ ∈ visited)) by done; apply orb_true_r.
Qed.

Lemma visit_link_open (recurse : M unit) (a : Anchor) (h : string) (s : State) :
  url (config s) = A →
  driver s = Some {| window_handles := [docA]; current_window_handle := 0 |} →
  visited_links s = [A] →
  is_displayed a = true → href a = Some h → h ≠ "" →
  urljoin A (Some h) = B → fetch h = Some docB →
  visit_link fetch urljoin hostname recurse {| el_window := 0; el_anchor := a |} s
  = recurse (set_driver (Some {| window_handles := [docA; docB];
                                 current_window_handle := 1 |}) s).
Proof.
  intros Hu Hd Hv Hshown Hh Hne Hjoin Hfetch. unfold visit_link.
  rewrite (bind_done _ _ s s A) by (by unfold gets; rewrite Hu).
  erewrite bind_done by (by eapply element_read_ok).
  erewrite bind_done by (by eapply element_read_ok).
  cbn [el_anchor]. rewrite Hshown, Hh.
  rewrite (bool_decide_eq_false_2 (Some h = Some "")) by congruence.
  rewrite (bool_decide_eq_false_2 (Some h = None)) by done.
  cbn [negb orb].
  rewrite (bind_done _ _ _ _ _ (get_document_ok _ _ docA Hd eq_refl)).
  rewrite (bind_done _ _ s s (visited_links s)) by done.
  rewrite Hjoin, HA, Hv.
  rewrite (bool_decide_eq_false_2 (B = A)) by done.
  unfold Py.in_list. rewrite (bool_decide_eq_false_2 (B ∈ [A])) by (by apply not_elem_of_A).
  cbn [negb orb default].
  erewrite bind_done by (by eapply window_open_ok). cbn [window_handles current_window_handle].
  erewrite bind_done by (by apply get_driver_ok).
  erewrite bind_done by (by eapply (switch_to_window_at_ok _ _ _ 1%nat)).
  rewrite set_driver_twice. cbn [window_handles current_window_handle].
  erewrite bind_done by (eapply (driver_get_ok _ _ _ _ docB); [reflexivity|done|simpl; lia]).
  rewrite set_driver_twice. cbn [window_handles current_window_handle app].
  erewrite bind_done by (by eapply (get_document_ok _ _ docB)).
  erewrite (bind_done _ _ _ _ [A]) by (by unfold gets; simpl; rewrite Hv).
  rewrite HB. rewrite (bool_decide_eq_false_2 (B ∈ [A])) by (by apply not_elem_of_A).
  rewrite Hhost. erewrite (bind_done _ _ _ _ host) by done.
  rewrite HBhost. done.
Qed.


Hypothesis HpassA : checks_pass docA.
Hypothesis HpassB : checks_pass docB.

Lemma loop_passed_over (recurse : M unit) (l : list Anchor) (s : State) (drv : Driver)
    (doc : Document) :
  (∀ a, a ∈ l → a ∈ anchors docA ++ anchors docB) →
  url (config s) = A → driver s = Some drv → current_document drv = Some doc →
  A ∈ visited_links s → B ∈ visited_links s →
  for_each (elements_in (current_window_handle drv) l)
           (visit_link fetch urljoin hostname recurse) s = Done tt s.
Proof.
  intros Hl Hu Hd Hc HAv HBv. apply for_each_unchanged.
  intros x Hx. unfold elements_in in Hx. apply list_elem_of_fmap in Hx as (a & -> & Ha).
  apply (visit_link_skip _ _ _ drv doc); try done.
  apply passed_over_known; auto.
Qed.

Lemma test_page_child (fuel : nat) (s : State) :
  crawling A s →
  driver s = Some {| window_handles := [docA; docB]; current_window_handle := 1 |} →
  visited_links s = [A] →
  ∃ s', test_page fetch urljoin hostname (S fuel) s = Done tt s' ∧
        crawling A s' ∧
        driver s' = Some {| window_handles := [docA; docB]; current_window_handle := 0 |} ∧
        visited_links s' = [A; B] ∧
        (∃ new, stdout s' = stdout s ++ new ∧ headers new = [page_header B]) ∧
        correct s' = correct (tally_all (page_findings docB) s) ∧
        wrong s' = wrong (tally_all (page_findings docB) s).
Proof.
  intros (Hu & Hf & Hs & Hk) Hd Hv. cbn [test_page].
  erewrite bind_done by (by eapply (get_document_ok _ _ docB)).
  erewrite bind_done by reflexivity.
  erewrite bind_done by apply print_run.
  edestruct (run_checks_ok
               (set_stdout (stdout (set_page (Some (page_source docB)) s)
                            ++ [page_header (current_url docB)])
                  (set_page (Some (page_source docB)) s))
               {| window_handles := [docA; docB]; current_window_handle := 1 |} docB)
    as (s3 & Hrun & Hc3 & Hd3 & Hv3 & Hk3 & new & Hout3 & Hh3); try done.
  destruct (run_checks_findings
              (set_stdout (stdout (set_page (Some (page_source docB)) s)
                           ++ [page_header (current_url docB)])
                 (set_page (Some (page_source docB)) s)) s3
              {| window_handles := [docA; docB]; current_window_handle := 1 |} docB)
    as [Hcor3 Hwr3]; [reflexivity|exact Hd|reflexivity|exact Hk|exact HpassB|exact Hrun|].
  destruct (tally_all_same_tallies (page_findings docB)
              (set_stdout (stdout (set_page (Some (page_source docB)) s)
                           ++ [page_header (current_url docB)])
                 (set_page (Some (page_source docB)) s)) s eq_refl eq_refl) as [Ec Ew].
  rewrite Ec in Hcor3. rewrite Ew in Hwr3. clear Ec Ew.
  rewrite (bind_done _ _ _ _ _ Hrun).
  cbn [config driver visited_links stdout set_stdout set_page] in Hc3, Hd3, Hv3, Hout3.
  erewrite (bind_done _ _ s3 s3 false) by (by unfold gets; rewrite Hc3, Hs).
  erewrite bind_done by reflexivity.
  erewrite (bind_done _ _ s3 s3 true) by (by unfold gets; rewrite Hc3, Hf).
  erewrite bind_done by reflexivity.
  erewrite bind_done
    by (eapply (find_anchors_ok _ _ docB); [cbn; rewrite Hd3; exact Hd|reflexivity]).
  cbn [current_window_handle].
  erewrite bind_done.
  2:{ apply (loop_passed_over _ _ _ {| window_handles := [docA; docB];
                                       current_window_handle := 1 |} docB).
      - intros a Ha. apply elem_of_app. by right.
      - cbn. by rewrite Hc3.
      - cbn. by rewrite Hd3.
      - reflexivity.
      - cbn. rewrite Hv3, Hv. by left.
      - cbn. rewrite Hv3, Hv, HB. right. by left. }
  erewrite (switch_to_previous_window_ok _ _ 0%nat);
    [|cbn; rewrite Hd3; exact Hd|cbn; lia|reflexivity].
  eexists. split; [reflexivity|].
  split; [|split; [reflexivity|split; [|split; [|split; [exact Hcor3|exact Hwr3]]]]].
  - unfold crawling. cbn. rewrite Hc3. done.
  - cbn. by rewrite Hv3, Hv, HB.
  - exists (page_header B :: new). split.
    + cbn. by rewrite Hout3, HB, <- app_assoc.
    + unfold headers. rewrite filter_cons_True by apply is_page_header_header.
      fold (headers new). by rewrite Hh3.
Qed.


Lemma passed_over_elsewhere (a : Anchor) :
  a ∈ anchors docA → links_to urljoin A B a = false → passed_over urljoin A a A [A] = true.
Proof.
  intros Ha Hno. unfold passed_over, links_to in *.
  destruct (is_displayed a) eqn:Hshown; [|done]. simpl in *.
  destruct (href a) as [h|] eqn:Hh; [|done].
  destruct (decide (h = "")) as [->|Hne]; [done|].
  rewrite (bool_decide_eq_false_2 (h = "")) in Hno by done. simpl in Hno.
  apply bool_decide_eq_false in Hno.
  destruct (Hlinks a h) as [HtoA|[HtoB _]]; try done.
  { apply elem_of_app. by left. }
  rewrite (bool_decide_eq_true_2 (urljoin A (Some h) = A)) by done.
  by rewrite !orb_true_r.
Qed.

Lemma links_to_opens (a : Anchor) :
  a ∈ anchors docA → links_to urljoin A B a = true →
  ∃ h, is_displayed a = true ∧ href a = Some h ∧ h ≠ "" ∧
       urljoin A (Some h) = B ∧ fetch h = Some docB.
Proof.
  intros Ha Hyes. unfold links_to in Hyes.
  apply andb_true_iff in Hyes as [Hshown Hyes].
  destruct (href a) as [h|] eqn:Hh; [|done].
  apply andb_true_iff in Hyes as [Hne HtoB].
  apply negb_true_iff, bool_decide_eq_false in Hne. apply bool_decide_eq_true in HtoB.
  exists h. repeat split; try done.
  destruct (Hlinks a h) as [HtoA|[_ Hfetch]]; try done.
  - apply elem_of_app. by left.
  - congruence.
Qed.

Lemma root_loop (fuel : nat) (l : list Anchor) (s : State) :
  (∀ a, a ∈ l → a ∈ anchors docA) →
  crawling A s →
  driver s = Some {| window_handles := [docA]; current_window_handle := 0 |} →
  visited_links s = [A] →
  ∃ s', for_each (elements_in 0 l)
                 (visit_link fetch urljoin hostname
                    (test_page fetch urljoin hostname (S fuel))) s = Done tt s' ∧
        crawling A s' ∧
        if existsb (links_to urljoin A B) l then
          driver s' = Some {| window_handles := [docA; docB]; current_window_handle := 0 |} ∧
          visited_links s' = [A; B] ∧
          (∃ new, stdout s' = stdout s ++ new ∧ headers new = [page_header B]) ∧
          correct s' = correct (tally_all (page_findings docB) s) ∧
          wrong s' = wrong (tally_all (page_findings docB) s)
        else s' = s.
Proof.
  revert s. induction l as [|a l IH]; intros s Hl Hcr Hd Hv.
  - exists s. split; [done|]. by split.
  - cbn [elements_in fmap list_fmap for_each existsb].
    destruct (links_to urljoin A B a) eqn:Hto.
    + destruct (links_to_opens a) as (h & Hshown & Hh & Hne & HtoB & Hfetch);
        [apply Hl; by left|done|].
      destruct Hcr as (Hu & Hf & Hs & Hk).
      edestruct (test_page_child fuel
                   (set_driver (Some {| window_handles := [docA; docB];
                                        current_window_handle := 1 |}) s))
        as (s1 & Hrun & Hcr1 & Hd1 & Hv1 & (new & Hout1 & Hh1) & Hcor1 & Hwr1); try done.
      unfold bind at 1. rewrite (visit_link_open _ a h) by done. rewrite Hrun.
      exists s1. split.
      * apply (loop_passed_over _ _ _ {| window_handles := [docA; docB];
                                         current_window_handle := 0 |} docA); try done.
        -- intros b Hb. apply elem_of_app. left. apply Hl. by right.
        -- by destruct Hcr1.
        -- rewrite Hv1. by left.
        -- rewrite Hv1. right. by left.
      * split; [done|]. simpl. split; [done|]. split; [done|].
        split; [by exists new|].
        destruct (tally_all_same_tallies (page_findings docB)
                    (set_driver (Some {| window_handles := [docA; docB];
                                         current_window_handle := 1 |}) s)
                    s eq_refl eq_refl) as [Ec Ew].
        rewrite Hcor1, Hwr1. by split.
    + unfold bind at 1.
      rewrite (visit_link_skip _ a s {| window_handles := [docA]; current_window_handle := 0 |}
                 docA); try done.
      * simpl. apply IH; try done. intros b Hb. apply Hl. by right.
      * by destruct Hcr.
      * rewrite HA, Hv. apply passed_over_elsewhere; [apply Hl; by left|done].
Qed.


Lemma two_page_crawl (fuel : nat) (s : State)
    (Hcr : crawling A s)
    (Hd : driver s = Some {| window_handles := [docA]; current_window_handle := 0 |})
    (Hv : visited_links s = [])
    (Hfuel : (2 ≤ fuel)%nat) :
  ∃ s', test_page fetch urljoin hostname fuel s = Done tt s' ∧
        visited_links s'
        = A :: (if existsb (links_to urljoin A B) (anchors docA) then [B] else []) ∧
        (∃ new, stdout s' = stdout s ++ new ∧
                headers new
                = page_header A
                  :: (if existsb (links_to urljoin A B) (anchors docA)
                      then [page_header B] else [])) ∧
        let findings :=
          page_findings docA
          ++ (if existsb (links_to urljoin A B) (anchors docA) then page_findings docB else [])
        in
        correct s' = correct (tally_all findings s) ∧
        wrong s' = wrong (tally_all findings s).
Proof.
  destruct fuel as [|[|fuel]]; [lia|lia|]. clear Hfuel.
  destruct Hcr as (Hu & Hf & Hs & Hk). cbn [test_page].
  erewrite bind_done by (by eapply (get_document_ok _ _ docA)).
  erewrite bind_done by reflexivity.
  erewrite bind_done by apply print_run.
  edestruct (run_checks_ok
               (set_stdout (stdout (set_page (Some (page_source docA)) s)
                            ++ [page_header (current_url docA)])
                  (set_page (Some (page_source docA)) s))
               {| window_handles := [docA]; current_window_handle := 0 |} docA)
    as (s3 & Hrun & Hc3 & Hd3 & Hv3 & Hk3 & new & Hout3 & Hh3); try done.
  destruct (run_checks_findings
              (set_stdout (stdout (set_page (Some (page_source docA)) s)
                           ++ [page_header (current_url docA)])
                 (set_page (Some (page_source docA)) s)) s3
              {| window_handles := [docA]; current_window_handle := 0 |} docA)
    as [Hcor3 Hwr3]; [reflexivity|exact Hd|reflexivity|exact Hk|exact HpassA|exact Hrun|].
  destruct (tally_all_same_tallies (page_findings docA)
              (set_stdout (stdout (set_page (Some (page_source docA)) s)
                           ++ [page_header (current_url docA)])
                 (set_page (Some (page_source docA)) s)) s eq_refl eq_refl) as [Ec Ew].
  rewrite Ec in Hcor3. rewrite Ew in Hwr3. clear Ec Ew.
  rewrite (bind_done _ _ _ _ _ Hrun).
  cbn [config driver visited_links stdout set_stdout set_page] in Hc3, Hd3, Hv3, Hout3.
  erewrite (bind_done _ _ s3 s3 false) by (by unfold gets; rewrite Hc3, Hs).
  erewrite bind_done by reflexivity.
  erewrite (bind_done _ _ s3 s3 true) by (by unfold gets; rewrite Hc3, Hf).
  erewrite bind_done by reflexivity.
  erewrite bind_done
    by (eapply (find_anchors_ok _ _ docA); [cbn; rewrite Hd3; exact Hd|reflexivity]).
  cbn [current_window_handle].
  edestruct (root_loop fuel (anchors docA)
               (set_visited_links (visited_links s3 ++ [current_url docA]) s3))
    as (s4 & Hloop & Hcr4 & Hcase).
  { done. }
  { unfold crawling. cbn. by rewrite Hc3. }
  { cbn. by rewrite Hd3. }
  { cbn. by rewrite Hv3, Hv, HA. }
  rewrite (bind_done _ _ _ _ _ Hloop).
  destruct (existsb (links_to urljoin A B) (anchors docA)).
  - destruct Hcase as (Hd4 & Hv4 & (new4 & Hout4 & Hh4) & Hcor4 & Hwr4).
    erewrite (switch_to_previous_window_ok _ _ 1%nat); [|exact Hd4|cbn; lia|reflexivity].
    eexists. split; [reflexivity|]. split; [exact Hv4|]. split.
    + exists (page_header A :: new ++ new4). split.
      * cbn. cbn in Hout4. by rewrite Hout4, Hout3, HA, <- !app_assoc.
      * unfold headers. rewrite filter_cons_True by apply is_page_header_header.
        fold (headers (new ++ new4)). by rewrite headers_app, Hh3, Hh4.
    + cbv zeta. rewrite tally_all_app.
      destruct (tally_all_same_tallies (page_findings docB)
                  (set_visited_links (visited_links s3 ++ [current_url docA]) s3)
                  (tally_all (page_findings docA) s) Hcor3 Hwr3) as [Ec Ew].
      cbn [correct wrong set_driver]. rewrite Hcor4, Hwr4. by split.
  - subst s4.
    erewrite (switch_to_previous_window_ok _ _ 0%nat);
      [|cbn; rewrite Hd3; exact Hd|cbn; lia|reflexivity].
    eexists. split; [reflexivity|]. split; [cbn; by rewrite Hv3, Hv, HA|]. split.
    + exists (page_header A :: new). split.
      * cbn. by rewrite Hout3, HA, <- !app_assoc.
      * unfold headers. rewrite filter_cons_True by apply is_page_header_header.
        fold (headers new). by rewrite Hh3.
    + cbv zeta. rewrite app_nil_r. cbn [correct wrong set_driver set_visited_links].
      by split.
Qed.


End TwoPages.

Lemma link_doc_checks_pass (here target : string) : checks_pass (link_doc here target).
Proof.
  split.
  - eexists. vm_compute. reflexivity.
  - vm_compute. reflexivity.
Qed.

Lemma started_on_crawling (home : Document) : crawling origin_url (started_on home).
Proof.
  repeat split; try reflexivity.
  repeat (apply List.Forall_cons; [split; vm_compute; by eexists|]). apply List.Forall_nil.
Qed.


(** On the cycle of the two sample pages each page has one finding in
    three categories (its language, its link, and none for images, the
    image being that of the link): at the end each of these counters
    stands at two, one for each page. *)
Example cycle_web_tallies :
  ∃ s',
    test_page cycle_web sample_urljoin sample_hostname 2
      (started_on (link_doc origin_url other_url)) = Done tt s' ∧
    correct s' !! "doc_language" = Some 2 ∧
    correct s' !! "alt_texts" = Some 2 ∧
    correct s' !! "empty_links" = Some 2 ∧
    sum_values (correct s') + sum_values (wrong s') = 6.
Proof.
  eexists. split; [vm_compute; reflexivity|]. split; [vm_compute; reflexivity|].
  split; [vm_compute; reflexivity|]. split; vm_compute; reflexivity.
Qed.

(** The page that links to itself: it is tested once and the crawl
    returns.  (The second page of the theorem is not reachable here.) *)
Example self_link_tested_once :
  ∃ s',
    test_page self_web sample_urljoin sample_hostname 2
      (started_on (link_doc origin_url origin_url)) = Done tt s' ∧
    visited_links s' = [origin_url] ∧
    (∃ new,
       stdout s' = stdout (started_on (link_doc origin_url origin_url)) ++ new ∧
       headers new = [page_header origin_url]) ∧
    correct s' !! "doc_language" = Some 1.
Proof.
  destruct (two_page_crawl self_web sample_urljoin sample_hostname
              origin_url other_url "a.test"
              (link_doc origin_url origin_url) (link_doc other_url origin_url))
    with (fuel := 2%nat) (s := started_on (link_doc origin_url origin_url))
    as (s' & Hrun & Hv & Hout & Hcor & _).
  - discriminate.
  - reflexivity.
  - reflexivity.
  - reflexivity.
  - vm_compute. reflexivity.
  - intros a h Ha _ Hh _. left. simpl in Ha.
    apply elem_of_cons in Ha as [->|Ha]; [|apply list_elem_of_singleton in Ha as ->];
      simpl in Hh; injection Hh as <-; vm_compute; reflexivity.
  - apply link_doc_checks_pass.
  - apply link_doc_checks_pass.
  - apply started_on_crawling.
  - reflexivity.
  - reflexivity.
  - lia.
  - exists s'. split; [exact Hrun|]. split; [exact Hv|]. split; [exact Hout|].
    rewrite Hcor. vm_compute. reflexivity.
Qed.


(** ** The crawl terminates on a finite web *)

Lemma total_ret {A} (a : A) : total (ret a).
Proof. by intros s. Qed.

Lemma total_raise {A} (e : Exn) : total (raise (A := A) e).
Proof. by intros s. Qed.

Lemma total_gets {A} (f : State → A) : total (gets f).
Proof. by intros s. Qed.

Lemma total_modify (f : State → State) : total (modify f).
Proof. by intros s. Qed.

Lemma total_bind {A B} (m : M A) (f : A → M B) :
  total m → (∀ a, total (f a)) → total (bind m f).
Proof.
  intros Hm Hf s. unfold bind. specialize (Hm s).
  destruct (m s) as [a s'| |]; [apply Hf|done|done].
Qed.

Lemma total_for_each {A} (l : list A) (body : A → M unit) :
  (∀ x, total (body x)) → total (for_each l body).
Proof.
  intros H. induction l as [|x l IH]; [apply total_ret|].
  simpl. apply total_bind; [apply H|by intros _].
Qed.

Lemma total_incr_correct (k : string) : total (incr_correct k).
Proof. intros s. unfold incr_correct. by destruct (correct s !! k). Qed.

Lemma total_incr_wrong (k : string) : total (incr_wrong k).
Proof. intros s. unfold incr_wrong. by destruct (wrong s !! k). Qed.

Ltac tot_step :=
  lazymatch goal with
  | |- total (ret _) => apply total_ret
  | |- total (raise _) => apply total_raise
  | |- total (gets _) => apply total_gets
  | |- total (modify _) => apply total_modify
  | |- total (incr_correct _) => apply total_incr_correct
  | |- total (incr_wrong _) => apply total_incr_wrong
  | |- total (for_each _ _) => apply total_for_each; intros ?
  | |- total (bind _ _) => apply total_bind; [|intros ?]
  | |- total (if ?b then _ else _) => destruct b
  | |- total (match ?x with _ => _ end) => destruct x
  | |- total (let _ := _ in _) => cbv zeta
  | |- total _ =>
      progress unfold some_or, lift, print, get_page, get_driver, get_document, find_anchors,
        element_read, window_open, switch_to_window_at, switch_to_previous_window,
        driver_get, take_screenshot, report_contrast, check_contrast, check_color_contrast,
        check_link, check_links, check_button, check_button_input, check_buttons,
        check_input_label, check_input_labels, check_alt_text, check_alt_texts,
        check_doc_language, run_checks
  end.

Ltac tot := repeat tot_step.

Lemma total_at {A} (m : M A) (s : State) : total m → m s ≠ OutOfFuel.
Proof. intros H. apply H. Qed.

Lemma run_checks_total : total run_checks.
Proof. tot. Qed.

#[local] Instance same_visited_preorder : PreOrder same_visited.
Proof.
  split.
  - by intros s.
  - intros s1 s2 s3 H1 H2. unfold same_visited in *. congruence.
Qed.

#[local] Instance visited_grows_preorder : PreOrder visited_grows.
Proof.
  split.
  - by intros s u.
  - intros s1 s2 s3 H1 H2 u Hu. by apply H2, H1.
Qed.

Lemma same_visited_grows (s s' : State) : same_visited s s' → visited_grows s s'.
Proof. intros H u. unfold same_visited in H. by rewrite H. Qed.

Lemma incr_correct_same_visited (k : string) : preserves same_visited (incr_correct k).
Proof. intros s. unfold incr_correct. by destruct (correct s !! k). Qed.

Lemma incr_wrong_same_visited (k : string) : preserves same_visited (incr_wrong k).
Proof. intros s. unfold incr_wrong. by destruct (wrong s !! k). Qed.

Create HintDb deep.

Ltac deep_step :=
  lazymatch goal with
  | |- preserves _ (ret _) => apply preserves_ret
  | |- preserves _ (raise _) => apply preserves_raise
  | |- preserves _ (gets _) => apply preserves_gets
  | |- preserves same_visited (modify _) => apply preserves_modify; intros ?; reflexivity
  | |- preserves visited_grows (modify _) =>
      apply preserves_modify; intros ? ? ?; simpl; try (apply elem_of_app; left); done
  | |- preserves same_visited (incr_correct _) => apply incr_correct_same_visited
  | |- preserves same_visited (incr_wrong _) => apply incr_wrong_same_visited
  | |- preserves _ (for_each _ _) => apply preserves_for_each; intros ?
  | |- preserves _ (bind _ _) => apply preserves_bind; [|intros ?]
  | |- preserves _ (if ?b then _ else _) => destruct b
  | |- preserves _ (match ?x with _ => _ end) => destruct x
  | |- preserves _ (let _ := _ in _) => cbv zeta
  | |- preserves _ _ =>
      first
        [ solve [auto 3 with deep nocore]
        | progress unfold some_or, lift, print, get_page, get_driver, get_document,
            find_anchors, element_read, window_open, switch_to_window_at,
            switch_to_previous_window, driver_get, take_screenshot, report_contrast,
            check_contrast, check_color_contrast, check_link, check_links, check_button,
            check_button_input, check_buttons, check_input_label, check_input_labels,
            check_alt_text, check_alt_texts, check_doc_language, run_checks, visit_link ]
  end.

Ltac deep := repeat deep_step.

Lemma run_checks_same_visited : preserves same_visited run_checks.
Proof. deep. Qed.

Lemma same_visited_grows_pres {A} (m : M A) :
  preserves same_visited m → preserves visited_grows m.
Proof. apply preserves_weaken. apply same_visited_grows. Qed.

#[local] Hint Resolve same_visited_grows_pres run_checks_same_visited : deep.

Section CrawlTermination.

Variable fetch : string → option Document.
Variable urljoin : string → option string → string.
Variable hostname : string → option string.

Lemma visit_link_visited_grows (recurse : M unit) (link : WebElement) :
  preserves visited_grows recurse →
  preserves visited_grows (visit_link fetch urljoin hostname recurse link).
Proof. intros Hrec. deep. Qed.

Lemma test_page_visited_grows (fuel : nat) :
  preserves visited_grows (test_page fetch urljoin hostname fuel).
Proof.
  induction fuel as [|fuel IH]; [done|].
  cbn [test_page]. deep.
Qed.


Lemma no_fuel_bind {A B} (m : M A) (f : A → M B) (s : State) :
  m s ≠ OutOfFuel → (∀ a s', m s = Done a s' → f a s' ≠ OutOfFuel) →
  bind m f s ≠ OutOfFuel.
Proof.
  intros Hm Hf. unfold bind. destruct (m s) as [a s'| |]; [by apply Hf|done|done].
Qed.

Lemma for_each_no_fuel {A} (P : State → Prop) (l : list A) (body : A → M unit) (s : State) :
  (∀ x s', P s' → body x s' ≠ OutOfFuel) →
  (∀ x s' s'', P s' → body x s' = Done tt s'' → P s'') →
  P s → for_each l body s ≠ OutOfFuel.
Proof.
  intros Hbody Hkeep. revert s. induction l as [|x l IH]; intros s HP; [done|].
  simpl. apply no_fuel_bind; [by apply Hbody|].
  intros [] s' Hrun. apply IH. by eapply Hkeep.
Qed.

Variable universe : list string.
Hypothesis Huniverse : ∀ x d, fetch x = Some d → current_url d ∈ universe.

Lemma remaining_mono (l v v' : list string) :
  (∀ u, u ∈ v → u ∈ v') → (remaining l v' ≤ remaining l v)%nat.
Proof.
  intros H. unfold remaining. induction l as [|x l IH]; [done|].
  destruct (decide (x ∈ v)) as [Hx|Hx].
  - rewrite (filter_cons_False _ x l) by auto.
    rewrite (filter_cons_False (λ u, u ∉ v) x l) by auto. exact IH.
  - rewrite (filter_cons_True (λ u, u ∉ v) x l) by done.
    destruct (decide (x ∈ v')).
    + rewrite filter_cons_False by auto. simpl. lia.
    + rewrite filter_cons_True by done. simpl. lia.
Qed.

Lemma remaining_visit (l v : list string) (u : string) :
  u ∈ l → u ∉ v → (remaining l (v ++ [u]) < remaining l v)%nat.
Proof.
  intros Hl Hv. unfold remaining. induction l as [|x l IH]; [by apply elem_of_nil in Hl|].
  destruct (decide (x = u)) as [->|Hne].
  - rewrite filter_cons_False by (intros H; apply H, elem_of_app; right; by left).
    rewrite (filter_cons_True (λ u, u ∉ v)) by done. simpl.
    pose proof (remaining_mono l v (v ++ [u])) as Hm. unfold remaining in Hm.
    assert (length (filter (λ u0, u0 ∉ v ++ [u]) l) ≤ length (filter (λ u0, u0 ∉ v) l))%nat.
    { apply Hm. intros w Hw. apply elem_of_app. by left. }
    lia.
  - apply elem_of_cons in Hl as [->|Hl]; [done|]. specialize (IH Hl).
    destruct (decide (x ∈ v)) as [Hx|Hx].
    + rewrite filter_cons_False by (intros H; apply H, elem_of_app; by left).
      rewrite (filter_cons_False (λ u, u ∉ v)) by auto. exact IH.
    + rewrite filter_cons_True.
      2:{ intros H. apply elem_of_app in H as [H|H]; [done|].
          apply list_elem_of_singleton in H. done. }
      rewrite (filter_cons_True (λ u, u ∉ v)) by done. simpl. lia.
Qed.

Lemma driver_get_run (target : string) (s s' : State) :
  driver_get fetch target s = Done tt s' →
  (∃ d, fetch target = Some d ∧ current_page_url s' = Some (current_url d)) ∧
  visited_links s' = visited_links s.
Proof.
  unfold driver_get, get_driver, bind, gets, some_or, current_page_url, current_document.
  simpl. destruct (driver s) as [drv|]; [|done]. simpl.
  destruct (fetch target) as [d|]; [|done]. simpl.
  case_bool_decide as Hlt; [|done]. intros [= <-]. simpl. split; [|done].
  exists d. split; [done|]. by rewrite list_lookup_insert_eq.
Qed.

Lemma visit_link_no_fuel (recurse : M unit) (link : WebElement) (fuel : nat) (s : State) :
  (∀ s0 u, current_page_url s0 = Some u → u ∈ universe → u ∉ visited_links s0 →
           (remaining universe (visited_links s0) ≤ fuel)%nat → recurse s0 ≠ OutOfFuel) →
  (remaining universe (visited_links s) ≤ fuel)%nat →
  visit_link fetch urljoin hostname recurse link s ≠ OutOfFuel.
Proof.
  intros Hrec HP. unfold visit_link.
  apply no_fuel_bind; [apply total_at; tot|]. intros self_url s1 [-> ->]%gets_run.
  apply no_fuel_bind; [apply total_at; tot|]. intros link_href s1 ->%element_read_run.
  apply no_fuel_bind; [apply total_at; tot|]. intros displayed s1 ->%element_read_run.
  destruct (_ || _); [done|].
  apply no_fuel_bind; [apply total_at; tot|]. intros doc s1 [-> _]%get_document_run.
  apply no_fuel_bind; [apply total_at; tot|]. intros visited s1 [-> _]%gets_run.
  destruct (_ || _); [done|].
  apply no_fuel_bind; [apply total_at; tot|]. intros [] s1 Hs1.
  apply (preserves_run same_visited) in Hs1 as Hv1; [|deep].
  apply no_fuel_bind; [apply total_at; tot|]. intros drv s2 [-> _]%get_driver_run.
  apply no_fuel_bind; [apply total_at; tot|]. intros [] s2 Hs2.
  apply (preserves_run same_visited) in Hs2 as Hv2; [|deep].
  apply no_fuel_bind; [apply total_at; tot|]. intros [] s3 Hs3.
  apply driver_get_run in Hs3 as [(d & Hd & Hurl) Hv3].
  apply no_fuel_bind; [apply total_at; tot|]. intros doc' s4 [-> Hurl']%get_document_run.
  apply no_fuel_bind; [apply total_at; tot|]. intros visited' s4 [-> ->]%gets_run.
  unfold Py.in_list. case_bool_decide as Hin; [apply total_at; tot|].
  apply no_fuel_bind; [apply total_at; tot|]. intros host s4 [-> _]%some_or_run.
  destruct (negb _); [apply total_at; tot|].
  apply (Hrec s3 (current_url doc')); try done.
  - rewrite Hurl in Hurl'. injection Hurl' as <-. by eapply Huniverse.
  - unfold same_visited in *. by rewrite Hv3, Hv2, Hv1.
Qed.

(** X10.  On a finite web the crawl ends: if every page that can be loaded has
    its URL in [universe], [test_page] on a page of [universe] that is not
    visited yet returns or raises as soon as the fuel covers the URLs of
    [universe] that are not visited yet.  Cycles do not matter. *)
Theorem crawl_terminates (fuel : nat) (s : State) (u : string) :
  current_page_url s = Some u → u ∈ universe → u ∉ visited_links s →
  (remaining universe (visited_links s) ≤ fuel)%nat →
  test_page fetch urljoin hostname fuel s ≠ OutOfFuel.
Proof.
  revert s u. induction fuel as [|fuel IH]; intros s u Hcur Hu Hnew Hfuel.
  - pose proof (remaining_visit universe (visited_links s) u Hu Hnew). lia.
  - cbn [test_page].
    apply no_fuel_bind; [apply total_at; tot|]. intros doc s1 [-> Hdoc]%get_document_run.
    rewrite Hcur in Hdoc. injection Hdoc as ->.
    apply no_fuel_bind; [apply total_at; tot|]. intros [] s1 Hs1.
    apply (preserves_run same_visited) in Hs1 as Hv1; [|deep].
    apply no_fuel_bind; [apply total_at; tot|]. intros [] s2 Hs2.
    apply (preserves_run same_visited) in Hs2 as Hv2; [|deep].
    apply no_fuel_bind; [apply total_at; tot|]. intros [] s3 Hs3.
    apply (preserves_run same_visited) in Hs3 as Hv3; [|deep].
    apply no_fuel_bind; [apply total_at; tot|]. intros shots s4 [-> _]%gets_run.
    apply no_fuel_bind; [apply total_at; tot|]. intros [] s4 Hs4.
    apply (preserves_run same_visited) in Hs4 as Hv4; [|deep].
    apply no_fuel_bind; [apply total_at; tot|]. intros following s5 [-> _]%gets_run.
    destruct following; [|done].
    apply no_fuel_bind; [apply total_at; tot|]. intros [] s5 [= <-].
    apply no_fuel_bind; [apply total_at; tot|]. intros link_list s6 Hs6.
    apply (preserves_run same_visited) in Hs6 as Hv6; [|deep].
    apply no_fuel_bind; [|intros; apply total_at; tot].
    apply (for_each_no_fuel
             (λ s', (remaining universe (visited_links s') ≤ fuel)%nat)).
    + intros x s' HP. apply (visit_link_no_fuel _ _ fuel); [|done].
      intros s0 u0 Hc0 Hu0 Hn0 Hf0. by apply (IH s0 u0).
    + intros x s' s'' HP Hrun.
      pose proof (visit_link_visited_grows (test_page fetch urljoin hostname fuel) x
                    (test_page_visited_grows fuel) s') as Hg.
      rewrite Hrun in Hg.
      pose proof (remaining_mono universe (visited_links s') (visited_links s'') Hg). lia.
    + unfold same_visited in *. rewrite Hv6. cbn [visited_links set_visited_links].
      rewrite Hv4, Hv3, Hv2, Hv1.
      pose proof (remaining_visit universe (visited_links s) (current_url doc) Hu Hnew). lia.
Qed.

End CrawlTermination.

(** ** No page is tested twice *)

Lemma string_length_app (a b : string) :
  String.length (a +:+ b) = (String.length a + String.length b)%nat.
Proof. induction a as [|c a IH]; simpl; [done|by rewrite IH]. Qed.

Lemma string_app_inv_tail (u v t : string) : u +:+ t = v +:+ t → u = v.
Proof.
  revert v. induction u as [|a u IH]; intros [|b v] H.
  - done.
  - apply (f_equal String.length) in H. rewrite !string_length_app in H.
    simpl in H. lia.
  - apply (f_equal String.length) in H. rewrite !string_length_app in H.
    simpl in H. lia.
  - simpl in H. injection H as -> H. f_equal. by apply IH.
Qed.

Lemma page_header_inj (u v : string) : page_header u = page_header v → u = v.
Proof.
  unfold page_header. intros [= H]. by apply string_app_inv_tail in H.
Qed.

Lemma preserves_raised {A} (R : State → State → Prop) (m : M A) (s s' : State) (e : Exn) :
  preserves R m → m s = Raised e s' → R s s'.
Proof. intros H E. specialize (H s). unfold preserves_at in H. by rewrite E in H. Qed.

Lemma preserves_checked {A} (m : M A) :
  preserves (appends no_header) m → preserves same_visited m → preserves checked m.
Proof.
  intros H1 H2 s. specialize (H1 s). specialize (H2 s). unfold preserves_at in *.
  by destruct (m s).
Qed.

Lemma no_header_not_in (new : list (list PyVal)) (v : string) :
  Forall (λ l, is_page_header l = false) new → page_header v ∉ new.
Proof.
  intros H Hin. rewrite Forall_forall in H. specialize (H _ Hin).
  by rewrite is_page_header_header in H.
Qed.

Lemma checked_headers (s s' : State) : checked s s' → headers (stdout s') = headers (stdout s).
Proof.
  intros [(_ & new & -> & Hnew) _]. by rewrite headers_app, (headers_none new), app_nil_r.
Qed.

Lemma checked_line (s s' : State) (v : string) :
  checked s s' → page_header v ∈ stdout s' → page_header v ∈ stdout s.
Proof.
  intros [(_ & new & -> & Hnew) _] [H|H]%elem_of_app; [done|].
  by apply no_header_not_in in H.
Qed.

Lemma checked_invariant (s s' : State) : checked s s' → crawl_invariant s → crawl_invariant s'.
Proof.
  intros Hc (Hf & Ht & Hn). pose proof Hc as [[Hcfg _] Hsame]. unfold same_visited in Hsame.
  split_and!.
  - by rewrite Hcfg.
  - intros v Hv. rewrite Hsame. apply Ht. by eapply checked_line.
  - by rewrite (checked_headers s s').
Qed.

Lemma checked_testing (u : string) (s s' : State) : checked s s' → testing u s → testing u s'.
Proof.
  intros Hc (Hf & Hu & Hn & Ht). pose proof Hc as [[Hcfg _] Hsame]. unfold same_visited in Hsame.
  split_and!.
  - by rewrite Hcfg.
  - by rewrite Hsame.
  - by rewrite (checked_headers s s').
  - intros v Hv. rewrite Hsame. apply Ht. by eapply checked_line.
Qed.

Lemma invariant_once (s : State) : crawl_invariant s → NoDup (headers (stdout s)).
Proof. by intros (_ & _ & ?). Qed.

Lemma testing_once (u : string) (s : State) : testing u s → NoDup (headers (stdout s)).
Proof. by intros (_ & _ & ? & _). Qed.

Lemma ensures_once_bind {A B} (m : M A) (f : A → M B) (s : State) :
  match m s with
  | Done a s' => ensures_once (f a s')
  | Raised _ s' => NoDup (headers (stdout s'))
  | OutOfFuel => True
  end → ensures_once (bind m f s).
Proof. unfold bind. by destruct (m s). Qed.

(** A step that prints no header and visits nothing: a property that
    such steps keep moves to the state after it. *)
Lemma ensures_once_step {A B} (P : State → Prop) (m : M A) (f : A → M B) (s : State) :
  (∀ s s', checked s s' → P s → P s') → (∀ s, P s → NoDup (headers (stdout s))) →
  preserves checked m → P s →
  (∀ a s', m s = Done a s' → P s' → ensures_once (f a s')) →
  ensures_once (bind m f s).
Proof.
  intros Hkeep Honce Hq HP Hf. apply ensures_once_bind.
  destruct (m s) as [a s'|e s'|] eqn:E; [| |done].
  - apply Hf; [done|]. eapply Hkeep; [|done]. by eapply (preserves_run checked).
  - apply Honce. eapply Hkeep; [|done]. by eapply (preserves_raised checked).
Qed.

Lemma ensures_once_last (m : M unit) (s : State) :
  preserves checked m → crawl_invariant s → ensures_once (m s).
Proof.
  intros Hq Hinv. specialize (Hq s). unfold preserves_at in Hq.
  destruct (m s) as [a s'|e s'|]; [| |done].
  - by eapply checked_invariant.
  - apply invariant_once. by eapply checked_invariant.
Qed.

Lemma for_each_ensures_once {A} (l : list A) (body : A → M unit) (s : State) :
  (∀ x s', crawl_invariant s' → ensures_once (body x s')) →
  crawl_invariant s → ensures_once (for_each l body s).
Proof.
  intros Hbody. revert s. induction l as [|x l IH]; intros s Hinv; [done|].
  simpl. apply ensures_once_bind. specialize (Hbody x s Hinv).
  destruct (body x s) as [[] s'|e s'|]; [by apply IH|done|done].
Qed.

Ltac checked_tac := apply preserves_checked; [solve [pres] | solve [deep]].

Ltac inv_step :=
  apply (ensures_once_step crawl_invariant);
  [apply checked_invariant | apply invariant_once | checked_tac | done | ].

Section CrawlOnce.

Variable fetch : string → option Document.
Variable urljoin : string → option string → string.
Variable hostname : string → option string.

Hint Resolve driver_get_silent take_screenshot_silent run_checks_no_header : pres.

Lemma visit_link_once (recurse : M unit) (link : WebElement) (s : State) :
  (∀ s0 u, crawl_invariant s0 → current_page_url s0 = Some u → u ∉ visited_links s0 →
           ensures_once (recurse s0)) →
  crawl_invariant s → ensures_once (visit_link fetch urljoin hostname recurse link s).
Proof.
  intros Hrec Hinv. unfold visit_link.
  inv_step. intros self_url s1 _ I1.
  inv_step. intros link_href s2 _ I2. cbv zeta.
  inv_step. intros displayed s3 _ I3.
  destruct (_ || _ || _); [done|].
  inv_step. intros doc s4 _ I4.
  inv_step. intros visited s5 _ I5.
  destruct (_ || _); [done|].
  inv_step. intros [] s6 _ I6.
  inv_step. intros drv s7 _ I7.
  inv_step. intros [] s8 _ I8.
  inv_step. intros [] s9 _ I9.
  inv_step. intros doc' s10 [-> Hcur]%get_document_run I10.
  inv_step. intros visited' s11 [-> ->]%gets_run I11.
  destruct (Py.in_list _ _) eqn:Hin; [apply ensures_once_last; [checked_tac|done]|].
  inv_step. intros host s12 [-> _]%some_or_run I12.
  destruct (negb _); [apply ensures_once_last; [checked_tac|done]|].
  eapply Hrec; [done|done|].
  unfold Py.in_list in Hin. by apply bool_decide_eq_false in Hin.
Qed.

Lemma header_printed (u : string) (s : State) :
  crawl_invariant s → u ∉ visited_links s →
  testing u (set_stdout (stdout s ++ [page_header u]) s).
Proof.
  intros (Hf & Ht & Hn) Hu. split_and!; [done|done| |].
  - simpl. rewrite headers_app. unfold headers at 2.
    rewrite filter_cons_True by apply is_page_header_header. rewrite filter_nil.
    apply NoDup_app. split_and!; [done| |apply NoDup_singleton].
    intros l Hl ->%list_elem_of_singleton.
    apply list_elem_of_filter in Hl as [_ Hl]. by apply Ht in Hl.
  - simpl. intros v [H|H%list_elem_of_singleton]%elem_of_app.
    + right. by apply Ht.
    + left. by apply page_header_inj.
Qed.

Lemma page_visited (u : string) (s : State) :
  testing u s → crawl_invariant (set_visited_links (visited_links s ++ [u]) s).
Proof.
  intros (Hf & Hu & Hn & Ht). split_and!; [done| |done].
  intros v Hv. simpl. apply elem_of_app. destruct (Ht v Hv) as [->|H]; [right; by left|by left].
Qed.

Ltac test_step u :=
  apply (ensures_once_step (testing u));
  [apply checked_testing | apply testing_once | checked_tac | done | ].

Lemma test_page_once (fuel : nat) (s : State) (u : string) :
  crawl_invariant s → current_page_url s = Some u → u ∉ visited_links s →
  ensures_once (test_page fetch urljoin hostname fuel s).
Proof.
  revert s u. induction fuel as [|fuel IH]; intros s u Hinv Hcur Hu; [done|].
  cbn [test_page].
  inv_step. intros doc s1 [-> Hdoc]%get_document_run I1.
  assert (current_url doc = u) as -> by congruence.
  inv_step. intros [] s2 Hs2 I2.
  assert (u ∉ visited_links s2) as Hu2 by (by injection Hs2 as <-).
  clear Hs2. apply ensures_once_bind. rewrite print_run.
  pose proof (header_printed u s2 I2 Hu2) as T3.
  test_step u. intros [] s4 _ T4.
  test_step u. intros shots s5 _ T5.
  test_step u. intros [] s6 _ T6.
  test_step u. intros following s7 [-> ->]%gets_run T7.
  pose proof T7 as [-> _].
  apply ensures_once_bind. unfold modify at 1.
  pose proof (page_visited u s6 T7) as I8.
  inv_step. intros link_list s9 _ I9.
  apply ensures_once_bind.
  pose proof (for_each_ensures_once link_list
    (visit_link fetch urljoin hostname (test_page fetch urljoin hostname fuel)) s9) as Hloop.
  destruct (for_each _ _ s9) as [[] s10|e s10|]; [| |done].
  - apply ensures_once_last; [checked_tac|]. apply Hloop; [|done].
    intros x s' Hs'. apply visit_link_once; [|done]. intros s0 v. apply IH.
  - apply Hloop; [|done].
    intros x s' Hs'. apply visit_link_once; [|done]. intros s0 v. apply IH.
Qed.

(** X9.  From the start of a crawl that follows links, whether it returns or
    raises: no page header is on the console twice. *)
Theorem no_page_tested_twice (fuel : nat) (s : State) (u : string) :
  follow (config s) = true → stdout s = [] → current_page_url s = Some u →
  u ∉ visited_links s →
  match test_page fetch urljoin hostname fuel s with
  | Done _ s' | Raised _ s' => NoDup (headers (stdout s'))
  | OutOfFuel => True
  end.
Proof.
  intros Hf Hout Hcur Hu.
  assert (crawl_invariant s) as Hinv.
  { split_and!; [done| |by rewrite Hout; apply NoDup_nil].
    intros v Hv. rewrite Hout in Hv. by apply elem_of_nil in Hv. }
  pose proof (test_page_once fuel s u Hinv Hcur Hu) as H.
  destruct (test_page _ _ _ _ s) as [[] s'|e s'|]; [by apply invariant_once|done|done].
Qed.

End CrawlOnce.

Lemma Node_ind' (P : Node → Prop) :
  (∀ nm a cs, Forall P cs → P (Tag nm a cs)) →
  (∀ t, P (NavigableString t)) → (∀ t, P (Comment t)) → (∀ t, P (Doctype t)) →
  ∀ n, P n.
Proof.
  intros HT HS HC HD. fix IH 1. intros [nm a cs|t|t|t]; [|apply HS|apply HC|apply HD].
  apply HT. induction cs as [|c cs IHcs]; constructor; [apply IH|exact IHcs].
Qed.

Lemma descendants_tag (here : Ref) (nm : string) (a : gmap string string) (cs : list Node) :
  descendants here (Tag nm a cs) = descendants_children here 0 cs.
Proof. reflexivity. Qed.

Lemma descendants_children_cons (here : Ref) (i : nat) (c : Node) (l : list Node) :
  descendants_children here i (c :: l)
  = (i :: here, c) :: descendants (i :: here) c ++ descendants_children here (S i) l.
Proof. reflexivity. Qed.

Lemma descendants_leaf (here : Ref) (n : Node) : is_tag n = false → descendants here n = [].
Proof. by destruct n. Qed.

Lemma node_at_walk (root : Node) (r : Ref) : node_at root r = walk root (rev r).
Proof.
  assert (Happ : ∀ p par i, walk par (p ++ [i])
                            = match walk par p with
                              | Some n => node_contents n !! i
                              | None => None
                              end).
  { induction p as [|j p IH]; intros par i; simpl.
    - by destruct (node_contents par !! i).
    - destruct (node_contents par !! j); [apply IH|done]. }
  induction r as [|i p IH]; [done|]. simpl. by rewrite Happ, IH.
Qed.

(** Every element that [descendants] lists is at the place its reference
    says. *)
Lemma descendants_node_at (root : Node) :
  ∀ n here, node_at root here = Some n →
    ∀ e, e ∈ descendants here n → node_at root e.1 = Some e.2.
Proof.
  induction n as [nm a cs IH| | |] using Node_ind'; intros here Hhere e He;
    try (by apply elem_of_nil in He).
  rewrite descendants_tag in He.
  assert (Hgen : ∀ l i, (∀ k c, l !! k = Some c → cs !! (i + k)%nat = Some c) →
                        Forall (λ c, ∀ here, node_at root here = Some c →
                                  ∀ e, e ∈ descendants here c → node_at root e.1 = Some e.2) l →
                        e ∈ descendants_children here i l → node_at root e.1 = Some e.2).
  { clear He. induction l as [|c l IHl]; intros i Hl HF He; [by apply elem_of_nil in He|].
    rewrite descendants_children_cons in He. inversion HF as [|? ? Hc HF']; subst.
    assert (Hci : node_at root (i :: here) = Some c).
    { simpl. rewrite Hhere. simpl. specialize (Hl 0%nat c eq_refl).
      by rewrite Nat.add_0_r in Hl. }
    apply elem_of_cons in He as [->|He]; [done|].
    apply elem_of_app in He as [He|He].
    - by eapply Hc.
    - apply (IHl (S i)); [|done|done].
      intros k c' Hk. specialize (Hl (S k) c' Hk). by rewrite Nat.add_succ_r in Hl. }
  apply (Hgen cs 0%nat); [by intros k c Hk|done|done].
Qed.

Lemma descendants_ref_nonempty (n : Node) (here : Ref) (e : Element) :
  e ∈ descendants here n → ∃ i p, e.1 = i :: p.
Proof.
  revert here e. induction n as [nm a cs IH| | |] using Node_ind'; intros here e He;
    try (by apply elem_of_nil in He).
  rewrite descendants_tag in He. generalize dependent 0%nat.
  induction cs as [|c cs IHcs]; intros i He; [by apply elem_of_nil in He|].
  rewrite descendants_children_cons in He. inversion IH as [|? ? Hc HF']; subst.
  apply elem_of_cons in He as [->|He]; [by eexists _, _|].
  apply elem_of_app in He as [He|He]; [by eapply Hc|by eapply IHcs].
Qed.

(** Conversely, every place below [n] is listed. *)
Lemma walk_descendants (n : Node) :
  ∀ here path x, path ≠ [] → walk n path = Some x →
    (rev path ++ here, x) ∈ descendants here n.
Proof.
  induction n as [nm a cs IH| | |] using Node_ind'; intros here path x Hne Hw;
    try (destruct path as [|i rest]; [done|]; simpl in Hw; try rewrite lookup_nil in Hw; done).
  destruct path as [|i rest]; [done|]. clear Hne. simpl in Hw.
  destruct (cs !! i) as [c|] eqn:Hi; [|done].
  rewrite descendants_tag.
  assert (Hgen : ∀ l j k, l !! k = Some c →
            Forall (λ c, ∀ here path x, path ≠ [] → walk c path = Some x →
                      (rev path ++ here, x) ∈ descendants here c) l →
            (rev (((j + k)%nat) :: rest) ++ here, x) ∈ descendants_children here j l).
  { induction l as [|c' l IHl]; intros j k Hk HF; [by rewrite lookup_nil in Hk|].
    rewrite descendants_children_cons. inversion HF as [|? ? Hc HF']; subst.
    destruct k as [|k].
    - injection Hk as ->. rewrite Nat.add_0_r.
      destruct rest as [|i' rest'].
      + simpl in Hw. injection Hw as ->. simpl. by left.
      + right. apply elem_of_app. left.
        replace (rev (j :: i' :: rest') ++ here) with (rev (i' :: rest') ++ j :: here)
          by (simpl; by rewrite <- !app_assoc).
        by apply Hc.
    - right. apply elem_of_app. right. replace (j + S k)%nat with (S j + k)%nat by lia.
      by apply IHl. }
  apply (Hgen cs 0%nat i); done.
Qed.

Lemma node_at_descendants (root : Node) (r : Ref) (x : Node) :
  r ≠ [] → node_at root r = Some x → (r, x) ∈ descendants [] root.
Proof.
  intros Hne Hat. rewrite node_at_walk in Hat.
  pose proof (walk_descendants root [] (rev r) x) as H.
  rewrite rev_involutive, app_nil_r in H. apply H; [|done].
  intros E. apply Hne. by rewrite <- (rev_involutive r), E.
Qed.

(** ** [xpath_soup] tells elements apart *)

Lemma string_app_cons (c : ascii) (a b : string) : String c a +:+ b = String c (a +:+ b).
Proof. reflexivity. Qed.

Lemma string_app_assoc (a b c : string) : (a +:+ b) +:+ c = a +:+ (b +:+ c).
Proof. induction a as [|x a IH]; [done|]. by rewrite !string_app_cons, IH. Qed.

(** Splitting at the first occurrence of a character. *)
Lemma free_of_split (c : ascii) (x y a b : string) :
  free_of c x = true → free_of c y = true →
  x +:+ String c a = y +:+ String c b → x = y ∧ a = b.
Proof.
  revert y.
  induction x as [|x0 x IH]; intros [|y0 y] Hx Hy H; rewrite ?string_app_cons in H; simpl in *.
  - by injection H.
  - injection H as <- _. by rewrite Ascii.eqb_refl in Hy.
  - injection H as -> _. by rewrite Ascii.eqb_refl in Hx.
  - injection H as -> H. apply andb_true_iff in Hx as [_ Hx].
    apply andb_true_iff in Hy as [_ Hy]. destruct (IH y Hx Hy H) as [-> ->]. done.
Qed.

Lemma free_of_app (c : ascii) (a b : string) :
  free_of c (a +:+ b) = free_of c a && free_of c b.
Proof.
  induction a as [|x a IH]; [done|]. rewrite string_app_cons. simpl.
  by rewrite IH, andb_assoc.
Qed.

(** The digits of ['%d' % n] hold no slash, and tell the numbers apart. *)
Lemma fmt_d_no_slash (n : nat) : free_of "/" (Py.fmt_d n) = true.
Proof. unfold Py.fmt_d. induction (Nat.to_uint n); simpl; done. Qed.

Lemma fmt_d_inj (n m : nat) : Py.fmt_d n = Py.fmt_d m → n = m.
Proof.
  unfold Py.fmt_d. intros H.
  apply (f_equal NilEmpty.uint_of_string) in H. rewrite !NilEmpty.usu in H.
  injection H as H. apply (f_equal Nat.of_uint) in H.
  by rewrite !DecimalNat.Unsigned.of_to in H.
Qed.

(** Counting the siblings of one name before a position. *)
Lemma count_take_S (P : Node → bool) (cs : list Node) (i : nat) :
  (length (filter (λ c, P c = true) (take i cs))
   ≤ length (filter (λ c, P c = true) (take (S i) cs)))%nat.
Proof.
  destruct (cs !! i) as [c|] eqn:E.
  - rewrite (take_S_r _ _ _ E), filter_app, length_app. lia.
  - apply lookup_ge_None in E. rewrite !take_ge by lia. done.
Qed.

Lemma count_take_mono (P : Node → bool) (cs : list Node) (i j : nat) :
  (i ≤ j)%nat →
  (length (filter (λ c, P c = true) (take i cs))
   ≤ length (filter (λ c, P c = true) (take j cs)))%nat.
Proof.
  induction 1 as [|j _ IH]; [done|]. etransitivity; [exact IH|apply count_take_S].
Qed.

Lemma count_take_hit (P : Node → bool) (cs : list Node) (i : nat) (c : Node) :
  cs !! i = Some c → P c = true →
  length (filter (λ c, P c = true) (take (S i) cs))
  = S (length (filter (λ c, P c = true) (take i cs))).
Proof.
  intros E Hc. rewrite (take_S_r _ _ _ E), filter_app, length_app.
  rewrite filter_cons_True by done. simpl. lia.
Qed.

Lemma rank_inj (P : Node → bool) (cs : list Node) (i1 i2 : nat) (c1 c2 : Node) :
  cs !! i1 = Some c1 → P c1 = true → cs !! i2 = Some c2 → P c2 = true →
  length (filter (λ c, P c = true) (take i1 cs))
  = length (filter (λ c, P c = true) (take i2 cs)) →
  i1 = i2.
Proof.
  intros E1 H1 E2 H2 Hr.
  destruct (Nat.lt_trichotomy i1 i2) as [Hlt|[->|Hlt]]; [|done|].
  - pose proof (count_take_hit P cs i1 c1 E1 H1).
    pose proof (count_take_mono P cs (S i1) i2 Hlt). lia.
  - pose proof (count_take_hit P cs i2 c2 E2 H2).
    pose proof (count_take_mono P cs (S i2) i1 Hlt). lia.
Qed.

Lemma only_one_inj (P : Node → bool) (cs : list Node) (i1 i2 : nat) (c1 c2 : Node) :
  cs !! i1 = Some c1 → P c1 = true → cs !! i2 = Some c2 → P c2 = true →
  1%nat = length (filter (λ c, P c = true) cs) → i1 = i2.
Proof.
  intros E1 H1 E2 H2 Hone.
  assert (Hall : ∀ i, (length (filter (λ c, P c = true) (take i cs))
                       ≤ length (filter (λ c, P c = true) cs))%nat).
  { intros i. rewrite <- (firstn_all cs) at 2.
    destruct (Nat.le_gt_cases i (length cs)); [by apply count_take_mono|].
    rewrite (take_ge cs i) by lia. by rewrite firstn_all. }
  destruct (Nat.lt_trichotomy i1 i2) as [Hlt|[->|Hlt]]; [|done|].
  - pose proof (count_take_hit P cs i1 c1 E1 H1).
    pose proof (count_take_hit P cs i2 c2 E2 H2).
    pose proof (count_take_mono P cs (S i1) i2 Hlt). pose proof (Hall (S i2)). lia.
  - pose proof (count_take_hit P cs i1 c1 E1 H1).
    pose proof (count_take_hit P cs i2 c2 E2 H2).
    pose proof (count_take_mono P cs (S i2) i1 Hlt). pose proof (Hall (S i1)). lia.
Qed.

Lemma plain_name_no_slash (nm : string) : plain_name nm = true → free_of "/" nm = true.
Proof. unfold plain_name. by intros [? _]%andb_true_iff. Qed.

Lemma plain_name_no_bracket (nm : string) : plain_name nm = true → free_of "[" nm = true.
Proof. unfold plain_name. by intros [_ ?]%andb_true_iff. Qed.

Lemma xpath_component_no_slash (cs : list Node) (i : nat) (nm : string) :
  plain_name nm = true → free_of "/" (xpath_component cs i nm) = true.
Proof.
  intros Hnm%plain_name_no_slash. unfold xpath_component. case_bool_decide; [done|].
  by rewrite !free_of_app, Hnm, fmt_d_no_slash.
Qed.

(** Among the children of one element, the component tells the tags
    apart. *)
Lemma xpath_component_inj (cs : list Node) (i1 i2 : nat) (nm1 nm2 : string)
    (a1 a2 : gmap string string) (cs1 cs2 : list Node) :
  cs !! i1 = Some (Tag nm1 a1 cs1) → cs !! i2 = Some (Tag nm2 a2 cs2) →
  plain_name nm1 = true → plain_name nm2 = true →
  xpath_component cs i1 nm1 = xpath_component cs i2 nm2 → i1 = i2.
Proof.
  intros E1 E2 Hp1%plain_name_no_bracket Hp2%plain_name_no_bracket.
  assert (Hn1 : named nm1 (Tag nm1 a1 cs1) = true) by (simpl; by apply bool_decide_eq_true).
  assert (Hn2 : named nm2 (Tag nm2 a2 cs2) = true) by (simpl; by apply bool_decide_eq_true).
  unfold xpath_component.
  case_bool_decide as D1; case_bool_decide as D2; intros Hx.
  - subst nm2. by eapply (only_one_inj (named nm1)).
  - subst nm1. rewrite free_of_app in Hp1. simpl in Hp1.
    by rewrite andb_false_r in Hp1.
  - subst nm2. rewrite free_of_app in Hp2. simpl in Hp2.
    by rewrite andb_false_r in Hp2.
  - change ("[" +:+ ?x) with (String "[" x) in Hx.
    apply free_of_split in Hx as [<- Hx]; [|done|done].
    apply string_app_inv_tail in Hx. apply fmt_d_inj in Hx. injection Hx as Hr.
    by eapply (rank_inj (named nm1)).
Qed.

(** ['/'.join] of components without a slash can be split again. *)
Lemma join_slash_cons (x y : string) (l : list string) :
  Py.join "/" (x :: y :: l) = x +:+ String "/" (Py.join "/" (y :: l)).
Proof. reflexivity. Qed.

Lemma join_slash_inj (l1 l2 : list string) :
  l1 ≠ [] → l2 ≠ [] →
  Forall (λ x, free_of "/" x = true) l1 → Forall (λ x, free_of "/" x = true) l2 →
  Py.join "/" l1 = Py.join "/" l2 → l1 = l2.
Proof.
  revert l2. induction l1 as [|x l1 IH]; intros l2 Hne1 Hne2 H1 H2 H; [done|].
  destruct l2 as [|y l2]; [done|].
  inversion H1 as [|? ? Hx H1']; subst. inversion H2 as [|? ? Hy H2']; subst.
  destruct l1 as [|x2 l1], l2 as [|y2 l2].
  - simpl in H. by subst.
  - rewrite join_slash_cons in H. simpl in H. subst x.
    rewrite free_of_app in Hx. simpl in Hx. by rewrite andb_false_r in Hx.
  - rewrite join_slash_cons in H. simpl in H. subst y.
    rewrite free_of_app in Hy. simpl in Hy. by rewrite andb_false_r in Hy.
  - rewrite !join_slash_cons in H. apply free_of_split in H as [-> H]; [|done|done].
    f_equal. by apply IH.
Qed.

Lemma walk_tag_child (par : Node) (i : nat) (rest : list nat) (t : Node) :
  walk par (i :: rest) = Some t → is_tag t = true →
  ∃ nm a cs, node_contents par !! i = Some (Tag nm a cs) ∧ walk (Tag nm a cs) rest = Some t.
Proof.
  simpl. destruct (node_contents par !! i) as [c|]; [|done]. intros Hw Ht.
  destruct c as [nm a cs|x|x|x]; [by eexists _, _, _| | |];
    (destruct rest as [|j rest]; simpl in Hw; [by injection Hw as <-|done]).
Qed.

Lemma xpath_components_walk (par : Node) :
  ∀ p1 p2 t1 t2,
    (∀ path nm a cs, path ≠ [] → walk par path = Some (Tag nm a cs) → plain_name nm = true) →
    walk par p1 = Some t1 → is_tag t1 = true → walk par p2 = Some t2 → is_tag t2 = true →
    xpath_components par p1 = xpath_components par p2 → p1 = p2.
Proof.
  intros p1. revert par. induction p1 as [|i1 rest1 IH]; intros par p2 t1 t2 Hnames W1 T1 W2 T2 H.
  - destruct p2 as [|i2 rest2]; [done|].
    destruct (walk_tag_child _ _ _ _ W2 T2) as (nm & a & cs & E & _).
    simpl in H. by rewrite E in H.
  - destruct (walk_tag_child _ _ _ _ W1 T1) as (nm1 & a1 & cs1 & E1 & W1').
    destruct p2 as [|i2 rest2]; [simpl in H; by rewrite E1 in H|].
    destruct (walk_tag_child _ _ _ _ W2 T2) as (nm2 & a2 & cs2 & E2 & W2').
    simpl in H. rewrite E1, E2 in H. injection H as Hc Hrest.
    assert (i1 = i2) as <-.
    { eapply xpath_component_inj; [exact E1|exact E2| | |exact Hc].
      - apply (Hnames [i1] nm1 a1 cs1); [done|]. simpl. by rewrite E1.
      - apply (Hnames [i2] nm2 a2 cs2); [done|]. simpl. by rewrite E2. }
    rewrite E1 in E2. injection E2 as <- <- <-. f_equal.
    eapply (IH (Tag nm1 a1 cs1)); [|exact W1'|exact T1|exact W2'|exact T2|exact Hrest].
    intros path nm a cs Hne Hw. apply (Hnames (i1 :: path) nm a cs); [done|].
    simpl. by rewrite E1.
Qed.

Lemma xpath_components_no_slash (par : Node) :
  ∀ p t,
    (∀ path nm a cs, path ≠ [] → walk par path = Some (Tag nm a cs) → plain_name nm = true) →
    walk par p = Some t → is_tag t = true →
    Forall (λ x, free_of "/" x = true) (xpath_components par p)
    ∧ length (xpath_components par p) = length p.
Proof.
  intros p. revert par. induction p as [|i rest IH]; intros par t Hnames W T; [done|].
  destruct (walk_tag_child _ _ _ _ W T) as (nm & a & cs & E & W').
  simpl. rewrite E.
  destruct (IH (Tag nm a cs) t) as [HF Hlen]; [|done|done|].
  { intros path nm' a' cs' Hne Hw. apply (Hnames (i :: path) nm' a' cs'); [done|].
    simpl. by rewrite E. }
  split; [|simpl; by rewrite Hlen]. constructor; [|done].
  apply xpath_component_no_slash. apply (Hnames [i] nm a cs); [done|]. simpl. by rewrite E.
Qed.

Lemma plain_names_walk (pg : Node) :
  plain_names pg = true →
  ∀ path nm a cs, path ≠ [] → walk pg path = Some (Tag nm a cs) → plain_name nm = true.
Proof.
  intros H path nm a cs Hne Hw. unfold plain_names in H. rewrite forallb_forall in H.
  pose proof (walk_descendants pg [] path _ Hne Hw) as Hin.
  apply list_elem_of_In in Hin. by specialize (H _ Hin).
Qed.

(** X19.  Two tags of a page, neither of them the root, have the same xpath
    only if they are the same element. *)
Theorem xpath_soup_injective (pg : Node) (r1 r2 : Ref) :
  plain_names pg = true → r1 ≠ [] → r2 ≠ [] →
  is_tag <$> node_at pg r1 = Some true → is_tag <$> node_at pg r2 = Some true →
  xpath_soup pg (Some r1) = xpath_soup pg (Some r2) → r1 = r2.
Proof.
  intros Hplain Hne1 Hne2 H1 H2 Hx.
  pose proof (plain_names_walk pg Hplain) as Hnames.
  rewrite node_at_walk in H1, H2.
  destruct (walk pg (rev r1)) as [t1|] eqn:W1; [|done].
  destruct (walk pg (rev r2)) as [t2|] eqn:W2; [|done].
  injection H1 as T1. injection H2 as T2.
  destruct (xpath_components_no_slash pg _ _ Hnames W1 T1) as [F1 L1].
  destruct (xpath_components_no_slash pg _ _ Hnames W2 T2) as [F2 L2].
  unfold xpath_soup in Hx.
  destruct (xpath_components pg (rev r1)) as [|x1 l1] eqn:C1.
  { rewrite length_rev in L1. by destruct r1. }
  destruct (xpath_components pg (rev r2)) as [|x2 l2] eqn:C2.
  { rewrite length_rev in L2. by destruct r2. }
  assert (Hj : Py.join "/" (x1 :: l1) = Py.join "/" (x2 :: l2)).
  { change ("/" +:+ ?x) with (String "/" x) in Hx. injection Hx as Hx. exact Hx. }
  clear Hx. rename Hj into Hx.
  apply join_slash_inj in Hx; [|done|done|done|done].
  rewrite <- C1, <- C2 in Hx.
  apply (xpath_components_walk pg _ _ _ _ Hnames W1 T1 W2 T2) in Hx.
  by rewrite <- (rev_involutive r1), Hx, rev_involutive.
Qed.

(** ** What [extract_texts] removes and what it returns *)

Lemma extract_all_tag (P : Node → bool) (nm : string) (a : gmap string string) (cs : list Node) :
  extract_all P (Tag nm a cs) = Tag nm a (extract_all_children P cs).
Proof. reflexivity. Qed.

Lemma extract_first_tag (P : Node → bool) (nm : string) (a : gmap string string)
    (cs : list Node) :
  extract_first P (Tag nm a cs) = Tag nm a <$> extract_first_children P cs.
Proof.
  change (extract_first P (Tag nm a cs))
    with (match extract_first_children P cs with
          | Some cs' => Some (Tag nm a cs')
          | None => None
          end).
  by destruct (extract_first_children P cs).
Qed.

Lemma descendants_nodes (n : Node) :
  ∀ here here', (descendants here n).*2 = (descendants here' n).*2.
Proof.
  induction n as [nm a cs IH| | |] using Node_ind'; intros here here'; try done.
  rewrite !descendants_tag. generalize 0%nat.
  induction IH as [|c cs Hc _ IHcs]; intros i; [done|].
  rewrite !descendants_children_cons, !fmap_cons, !fmap_app. simpl.
  f_equal. f_equal; [apply Hc|apply IHcs].
Qed.

Lemma descendants_children_nodes (cs : list Node) (here here' : Ref) (i j : nat) :
  (descendants_children here i cs).*2 = (descendants_children here' j cs).*2.
Proof.
  revert i j. induction cs as [|c cs IH]; intros i j; [done|].
  rewrite !descendants_children_cons, !fmap_cons, !fmap_app. simpl.
  f_equal. f_equal; [apply descendants_nodes|apply IH].
Qed.

Lemma free_from_nodes (P : Node → bool) (n : Node) (here : Ref) :
  free_from P n ↔ Forall (λ x, P x = false) (descendants here n).*2.
Proof.
  unfold free_from. rewrite (descendants_nodes n here []). by rewrite Forall_fmap.
Qed.

Lemma free_from_tag (P : Node → bool) (nm : string) (a : gmap string string) (cs : list Node) :
  free_from P (Tag nm a cs) ↔ Forall (λ c, P c = false ∧ free_from P c) cs.
Proof.
  rewrite (free_from_nodes P _ []), descendants_tag. generalize 0%nat.
  induction cs as [|c cs IH]; intros i; [by split; constructor|].
  rewrite descendants_children_cons, fmap_cons, fmap_app, Forall_cons, Forall_app. simpl.
  rewrite <- (free_from_nodes P c [i]), (IH (S i)), Forall_cons. tauto.
Qed.

Lemma free_from_leaf (P : Node → bool) (n : Node) : is_tag n = false → free_from P n.
Proof. intros H. unfold free_from. rewrite descendants_leaf by done. constructor. Qed.

Lemma shallow_extract_all (P Q : Node → bool) (x : Node) :
  shallow P → P (extract_all Q x) = P x.
Proof. intros HP. destruct x; [|done..]. rewrite extract_all_tag. apply HP. Qed.

Lemma shallow_extract_first (P Q : Node → bool) (x x' : Node) :
  shallow P → extract_first Q x = Some x' → P x' = P x.
Proof.
  intros HP H. destruct x; [|done..]. rewrite extract_first_tag in H.
  destruct (extract_first_children Q contents); [|done]. injection H as <-. apply HP.
Qed.

(** After [extract()] on every node that satisfies [P], none is left. *)
Lemma extract_all_free (P : Node → bool) (n : Node) :
  shallow P → free_from P (extract_all P n).
Proof.
  intros HP. induction n as [nm a cs IH| | |] using Node_ind';
    try (by apply free_from_leaf).
  rewrite extract_all_tag. apply free_from_tag.
  induction IH as [|c cs Hc _ IHcs]; [constructor|]. simpl.
  destruct (P c) eqn:E; [exact IHcs|]. constructor; [|exact IHcs].
  split; [by rewrite shallow_extract_all|exact Hc].
Qed.

(** Removing other nodes brings none back. *)
Lemma extract_all_keeps_free (P Q : Node → bool) (n : Node) :
  shallow P → free_from P n → free_from P (extract_all Q n).
Proof.
  intros HP. induction n as [nm a cs IH| | |] using Node_ind'; intros Hn;
    try (by apply free_from_leaf).
  rewrite extract_all_tag. apply free_from_tag. apply free_from_tag in Hn.
  induction IH as [|c cs Hc _ IHcs]; [constructor|]. simpl.
  inversion Hn as [|? ? [Hpc Hfc] Hn']; subst.
  destruct (Q c); [by apply IHcs|]. constructor; [|by apply IHcs].
  split; [by rewrite shallow_extract_all|by apply Hc].
Qed.

Lemma extract_first_keeps_free (P Q : Node → bool) (n n' : Node) :
  shallow P → free_from P n → extract_first Q n = Some n' → free_from P n'.
Proof.
  intros HP. revert n'. induction n as [nm a cs IH| | |] using Node_ind'; intros n' Hn H;
    try done.
  rewrite extract_first_tag in H.
  destruct (extract_first_children Q cs) as [cs'|] eqn:E; [|done]. injection H as <-.
  apply free_from_tag. apply free_from_tag in Hn. revert cs' E.
  induction IH as [|c cs Hc _ IHcs]; intros cs' E; [done|]. simpl in E.
  inversion Hn as [|? ? [Hpc Hfc] Hn']; subst.
  destruct (Q c).
  { by injection E as <-. }
  destruct (extract_first Q c) as [c'|] eqn:Ec.
  { injection E as <-. constructor; [|done].
    split; [by rewrite (shallow_extract_first P Q c c')|by eapply Hc]. }
  destruct (extract_first_children Q cs) as [cs''|] eqn:E'; [|done].
  injection E as <-. constructor; [done|]. by apply IHcs.
Qed.

Lemma shallow_named_any (nms : list string) : shallow (named_any nms).
Proof. by intros nm a cs cs'. Qed.

Lemma shallow_is_comment : shallow is_comment.
Proof. by intros nm a cs cs'. Qed.

Lemma extract_texts_page (pg : Node) :
  (extract_texts pg).1
  = let soup2 := extract_all is_comment
                   (extract_all (named_any ["script"; "style"; "title"; "noscript"]) pg) in
    default soup2 (extract_first is_doctype soup2).
Proof. reflexivity. Qed.

Lemma extract_texts_free (pg : Node) :
  free_from (named_any ["script"; "style"; "title"; "noscript"]) (extract_texts pg).1
  ∧ free_from is_comment (extract_texts pg).1.
Proof.
  rewrite extract_texts_page. cbv zeta.
  set (names := ["script"; "style"; "title"; "noscript"]).
  set (soup2 := extract_all is_comment (extract_all (named_any names) pg)).
  assert (H2 : free_from (named_any names) soup2 ∧ free_from is_comment soup2).
  { split.
    - apply extract_all_keeps_free; [apply shallow_named_any|].
      apply extract_all_free, shallow_named_any.
    - apply extract_all_free, shallow_is_comment. }
  destruct (extract_first is_doctype soup2) as [soup3|] eqn:E; [|exact H2]. simpl.
  destruct H2 as [Hn Hc]. split.
  - eapply extract_first_keeps_free; [apply shallow_named_any|exact Hn|exact E].
  - eapply extract_first_keeps_free; [apply shallow_is_comment|exact Hc|exact E].
Qed.

Lemma filter_none {A} (P : A → Prop) `{!∀ x, Decision (P x)} (l : list A) :
  Forall (λ x, ¬ P x) l → filter P l = [].
Proof.
  induction 1 as [|x l Hx _ IH]; [done|]. by rewrite filter_cons_False.
Qed.

(** X21.  The page that [extract_texts] leaves behind holds no [script],
    [style], [title] or [noscript] element and no comment. *)
Theorem extract_texts_removes (pg : Node) :
  find_all_names (soup (extract_texts pg).1) ["script"; "style"; "title"; "noscript"] = [] ∧
  filter (λ x, is_comment x.2 = true) (find_all_text (soup (extract_texts pg).1)) = [].
Proof.
  destruct (extract_texts_free pg) as [Hn Hc].
  unfold find_all_names, find_all_text, soup. cbn [fst snd]. split.
  - apply filter_none. eapply Forall_impl; [exact Hn|]. intros e He. by rewrite He.
  - apply filter_none. apply Forall_forall. intros e [_ He]%list_elem_of_filter.
    unfold free_from in Hc. rewrite Forall_forall in Hc. rewrite (Hc e He). done.
Qed.

Lemma omap_step {A B} (f : A → option B) (x : A) (l : list A) :
  omap f (x :: l) = match f x with Some y => y :: omap f l | None => omap f l end.
Proof. reflexivity. Qed.

(** X22.  What [extract_texts] returns: for every string left on the page that
    is not blank, in document order, the element that holds it.  Each is a
    tag at the place its reference says; an element with several such
    strings is listed once for each. *)
Theorem extract_texts_returns (pg : Node) :
  Forall2 (λ text e, parent (extract_texts pg).1 text = Some e ∧
                     node_at (extract_texts pg).1 e.1 = Some e.2 ∧
                     is_tag e.2 = true ∧
                     ∃ i, text.1 = i :: e.1 ∧ node_contents e.2 !! i = Some text.2)
          (filter (λ text, shown_text text.2 = true)
                  (find_all_text (soup (extract_texts pg).1)))
          (extract_texts pg).2.
Proof.
  assert (E : (extract_texts pg).2
              = omap (λ text, if shown_text text.2 then parent (extract_texts pg).1 text
                              else None)
                     (find_all_text (soup (extract_texts pg).1))) by reflexivity.
  rewrite E. clear E. set (cleaned := (extract_texts pg).1).
  assert (Hall : Forall (λ e, node_at cleaned e.1 = Some e.2) (find_all_text (soup cleaned))).
  { apply Forall_forall. intros e [_ He]%list_elem_of_filter.
    by apply (descendants_node_at cleaned cleaned []). }
  assert (Hne : Forall (λ e, ∃ i p, e.1 = i :: p) (find_all_text (soup cleaned))).
  { apply Forall_forall. intros e [_ He]%list_elem_of_filter.
    by eapply descendants_ref_nonempty. }
  induction (find_all_text (soup cleaned)) as [|text l IH]; [constructor|].
  inversion Hall as [|? ? Ht Hall']; subst. inversion Hne as [|? ? (i & p & Hr) Hne']; subst.
  destruct text as [r x]. simpl in Ht, Hr. subst r.
  rewrite omap_step. cbn [snd]. destruct (shown_text x) eqn:Es.
  - rewrite filter_cons_True by done.
    assert (Hp : ∃ n, node_at cleaned p = Some n ∧ node_contents n !! i = Some x).
    { simpl in Ht. destruct (node_at cleaned p) as [n|]; [|done]. by exists n. }
    destruct Hp as (n & Hn & Hi).
    match goal with
    | |- context [parent cleaned ?t] => assert (Hpar : parent cleaned t = Some (p, n))
    end.
    { unfold parent. simpl. by rewrite Hn. }
    rewrite Hpar. constructor; [|by apply IH].
    split; [done|]. split; [done|]. split.
    + destruct n; [done|simpl in Hi; try rewrite lookup_nil in Hi; done..].
    + by exists i.
  - rewrite filter_cons_False by (simpl; by rewrite Es). by apply IH.
Qed.

(** White space is that of [str.strip]: a paragraph that holds a no-break
    space and nothing else is passed over, like one that holds blanks. *)
Example extract_texts_skips_unicode_space :
  Py.strip_is_empty (String "194" (String "160" "")) = true ∧
  Py.strip_is_empty (String "227" (String "128" (String "128" " "))) = true ∧
  Py.strip_is_empty (String "195" (String "160" "")) = false ∧
  (extract_texts nbsp_page).2 = [([1; 0; 0]%nat, Tag "p" ∅ [NavigableString "Hi"])].
Proof. repeat split; vm_compute; reflexivity. Qed.

(** ** The page-only checks, counted *)

Lemma count_nil {A} (P : A → bool) : count P [] = 0.
Proof. reflexivity. Qed.

Lemma count_cons {A} (P : A → bool) (x : A) (l : list A) :
  count P (x :: l) = (if P x then 1 else 0) + count P l.
Proof.
  unfold count. destruct (P x) eqn:E.
  - rewrite filter_cons_True by done. simpl length. lia.
  - rewrite filter_cons_False by (by rewrite E). lia.
Qed.

Lemma count_negb {A} (P : A → bool) (l : list A) :
  count P l + count (λ x, negb (P x)) l = Z.of_nat (length l).
Proof.
  induction l as [|x l IH]; [done|]. rewrite !count_cons. simpl length.
  destruct (P x); simpl; lia.
Qed.

Lemma passes_cons (f : Finding) (fs : list Finding) :
  passes (f :: fs) = (if f.1 then 1 else 0) + passes fs.
Proof.
  change (f :: fs) with ([f] ++ fs). rewrite passes_app. f_equal.
  destruct f as [[] ln]; reflexivity.
Qed.

Lemma fails_cons (f : Finding) (fs : list Finding) :
  fails (f :: fs) = (if f.1 then 0 else 1) + fails fs.
Proof.
  change (f :: fs) with ([f] ++ fs). rewrite fails_app. f_equal.
  destruct f as [[] ln]; reflexivity.
Qed.

Lemma passes_fmap {A} (g : A → Finding) (l : list A) :
  passes (g <$> l) = count (λ x, (g x).1) l.
Proof.
  induction l as [|x l IH]; [done|]. by rewrite fmap_cons, passes_cons, count_cons, IH.
Qed.

Lemma fails_fmap {A} (g : A → Finding) (l : list A) :
  fails (g <$> l) = count (λ x, negb (g x).1) l.
Proof.
  induction l as [|x l IH]; [done|]. rewrite fmap_cons, fails_cons, count_cons, IH.
  by destruct ((g x).1).
Qed.

Lemma count_ext {A} (P Q : A → bool) (l : list A) :
  (∀ x, P x = Q x) → count P l = count Q l.
Proof.
  intros H. induction l as [|x l IH]; [done|]. by rewrite !count_cons, IH, H.
Qed.

Lemma tally_counters (cat : string) (fs : list Finding) (s : State) (c w : Z) :
  correct s !! cat = Some c → wrong s !! cat = Some w →
  correct (tally cat fs s) !! cat = Some (c + passes fs) ∧
  wrong (tally cat fs s) !! cat = Some (w + fails fs) ∧
  stdout (tally cat fs s) = stdout s ++ fs.*2.
Proof.
  intros Hc Hw. unfold tally. simpl. rewrite !lookup_alter_eq, Hc, Hw. done.
Qed.

Lemma tally_other (cat k : string) (fs : list Finding) (s : State) :
  k ≠ cat →
  correct (tally cat fs s) !! k = correct s !! k ∧ wrong (tally cat fs s) !! k = wrong s !! k.
Proof. intros H. unfold tally. simpl. by rewrite !lookup_alter_ne. Qed.

(** X12.  [check_doc_language]: without a parsed page, or on a page without an
    [html] element, it raises [AttributeError] and leaves everything as
    it was; otherwise it prints one line and counts the first [html]
    element once, as correct exactly when its [lang] is present and not
    empty. *)
Theorem check_doc_language_outcomes (s : State) (c w : Z) :
  correct s !! "doc_language" = Some c → wrong s !! "doc_language" = Some w →
  match page s ≫= (λ pg, find (soup pg) "html") with
  | None => check_doc_language s = Raised AttributeError s
  | Some html =>
      ∃ s', check_doc_language s = Done tt s' ∧
            length (stdout s') = S (length (stdout s)) ∧
            ((nonempty_attr html.2 "lang" ∧ correct s' !! "doc_language" = Some (c + 1)
              ∧ wrong s' !! "doc_language" = Some w)
             ∨ (¬ nonempty_attr html.2 "lang" ∧ correct s' !! "doc_language" = Some c
                ∧ wrong s' !! "doc_language" = Some (w + 1)))
  end.
Proof.
  intros Hc Hw. destruct (page s) as [pg|] eqn:Hpg; simpl.
  - destruct (find (soup pg) "html") as [html|] eqn:Hhtml.
    + eexists. split.
      { apply (check_doc_language_run s pg html); [done|done|split; by eexists]. }
      destruct (tally_counters "doc_language" [doc_language_finding html.2] s c w Hc Hw)
        as (-> & -> & ->).
      split; [rewrite length_app; simpl; lia|].
      rewrite passes_cons, fails_cons. change (passes []) with 0. change (fails []) with 0.
      unfold doc_language_finding, nonempty_attr.
      destruct (node_attrs html.2 !! "lang") as [v|]; [case_bool_decide|]; simpl.
      * right. split; [by intros (? & [= <-] & ?)|]. split; f_equal; lia.
      * left. split; [by exists v|]. split; f_equal; lia.
      * right. split; [by intros (? & ? & ?)|]. split; f_equal; lia.
    + unfold check_doc_language, get_page, bind, gets, some_or. rewrite Hpg. simpl.
      by rewrite Hhtml.
  - unfold check_doc_language, get_page, bind, gets, some_or. by rewrite Hpg.
Qed.

(** X13.  [check_alt_texts] judges every [img] element of the page exactly
    once: the images whose [alt] is present and not empty are added to
    [correct], all others to [wrong], and one line is printed for each. *)
Theorem check_alt_texts_counts (s : State) (pg : Node) (c w : Z) :
  page s = Some pg →
  correct s !! "alt_texts" = Some c → wrong s !! "alt_texts" = Some w →
  ∃ s', check_alt_texts s = Done tt s' ∧
        correct s' !! "alt_texts"
        = Some (c + count (λ e, attr_set e.2 "alt") (find_all (soup pg) "img")) ∧
        wrong s' !! "alt_texts"
        = Some (w + count (λ e, negb (attr_set e.2 "alt")) (find_all (soup pg) "img")) ∧
        length (stdout s') = (length (stdout s) + length (find_all (soup pg) "img"))%nat ∧
        (∀ k, k ≠ "alt_texts" → correct s' !! k = correct s !! k ∧ wrong s' !! k = wrong s !! k).
Proof.
  intros Hpg Hc Hw. eexists. split.
  { apply (check_alt_texts_run s pg); [done|split; by eexists]. }
  destruct (tally_counters "alt_texts" (alt_text_finding pg <$> find_all (soup pg) "img")
              s c w Hc Hw) as (-> & -> & ->).
  rewrite passes_fmap, fails_fmap.
  assert (Hv : ∀ e, (alt_text_finding pg e).1 = attr_set e.2 "alt").
  { intros e. unfold alt_text_finding, attr_set.
    destruct (node_attrs e.2 !! "alt"); [by case_bool_decide|done]. }
  split_and!.
  - do 2 f_equal. by apply count_ext.
  - do 2 f_equal. apply count_ext. intros e. by rewrite Hv.
  - by rewrite length_app, !length_fmap.
  - intros k Hk. by apply tally_other.
Qed.

Lemma all_alt_texts_set_forallb (img_elements : list Node) :
  all_alt_texts_set img_elements = forallb (λ img, attr_set img "alt") img_elements.
Proof.
  unfold all_alt_texts_set.
  assert (H : ∀ acc, foldl (λ ok img_element,
                              match get_attribute_list_0 img_element "alt" with
                              | Some alt_text => if bool_decide (alt_text = "") then false else ok
                              | None => false
                              end) acc img_elements
                     = acc && forallb (λ img, attr_set img "alt") img_elements).
  { induction img_elements as [|img l IH]; intros acc; simpl; [by rewrite andb_true_r|].
    rewrite IH. unfold attr_set, get_attribute_list_0.
    destruct (node_attrs img !! "alt") as [v|]; [case_bool_decide|]; simpl;
      by rewrite ?andb_false_r. }
  by rewrite H.
Qed.

Lemma all_alt_texts_set_iff (img_elements : list Node) :
  all_alt_texts_set img_elements = true
  ↔ Forall (λ img, nonempty_attr img "alt") img_elements.
Proof.
  rewrite all_alt_texts_set_forallb, forallb_forall, Forall_forall. split.
  - intros H img Hin. apply attr_set_nonempty, H. by apply list_elem_of_In.
  - intros H img Hin. apply attr_set_nonempty, H. by apply list_elem_of_In.
Qed.

Lemma link_passes_iff (e : Element) :
  link_passes e = true
  ↔ find_all_text e ≠ []
    ∨ (find_children e "img" ≠ []
       ∧ Forall (λ img, nonempty_attr img "alt") (find_children e "img")).
Proof.
  unfold link_passes.
  rewrite orb_true_iff, andb_true_iff, !negb_true_iff, !bool_decide_eq_false.
  by rewrite all_alt_texts_set_iff.
Qed.

(** X15.  [check_links] records one finding for every [a] element, a pass
    exactly when some string lies below it (a blank one or a comment
    counts), or when it has [img] elements among its children and each of
    them has an [alt] that is present and not empty; an image deeper
    inside the link plays no part. *)
Theorem check_links_findings (s : State) (pg : Node)
    (Hpg : page s = Some pg) (Hk : has_category "empty_links" s) :
  ∃ fs : list Finding,
    check_links s = Done tt (tally "empty_links" fs s) ∧
    Forall2 (λ e f, f.1 = true
                    ↔ find_all_text e ≠ []
                      ∨ (find_children e "img" ≠ []
                         ∧ Forall (λ img, nonempty_attr img "alt") (find_children e "img")))
            (find_all (soup pg) "a") fs.
Proof.
  eexists. split; [by apply check_links_run|].
  apply Forall2_fmap_r, Forall_Forall2_diag, Forall_forall. intros e _. simpl.
  apply link_passes_iff.
Qed.

Lemma check_links_findings_witness :
  ∃ fs : list Finding,
    check_links (tester_on (link_page "http://a.test/b"))
    = Done tt (tally "empty_links" fs (tester_on (link_page "http://a.test/b"))) ∧
    Forall2 (λ e f, f.1 = true
                    ↔ find_all_text e ≠ []
                      ∨ (find_children e "img" ≠ []
                         ∧ Forall (λ img, nonempty_attr img "alt") (find_children e "img")))
            (find_all (soup (link_page "http://a.test/b")) "a") fs.
Proof.
  apply check_links_findings.
  - reflexivity.
  - split; vm_compute; by eexists.
Defined.

(** ** Which check judges which input *)

Lemma filter_three {A} (P1 P2 P3 : A → bool) (l : list A) :
  (∀ x, (P1 x = true ∧ P2 x = false ∧ P3 x = false)
        ∨ (P1 x = false ∧ P2 x = true ∧ P3 x = false)
        ∨ (P1 x = false ∧ P2 x = false ∧ P3 x = true)) →
  filter (λ x, P1 x = true) l ++ filter (λ x, P2 x = true) l ++ filter (λ x, P3 x = true) l
  ≡ₚ l.
Proof.
  intros H. induction l as [|x l IH]; [done|].
  destruct (H x) as [(E1 & E2 & E3)|[(E1 & E2 & E3)|(E1 & E2 & E3)]].
  - rewrite (filter_cons_True (λ x, P1 x = true)) by done.
    rewrite (filter_cons_False (λ x, P2 x = true)) by (by rewrite E2).
    rewrite (filter_cons_False (λ x, P3 x = true)) by (by rewrite E3).
    simpl. by constructor.
  - rewrite (filter_cons_False (λ x, P1 x = true)) by (by rewrite E1).
    rewrite (filter_cons_True (λ x, P2 x = true)) by done.
    rewrite (filter_cons_False (λ x, P3 x = true)) by (by rewrite E3).
    simpl. rewrite <- Permutation_middle. by constructor.
  - rewrite (filter_cons_False (λ x, P1 x = true)) by (by rewrite E1).
    rewrite (filter_cons_False (λ x, P2 x = true)) by (by rewrite E2).
    rewrite (filter_cons_True (λ x, P3 x = true)) by done.
    rewrite app_assoc, <- Permutation_middle, <- app_assoc. by constructor.
Qed.

Lemma find_all_typed_filter (e : Element) (nm : string) (tys : list string) :
  find_all_typed e nm tys = filter (λ x, type_among tys x.2 = true) (find_all e nm).
Proof.
  unfold find_all_typed, find_all. rewrite list_filter_filter. apply list_filter_iff.
  intros x. rewrite andb_true_iff. tauto.
Qed.

(** X14.  The [input] elements of a page are split three ways: those that
    [check_input_labels] judges (its guard [needs_label]), those that
    [check_buttons] judges (type submit, button or reset), and the hidden
    ones, which neither check judges.  No input is judged by both. *)
Theorem inputs_split_between_checks (pg : Node) :
  filter (λ e, needs_label e.2 = true) (find_all (soup pg) "input")
  ++ find_all_typed (soup pg) "input" ["submit"; "button"; "reset"]
  ++ filter (λ e, attr_is e.2 "type" "hidden" = true) (find_all (soup pg) "input")
  ≡ₚ find_all (soup pg) "input".
Proof.
  rewrite find_all_typed_filter.
  apply (filter_three (λ e, needs_label e.2)
                      (λ e, type_among ["submit"; "button"; "reset"] e.2)
                      (λ e, attr_is e.2 "type" "hidden")).
  intros [r n]. unfold needs_label, type_among, attr_is. simpl.
  destruct (node_attrs n !! "type") as [t|]; [|by left].
  destruct (decide (t = "hidden")) as [->|Hh]; [by right; right|].
  destruct (decide (t = "submit")) as [->|Hs]; [by right; left|].
  destruct (decide (t = "reset")) as [->|Hr]; [by right; left|].
  destruct (decide (t = "button")) as [->|Hb]; [by right; left|].
  left. rewrite !bool_decide_eq_false_2 by done. split; [done|]. split.
  - apply bool_decide_eq_false. rewrite !elem_of_cons, elem_of_nil.
    intros [?|[?|[?|[]]]]; done.
  - apply bool_decide_eq_false. by intros [= ->].
Qed.

(** ** The range of the contrast ratio *)

Section ContrastRange.

Local Open Scope R_scope.

Lemma convert_0 : convert_rgb_8bit_value 0 = 0.
Proof. rewrite convert_low by lra. lra. Qed.

Lemma convert_255 : convert_rgb_8bit_value 255 = 1.
Proof.
  rewrite convert_high by lra.
  replace ((255 / 255 + 0.055) / 1.055) with 1 by lra.
  unfold Rpower. rewrite ln_1, Rmult_0_r. apply exp_0.
Qed.

Lemma convert_at_most_1 (c : Z) : (c <= 255)%Z → convert_rgb_8bit_value c <= 1.
Proof. intros H. rewrite <- convert_255. by apply convert_mono. Qed.

Lemma luminance_at_most_1 (c : Rgba) : channels_in_range c → luminance c <= 1.
Proof.
  intros (Hr & Hg & Hb). unfold luminance.
  pose proof (convert_at_most_1 (red c) (proj2 Hr)).
  pose proof (convert_at_most_1 (green c) (proj2 Hg)).
  pose proof (convert_at_most_1 (blue c) (proj2 Hb)). lra.
Qed.

Lemma ratio_at_most_21 (hi lo : R) : 0 <= lo → hi <= 1 → (hi + 0.05) / (lo + 0.05) <= 21.
Proof.
  intros Hlo Hhi. apply (Rmult_le_reg_r (lo + 0.05)); [lra|].
  replace ((hi + 0.05) / (lo + 0.05) * (lo + 0.05)) with (hi + 0.05) by (field; lra). lra.
Qed.

(** X24.  For colours with 8-bit channels the relative luminance lies between
    0 and 1 and the contrast ratio never exceeds 21, the ratio of black
    and white. *)
Theorem contrast_ratio_at_most_21 (a b : Rgba)
    (Ha : channels_in_range a) (Hb : channels_in_range b) :
  0 <= luminance a <= 1 ∧
  get_contrast_ratio a b <= 21 ∧
  get_contrast_ratio black white = 21.
Proof.
  pose proof (luminance_nonneg a Ha). pose proof (luminance_nonneg b Hb).
  pose proof (luminance_at_most_1 a Ha). pose proof (luminance_at_most_1 b Hb).
  split; [lra|]. split.
  - unfold get_contrast_ratio. destruct (Rgt_dec _ _); by apply ratio_at_most_21.
  - assert (Hk : luminance black = 0).
    { unfold luminance, black. simpl. rewrite convert_0. lra. }
    assert (Hw : luminance white = 1).
    { unfold luminance, white. simpl. rewrite convert_255. lra. }
    unfold get_contrast_ratio. rewrite Hk, Hw. destruct (Rgt_dec 0 1); lra.
Qed.

End ContrastRange.

Lemma contrast_ratio_at_most_21_witness :
  (get_contrast_ratio {| red := 10; green := 20; blue := 30; alpha := 1 |} white <= 21)%R.
Proof.
  refine (proj1 (proj2 (contrast_ratio_at_most_21
                          {| red := 10; green := 20; blue := 30; alpha := 1 |} white _ _)));
    unfold channels_in_range; simpl; lia.
Defined.

(** ** The effective background is never transparent *)

Lemma eval_error_exception (error : EvalError) : eval_exception (eval_error error).
Proof. destruct error as [|name]; [by left|right; by exists name]. Qed.

Lemma convert_to_rgba_value_raises (c : CssColor) (e : Exn) :
  convert_to_rgba_value c = inl e → eval_exception e.
Proof.
  destruct c as [| |text error]; simpl; [done..|].
  destruct (String.prefix _ _); [done|]. intros [= <-]. apply eval_error_exception.
Qed.

Lemma eval_tuple_raises (color : RgbaText) (e : Exn) :
  eval_tuple color = inl e → eval_exception e.
Proof. destruct color; simpl; [done|]. intros [= <-]. apply eval_error_exception. Qed.

Lemma get_background_color_of_opaque (doc : Document) (pg : Node) (text : Ref) :
  match get_background_color_of doc pg text with
  | inl e => e = NoSuchElementException ∨ eval_exception e
  | inr c => ¬ (alpha c == 0)%Q
  end.
Proof.
  induction text as [|i text_parent IH]; cbn [get_background_color_of].
  - destruct (find_element doc _) as [st|]; [|by left].
    destruct (convert_to_rgba_value _) as [e|color] eqn:Ec;
      [right; by apply convert_to_rgba_value_raises in Ec|].
    destruct (eval_tuple color) as [e|tuple] eqn:Et;
      [right; by apply eval_tuple_raises in Et|].
    destruct (Qeq_bool _ 0) eqn:E; [done|]. by apply Qeq_bool_neq.
  - destruct (find_element doc _) as [st|]; [|by left].
    destruct (convert_to_rgba_value _) as [e|color] eqn:Ec;
      [right; by apply convert_to_rgba_value_raises in Ec|].
    destruct (eval_tuple color) as [e|tuple] eqn:Et;
      [right; by apply eval_tuple_raises in Et|].
    destruct (Qeq_bool _ 0) eqn:E; [exact IH|]. by apply Qeq_bool_neq.
Qed.

(** X23.  Whatever the page and the styles: the colour that
    [get_background_color] answers never has alpha 0, and it raises
    nothing but the exception of an element the driver does not find and
    what [eval] raises ([SyntaxError], [NameError]) on a colour text, of
    the element or of an ancestor, that is no tuple of numbers. *)
Theorem get_background_color_opaque (doc : Document) (pg : Node) (text : option Ref) :
  match get_background_color doc pg text with
  | inl e =>
      e = NoSuchElementException ∨ e = SyntaxError ∨ ∃ name, e = NameError name
  | inr c => ¬ (alpha c == 0)%Q
  end.
Proof.
  destruct text as [r|]; simpl; [apply get_background_color_of_opaque|done].
Qed.

(** A transparent paragraph in a body whose colour is given in another
    colour space: the search for the background goes up to the body and
    ends there with the [SyntaxError] of [eval]. *)
Example get_background_color_other_colour_space :
  get_background_color
    {| current_url := origin_url; page_source := sample_page; anchors := [];
       find_element := λ xp,
         if bool_decide (xp = "/html/body/p") then Some (sample_style (CssRgba transparent))
         else Some (sample_style (CssOther "color(srgb 1 0 0)" NotAnExpression)) |}
    sample_page (Some [0; 0; 0]%nat)
  = inl SyntaxError.
Proof. vm_compute. reflexivity. Qed.

(** ** The font size as [check_color_contrast] reads it *)

Lemma prefix_refl (s : string) : String.prefix s s = true.
Proof. induction s as [|c s IH]; simpl; [done|]. destruct (ascii_dec c c); done. Qed.

Lemma contains_cons (c : ascii) (hay needle : string) :
  Py.contains (String c hay) needle
  = if String.prefix needle (String c hay) then true else Py.contains hay needle.
Proof. reflexivity. Qed.

Lemma contains_here (hay needle : string) :
  String.prefix needle hay = true → Py.contains hay needle = true.
Proof.
  intros H. destruct hay.
  - unfold Py.contains. by rewrite H.
  - by rewrite contains_cons, H.
Qed.

Lemma contains_suffix (a b : string) : Py.contains (a +:+ b) b = true.
Proof.
  induction a as [|c a IH].
  - apply contains_here, prefix_refl.
  - rewrite string_app_cons, contains_cons. by destruct (String.prefix b _).
Qed.

Lemma filter_digits_app (a b : string) :
  Py.filter_digits (a +:+ b) = Py.filter_digits a +:+ Py.filter_digits b.
Proof.
  induction a as [|c a IH]; [done|]. rewrite string_app_cons. simpl.
  destruct (Py.isdigit c); [|exact IH]. by rewrite string_app_cons, IH.
Qed.

Lemma filter_digits_all_digits (s : string) : all_digits (Py.filter_digits s) = true.
Proof.
  induction s as [|c s IH]; [done|]. simpl. destruct (Py.isdigit c) eqn:E; [|exact IH].
  simpl. by rewrite E.
Qed.

Lemma filter_digits_of_digits (s : string) : all_digits s = true → Py.filter_digits s = s.
Proof.
  induction s as [|c s IH]; [done|]. simpl. intros [-> H]%andb_true_iff. by rewrite IH.
Qed.

Lemma string_app_nil_r (s : string) : s +:+ "" = s.
Proof. induction s as [|c s IH]; [done|]. by rewrite string_app_cons, IH. Qed.

(** X17.  Of a font size, [check_color_contrast] reads whether it holds ["px"]
    and which digits it holds, nothing else.  Without ["px"] the text is
    never large; with ["px"] and no digit, [int] raises [ValueError];
    otherwise the size is the number spelled by all the digits in their
    order, so that a decimal point is passed over (13.5px is read as
    135px). *)
Theorem large_text_reads_digits (font_size font_weight : string) (text : Node) :
  (Py.contains font_size "px" = false → large_text font_size font_weight text = inr false) ∧
  (Py.contains font_size "px" = true → Py.filter_digits font_size = "" →
   large_text font_size font_weight text = inl ValueError) ∧
  (Py.contains font_size "px" = true →
   large_text font_size font_weight text
   = large_text (Py.filter_digits font_size +:+ "px") font_weight text).
Proof.
  unfold large_text. split_and!.
  - by intros ->.
  - by intros -> ->.
  - intros ->. rewrite contains_suffix, filter_digits_app.
    rewrite (filter_digits_of_digits (Py.filter_digits font_size))
      by apply filter_digits_all_digits.
    change (Py.filter_digits "px") with "". by rewrite string_app_nil_r.
Qed.

Lemma large_text_reads_digits_witness :
  large_text "13.5px" "400" (Tag "p" ∅ []) = large_text "135px" "400" (Tag "p" ∅ [])
  ∧ large_text "135px" "400" (Tag "p" ∅ []) = inr true.
Proof.
  split; [|reflexivity].
  exact (proj2 (proj2 (large_text_reads_digits "13.5px" "400" (Tag "p" ∅ []))) eq_refl).
Defined.

(** ** What the colour check passes over *)


(** ** What a step leaves alone *)

#[local] Instance steady_preorder : PreOrder steady.
Proof.
  split.
  - by intros s.
  - intros s1 s2 s3 (? & ? & ? & ?) (? & ? & ? & ?). repeat split; congruence.
Qed.

#[local] Instance visited_extends_preorder : PreOrder visited_extends.
Proof.
  split.
  - intros s. exists []. by rewrite app_nil_r.
  - intros s1 s2 s3 [n1 H1] [n2 H2]. exists (n1 ++ n2). by rewrite H2, H1, app_assoc.
Qed.

#[local] Instance no_shots_preorder : PreOrder no_shots.
Proof.
  split.
  - by intros s.
  - intros s1 s2 s3 [Hc1 H1] [Hc2 H2]. split; [congruence|].
    intros Hoff. rewrite H2, H1; [done|done|by rewrite Hc1].
Qed.

Create HintDb keeps.

(** Walks down a computation to the steps that write to the state,
    where [leaf] has to show the relation. *)
Ltac keeps_step leaf :=
  lazymatch goal with
  | |- preserves _ (ret _) => apply preserves_ret
  | |- preserves _ (raise _) => apply preserves_raise
  | |- preserves _ (gets _) => apply preserves_gets
  | |- preserves _ (modify _) => apply preserves_modify; intros ?; leaf
  | |- preserves _ (incr_correct _) =>
      let s := fresh "s" in
      intros s; unfold incr_correct; destruct (correct s !! _) eqn:?; leaf
  | |- preserves _ (incr_wrong _) =>
      let s := fresh "s" in
      intros s; unfold incr_wrong; destruct (wrong s !! _) eqn:?; leaf
  | |- preserves _ (for_each _ _) => apply preserves_for_each; intros ?
  | |- preserves _ (bind _ _) => apply preserves_bind; [|intros ?]
  | |- preserves _ (if ?b then _ else _) => destruct b
  | |- preserves _ (match ?x with _ => _ end) => destruct x
  | |- preserves _ (let _ := _ in _) => cbv zeta
  | |- preserves _ _ =>
      first
        [ solve [auto 3 with keeps nocore]
        | progress unfold some_or, lift, print, get_page, get_driver, get_document,
            find_anchors, element_read, window_open, switch_to_window_at,
            switch_to_previous_window, driver_get, driver_quit, take_screenshot,
            report_contrast, check_contrast, check_color_contrast, check_link, check_links,
            check_button, check_button_input, check_buttons, check_input_label,
            check_input_labels, check_alt_text, check_alt_texts, check_doc_language,
            run_checks, print_items, calculate_result, start_driver, visit_link ]
  end.

Ltac keeps leaf := repeat keeps_step leaf.

Ltac same_fields := first [reflexivity | by repeat split].

Lemma run_checks_steady : preserves steady run_checks.
Proof. keeps same_fields. Qed.

(** X4.  The six checks touch the parsed page, the tallies and the console
    and nothing else: whether they return or raise, the configuration,
    the browser session (its windows and the current one), the visited
    list and the screenshots are as before; and they need no fuel. *)
Theorem checks_leave_the_crawl_alone (s : State) :
  match run_checks s with
  | Done _ s' | Raised _ s' =>
      config s' = config s ∧ driver s' = driver s ∧ visited_links s' = visited_links s ∧
      screenshot_files s' = screenshot_files s
  | OutOfFuel => False
  end.
Proof.
  pose proof (run_checks_steady s) as H. pose proof (run_checks_total s) as Ht.
  by destruct (run_checks s).
Qed.

#[local] Instance anchored_preorder : PreOrder anchored.
Proof.
  split.
  - by intros s.
  - intros s1 s2 s3 (? & ? & ?) (? & ? & ?). repeat split; congruence.
Qed.

Lemma preserves_raised_at {A} (R : State → State → Prop) (m : M A) (s s' : State) (e : Exn) :
  preserves R m → m s = Raised e s' → R s s'.
Proof. intros H E. specialize (H s). by rewrite E in H. Qed.

Lemma get_document_raised (s s' : State) (e : Exn) :
  get_document s = Raised e s' → s' = s ∧ current_page_url s = None.
Proof.
  unfold get_document, get_driver, bind, gets, some_or, current_page_url. simpl.
  destruct (driver s) as [drv|]; simpl; [|by intros [= _ <-]].
  destruct (current_document drv); [done|]. by intros [= _ <-].
Qed.

Lemma get_document_total : total get_document.
Proof. tot. Qed.

(** ** A page tested without following its links *)

Section OnePage.

Variable fetch : string → option Document.
Variable urljoin : string → option string → string.
Variable hostname : string → option string.

Lemma take_screenshot_anchored : preserves anchored (take_screenshot hostname).
Proof. keeps same_fields. Qed.

Lemma take_screenshot_total : total (take_screenshot hostname).
Proof. tot. Qed.

Lemma run_checks_anchored : preserves anchored run_checks.
Proof. keeps same_fields. Qed.

(** The part of [test_page] after the header, when links are not
    followed. *)
Lemma after_the_header (crawl : M unit) (s : State) :
  follow (config s) = false →
  match (run_checks ;;
         shots <- gets (λ s, screenshots (config s)) ;;
         (if shots : bool then take_screenshot hostname else ret tt) ;;
         following <- gets (λ s, follow (config s)) ;;
         if following : bool then crawl else ret tt) s with
  | Done _ s' | Raised _ s' => anchored s s' ∧ appends no_header s s'
  | OutOfFuel => False
  end.
Proof.
  intros Hf. unfold bind at 1.
  destruct (run_checks s) as [[] s1|e s1|] eqn:E1; [| |by apply run_checks_total in E1].
  2:{ split; [by apply (preserves_raised_at _ _ _ _ _ run_checks_anchored E1)|].
      by apply (preserves_raised_at _ _ _ _ _ (run_checks_no_header) E1). }
  pose proof (preserves_run _ _ _ _ _ run_checks_anchored E1) as A1.
  pose proof (preserves_run _ _ _ _ _ run_checks_no_header E1) as P1.
  unfold bind at 1. unfold gets at 1. unfold bind at 1.
  set (shot := if screenshots (config s1) then take_screenshot hostname else ret tt).
  assert (Hshot : preserves anchored shot ∧ preserves (appends no_header) shot ∧ total shot).
  { unfold shot. destruct (screenshots (config s1)).
    - split; [apply take_screenshot_anchored|]. split; [|apply take_screenshot_total].
      apply silent_appends_pres, take_screenshot_silent.
    - split; [apply preserves_ret|]. split; [apply preserves_ret|apply total_ret]. }
  destruct Hshot as (Ha & Hp & Ht).
  destruct (shot s1) as [[] s2|e s2|] eqn:E2; [| |by apply Ht in E2].
  2:{ split; (etransitivity; [eassumption|]).
      - by apply (preserves_raised_at _ _ _ _ _ Ha E2).
      - by apply (preserves_raised_at _ _ _ _ _ Hp E2). }
  pose proof (preserves_run _ _ _ _ _ Ha E2) as A2.
  pose proof (preserves_run _ _ _ _ _ Hp E2) as P2.
  unfold bind, gets.
  assert (follow (config s2) = false) as ->.
  { by rewrite (proj1 A2), (proj1 A1). }
  simpl. split; by etransitivity.
Qed.

(** X3.  Without [follow], [test_page] tests the page of the current window
    and nothing else: whether it returns or raises, the windows and the
    visited list are as before, the header of that one page is the only
    header printed, and the call needs no more than one level of
    recursion. *)
Theorem test_page_without_follow (fuel : nat) (s : State) :
  follow (config s) = false →
  match test_page fetch urljoin hostname (S fuel) s with
  | Done _ s' | Raised _ s' =>
      driver s' = driver s ∧ visited_links s' = visited_links s ∧
      ∃ new, stdout s' = stdout s ++ new ∧
             headers new = match current_page_url s with
                           | Some u => [page_header u]
                           | None => []
                           end
  | OutOfFuel => False
  end.
Proof.
  intros Hf. cbn [test_page]. unfold bind at 1.
  destruct (get_document s) as [doc s1|e s1|] eqn:E1; [| |by apply get_document_total in E1].
  2:{ apply get_document_raised in E1 as [-> ->]. split; [done|]. split; [done|].
      exists []. by rewrite app_nil_r. }
  apply get_document_run in E1 as [-> ->]. simpl.
  erewrite bind_done by reflexivity. erewrite bind_done by reflexivity.
  set (s2 := set_stdout _ _).
  pose proof (after_the_header
                (modify (λ s, set_visited_links (visited_links s ++ [current_url doc]) s) ;;
                 link_list <- find_anchors ;;
                 for_each link_list (visit_link fetch urljoin hostname
                                       (test_page fetch urljoin hostname fuel)) ;;
                 switch_to_previous_window) s2 Hf) as H.
  match goal with
  | H : match ?m s2 with _ => _ end |- match ?m' _ with _ => _ end =>
      change m' with m; destruct (m s2) as [[] s'|e s'|]; [| |done]
  end.
  all: destruct H as [(_ & Hd & Hv) (_ & new & Ho & Hn)];
    (split; [exact Hd|]); (split; [exact Hv|]);
    exists (page_header (current_url doc) :: new);
    (split; [rewrite Ho; unfold s2; simpl; by rewrite <- app_assoc|]);
    unfold headers; rewrite filter_cons_True by apply is_page_header_header;
    f_equal; by apply headers_none.
Qed.

End OnePage.

(** ** What a whole crawl keeps *)

Ltac extends_visited :=
  first [ reflexivity
        | by (exists []; simpl; rewrite app_nil_r)
        | by eexists ].

Ltac keeps_config :=
  first [ reflexivity | by (split; [|intros _]) ].

Section WholeCrawl.

Variable fetch : string → option Document.
Variable urljoin : string → option string → string.
Variable hostname : string → option string.

Lemma visit_link_visited_extends (recurse : M unit) (link : WebElement) :
  preserves visited_extends recurse →
  preserves visited_extends (visit_link fetch urljoin hostname recurse link).
Proof. intros Hrec. keeps extends_visited. Qed.

Lemma test_page_visited_extends (fuel : nat) :
  preserves visited_extends (test_page fetch urljoin hostname fuel).
Proof.
  induction fuel as [|fuel IH]; [done|].
  cbn [test_page].
  pose proof (λ link, visit_link_visited_extends _ link IH) as Hlink.
  keeps extends_visited.
Qed.

(** X7.  [visited_links] is only ever appended to: over [test_page], crawl
    included, and over a whole run, whether they return or raise, the
    list at the end begins with the list at the start. *)
Theorem visited_links_append_only (fuel : nat) (s : State) :
  match test_page fetch urljoin hostname fuel s with
  | Done _ s' | Raised _ s' => ∃ new, visited_links s' = visited_links s ++ new
  | OutOfFuel => True
  end ∧
  match run fetch urljoin hostname fuel s with
  | Done _ s' | Raised _ s' => ∃ new, visited_links s' = visited_links s ++ new
  | OutOfFuel => True
  end.
Proof.
  split; [apply test_page_visited_extends|].
  assert (H : preserves visited_extends (run fetch urljoin hostname fuel)).
  { unfold run. pose proof (test_page_visited_extends fuel). keeps extends_visited. }
  apply H.
Qed.

Lemma visit_link_no_shots (recurse : M unit) (link : WebElement) :
  preserves no_shots recurse →
  preserves no_shots (visit_link fetch urljoin hostname recurse link).
Proof. intros Hrec. keeps keeps_config. Qed.

Lemma take_screenshot_config : preserves silent (take_screenshot hostname).
Proof. apply take_screenshot_silent. Qed.

Lemma test_page_no_shots (fuel : nat) :
  preserves no_shots (test_page fetch urljoin hostname fuel).
Proof.
  induction fuel as [|fuel IH]; [done|].
  cbn [test_page].
  pose proof (λ link, visit_link_no_shots _ link IH) as Hlink.
  do 4 (apply preserves_bind; [keeps keeps_config|intros ?]).
  intros s. unfold bind at 1, gets at 1.
  apply (preserves_at_bind no_shots).
  - destruct (screenshots (config s)) eqn:Eshots.
    + unfold preserves_at. pose proof (take_screenshot_config s) as H.
      destruct (take_screenshot hostname s); [| |done]; (split; [apply H|by rewrite Eshots]).
    + apply preserves_at_of, preserves_ret.
  - intros [] s1 _. apply preserves_at_of. keeps keeps_config.
Qed.

(** X6.  With screenshots switched off none is taken: over [test_page], crawl
    included, and over a whole run, whether they return or raise. *)
Theorem no_screenshot_when_switched_off (fuel : nat) (s : State) :
  screenshots (config s) = false →
  match test_page fetch urljoin hostname fuel s with
  | Done _ s' | Raised _ s' => screenshot_files s' = screenshot_files s
  | OutOfFuel => True
  end ∧
  match run fetch urljoin hostname fuel s with
  | Done _ s' | Raised _ s' => screenshot_files s' = screenshot_files s
  | OutOfFuel => True
  end.
Proof.
  intros Hoff. split.
  - pose proof (test_page_no_shots fuel s) as H.
    destruct (test_page _ _ _ _ s); [| |done]; by apply H.
  - assert (H : preserves no_shots (run fetch urljoin hostname fuel)).
    { unfold run. pose proof (test_page_no_shots fuel). keeps keeps_config. }
    specialize (H s). destruct (run _ _ _ _ s); [| |done]; by apply H.
Qed.

End WholeCrawl.

(** ** The window a tested page leaves the driver in *)

Lemma previous_window_index (n c : nat) :
  (c < n)%nat →
  Py.index (seq 0 n) (Z.of_nat c - 1)
  = Some (if decide (c = 0%nat) then (n - 1)%nat else (c - 1)%nat).
Proof.
  intros Hlt. unfold Py.index. rewrite length_seq. destruct (decide (c = 0%nat)) as [->|Hc].
  - change (Z.of_nat 0 - 1) with (-1). change (-1 <? 0) with true. cbv iota.
    destruct (Z.leb_spec 0 (Z.of_nat n + -1)); [|lia].
    rewrite lookup_seq_lt by lia. f_equal. lia.
  - destruct (Z.ltb_spec (Z.of_nat c - 1) 0); [lia|].
    rewrite lookup_seq_lt by lia. f_equal. lia.
Qed.

Lemma switch_to_previous_window_wraps (s : State) (drv : Driver) :
  driver s = Some drv →
  (current_window_handle drv < length (window_handles drv))%nat →
  switch_to_previous_window s
  = Done tt (set_driver
               (Some {| window_handles := window_handles drv;
                        current_window_handle :=
                          if decide (current_window_handle drv = 0%nat)
                          then (length (window_handles drv) - 1)%nat
                          else (current_window_handle drv - 1)%nat |}) s).
Proof.
  intros Hd Hlt. apply switch_to_previous_window_ok; [done|done|].
  by apply previous_window_index.
Qed.

Section LeafPage.

Variable fetch : string → option Document.
Variable urljoin : string → option string → string.
Variable hostname : string → option string.

(** X11.  With [follow], a page without links that [test_page] has tested
    leaves the driver in the window just before its own (from the first
    window: in the last one), whichever window the page that linked to
    it is in; the windows themselves are as before, and the URL of the
    page has joined the visited list. *)
Theorem test_page_ends_in_previous_window (fuel : nat) (s s' : State) (drv : Driver)
    (doc : Document) :
  follow (config s) = true → driver s = Some drv → current_document drv = Some doc →
  anchors doc = [] →
  test_page fetch urljoin hostname (S fuel) s = Done tt s' →
  driver s' = Some {| window_handles := window_handles drv;
                      current_window_handle :=
                        if decide (current_window_handle drv = 0%nat)
                        then (length (window_handles drv) - 1)%nat
                        else (current_window_handle drv - 1)%nat |}
  ∧ visited_links s' = visited_links s ++ [current_url doc].
Proof.
  intros Hf Hd Hdoc Hanch. cbn [test_page].
  rewrite (bind_done _ _ _ _ _ (get_document_ok _ _ _ Hd Hdoc)).
  erewrite bind_done by reflexivity. erewrite bind_done by reflexivity.
  set (s2 := set_stdout _ _). unfold bind at 1.
  destruct (run_checks s2) as [[] s3|e s3|] eqn:E3; [|done|done].
  pose proof (preserves_run _ _ _ _ _ run_checks_anchored E3) as (Hc3 & Hd3 & Hv3).
  unfold bind at 1, gets at 1. unfold bind at 1.
  set (shot := if screenshots (config s3) then take_screenshot hostname else ret tt).
  assert (Ha : preserves anchored shot).
  { unfold shot. destruct (screenshots (config s3));
      [apply take_screenshot_anchored|apply preserves_ret]. }
  destruct (shot s3) as [[] s4|e s4|] eqn:E4; [|done|done].
  pose proof (preserves_run _ _ _ _ _ Ha E4) as (Hc4 & Hd4 & Hv4).
  unfold bind at 1, gets at 1.
  assert (follow (config s4) = true) as -> by (by rewrite Hc4, Hc3).
  erewrite bind_done by reflexivity.
  set (s5 := set_visited_links _ s4).
  assert (Hd5 : driver s5 = Some drv) by (unfold s5; simpl; by rewrite Hd4, Hd3).
  assert (Hanchors : find_anchors s5 = Done [] s5).
  { unfold find_anchors. rewrite (bind_done _ _ _ _ _ (get_driver_ok _ _ Hd5)).
    rewrite (bind_done _ _ _ _ _ (get_document_ok _ _ _ Hd5 Hdoc)). by rewrite Hanch. }
  rewrite (bind_done _ _ _ _ _ Hanchors). simpl for_each.
  erewrite bind_done by reflexivity.
  assert (Hlt : (current_window_handle drv < length (window_handles drv))%nat).
  { unfold current_document in Hdoc. by apply lookup_lt_Some in Hdoc. }
  rewrite (switch_to_previous_window_wraps s5 drv Hd5 Hlt). intros [= <-]. simpl.
  split; [done|]. by rewrite Hv4, Hv3.
Qed.

End LeafPage.

(** ** Which exceptions a computation raises *)

Section RaisesOnly.

Context (P : Exn → Prop).

Lemma raises_ret {A} (a : A) : raises_only P (ret a).
Proof. by intros s. Qed.

Lemma raises_gets {A} (f : State → A) : raises_only P (gets f).
Proof. by intros s. Qed.

Lemma raises_modify (f : State → State) : raises_only P (modify f).
Proof. by intros s. Qed.

Lemma raises_raise {A} (e : Exn) : P e → raises_only P (raise (A := A) e).
Proof. by intros H s. Qed.

Lemma raises_bind {A B} (m : M A) (f : A → M B) :
  raises_only P m → (∀ a, raises_only P (f a)) → raises_only P (bind m f).
Proof.
  intros Hm Hf s. unfold bind. specialize (Hm s). destruct (m s) as [a s'| |]; [|done|done].
  apply Hf.
Qed.

Lemma raises_for_each {A} (l : list A) (body : A → M unit) :
  (∀ x, raises_only P (body x)) → raises_only P (for_each l body).
Proof.
  intros H. induction l as [|x l IH]; [apply raises_ret|].
  simpl. apply raises_bind; [apply H|by intros _].
Qed.

Lemma raises_incr_correct (k : string) : P (KeyError k) → raises_only P (incr_correct k).
Proof. intros H s. unfold incr_correct. by destruct (correct s !! k). Qed.

Lemma raises_incr_wrong (k : string) : P (KeyError k) → raises_only P (incr_wrong k).
Proof. intros H s. unfold incr_wrong. by destruct (wrong s !! k). Qed.

Lemma raises_lift {A} (r : Exn + A) : (∀ e, r = inl e → P e) → raises_only P (lift r).
Proof. intros H s. destruct r as [e|a]; simpl; [by apply H|done]. Qed.

End RaisesOnly.

Lemma eval_exception_library (e : Exn) : eval_exception e → library_exception e.
Proof. intros [-> | [name ->]]; by split; [|intros ?]. Qed.

Lemma background_exception_library (doc : Document) (pg : Node) (text : option Ref) (e : Exn) :
  get_background_color doc pg text = inl e → library_exception e.
Proof.
  intros H. destruct text as [r|]; [|done]. simpl in H.
  pose proof (get_background_color_of_opaque doc pg r) as Ho. rewrite H in Ho.
  destruct Ho as [-> | Ho]; [by split; [|intros ?]|by apply eval_exception_library].
Qed.

Lemma colour_exception_library (c : CssColor) (e : Exn) :
  convert_to_rgba_value c = inl e → library_exception e.
Proof. intros H%convert_to_rgba_value_raises. by apply eval_exception_library. Qed.

Lemma tuple_exception_library (color : RgbaText) (e : Exn) :
  eval_tuple color = inl e → library_exception e.
Proof. intros H%eval_tuple_raises. by apply eval_exception_library. Qed.

Lemma large_text_exception_library (font_size font_weight : string) (text : Node) (e : Exn) :
  large_text font_size font_weight text = inl e → library_exception e.
Proof.
  unfold large_text. destruct (Py.contains _ _); [|done].
  destruct (Py.int _); [done|]. intros [= <-]. by split; [|intros ?].
Qed.

Ltac is_library := by (split; [|intros ?]).

Ltac raises_step :=
  lazymatch goal with
  | |- raises_only _ (ret _) => apply raises_ret
  | |- raises_only _ (raise _) => apply raises_raise; is_library
  | |- raises_only _ (gets _) => apply raises_gets
  | |- raises_only _ (lift _) =>
      apply raises_lift; intros ? ?;
      first [ eapply background_exception_library; eassumption
            | eapply large_text_exception_library; eassumption
            | eapply colour_exception_library; eassumption
            | eapply tuple_exception_library; eassumption ]
  | |- raises_only _ (modify _) => apply raises_modify
  | |- raises_only _ (incr_correct _) => apply raises_incr_correct; is_library
  | |- raises_only _ (incr_wrong _) => apply raises_incr_wrong; is_library
  | |- raises_only _ (for_each _ _) => apply raises_for_each; intros ?
  | |- raises_only _ (bind _ _) => apply raises_bind; [|intros ?]
  | |- raises_only _ (if ?b then _ else _) => destruct b
  | |- raises_only _ (match ?x with _ => _ end) => destruct x
  | |- raises_only _ (let _ := _ in _) => cbv zeta
  | |- raises_only _ _ =>
      first
        [ assumption
        | progress unfold some_or, print, get_page, get_driver, get_document,
            find_anchors, element_read, window_open, switch_to_window_at,
            switch_to_previous_window, driver_get, driver_quit, take_screenshot,
            report_contrast, check_contrast, check_color_contrast, check_link, check_links,
            check_button, check_button_input, check_buttons, check_input_label,
            check_input_labels, check_alt_text, check_alt_texts, check_doc_language,
            run_checks, visit_link ]
  end.

Ltac raises := repeat raises_step.

Lemma run_checks_raises : raises_only library_exception run_checks.
Proof. raises. Qed.

(** ** The counters over a run *)

#[local] Instance counters_le_preorder : PreOrder counters_le.
Proof.
  split.
  - intros d k. destruct (d !! k); [lia|done].
  - intros d1 d2 d3 H12 H23 k. specialize (H12 k). specialize (H23 k).
    destruct (d1 !! k), (d2 !! k), (d3 !! k); try done. lia.
Qed.

#[local] Instance counters_grow_preorder : PreOrder counters_grow.
Proof.
  split.
  - intros s. split; reflexivity.
  - intros s1 s2 s3 [? ?] [? ?]. split; by etransitivity.
Qed.

Lemma counters_le_incr (d : gmap string Z) (k : string) (v : Z) :
  d !! k = Some v → counters_le d (<[k := v + 1]> d).
Proof.
  intros H j. destruct (decide (k = j)) as [<-|Hne].
  - rewrite lookup_insert_eq, H. lia.
  - rewrite lookup_insert_ne by done. destruct (d !! j); [lia|done].
Qed.

Lemma counters_grow_incr_correct (s : State) (k : string) (v : Z) :
  correct s !! k = Some v → counters_grow s (set_correct (<[k := v + 1]> (correct s)) s).
Proof. intros H. split; simpl; [by apply counters_le_incr|reflexivity]. Qed.

Lemma counters_grow_incr_wrong (s : State) (k : string) (v : Z) :
  wrong s !! k = Some v → counters_grow s (set_wrong (<[k := v + 1]> (wrong s)) s).
Proof. intros H. split; simpl; [reflexivity|by apply counters_le_incr]. Qed.

Ltac grows :=
  first [ reflexivity
        | by apply counters_grow_incr_correct
        | by apply counters_grow_incr_wrong
        | by (split; simpl; reflexivity) ].

Lemma counters_grow_nonneg (s s' : State) :
  counters_grow s s' → counters_nonneg s → counters_nonneg s'.
Proof.
  intros [Hc Hw] [Nc Nw]. split; intros k v Hk.
  - specialize (Hc k). rewrite Hk in Hc. destruct (correct s !! k) as [v0|] eqn:E; [|done].
    specialize (Nc k v0 E). lia.
  - specialize (Hw k). rewrite Hk in Hw. destruct (wrong s !! k) as [v0|] eqn:E; [|done].
    specialize (Nw k v0 E). lia.
Qed.

Lemma counters_grow_judged (k : string) (s s' : State) :
  counters_grow s s' → judged k s <= judged k s'.
Proof.
  intros [Hc Hw]. unfold judged. specialize (Hc k). specialize (Hw k).
  destruct (correct s !! k), (correct s' !! k), (wrong s !! k), (wrong s' !! k);
    simpl; try done; lia.
Qed.

Lemma sum_values_nonneg (d : gmap string Z) :
  (∀ k v, d !! k = Some v → 0 <= v) → 0 <= sum_values d.
Proof.
  unfold sum_values.
  apply (map_fold_weak_ind (λ acc m, (∀ k v, m !! k = Some v → 0 <= v) → 0 <= acc)).
  - done.
  - intros i x m r Hi IH H.
    assert (0 <= x) by (apply (H i); by rewrite lookup_insert_eq).
    assert (0 <= r).
    { apply IH. intros k v Hk. apply (H k). rewrite lookup_insert_ne; [done|].
      intros ->. by rewrite Hi in Hk. }
    lia.
Qed.

Lemma sum_values_lookup (d : gmap string Z) (k : string) (v : Z) :
  d !! k = Some v → sum_values d = v + sum_values (delete k d).
Proof.
  intros H. unfold sum_values.
  apply (map_fold_delete_L (λ (_ : string) (v acc : Z), v + acc) 0 k v d); [|done].
  intros. lia.
Qed.

Lemma sum_values_at_least (d : gmap string Z) (k : string) :
  (∀ k v, d !! k = Some v → 0 <= v) → default 0 (d !! k) <= sum_values d.
Proof.
  intros H. destruct (d !! k) as [v|] eqn:E; simpl; [|by apply sum_values_nonneg].
  rewrite (sum_values_lookup d k v E).
  assert (0 <= sum_values (delete k d)); [|lia].
  apply sum_values_nonneg. intros j w Hj. apply (H j).
  apply lookup_delete_Some in Hj. tauto.
Qed.

Lemma judged_at_most_sums (k : string) (s : State) :
  counters_nonneg s → judged k s <= sum_values (correct s) + sum_values (wrong s).
Proof.
  intros [Nc Nw]. unfold judged.
  pose proof (sum_values_at_least (correct s) k Nc).
  pose proof (sum_values_at_least (wrong s) k Nw). lia.
Qed.

Lemma init_counters_nonneg (url : string) (required_degree : Q) (chosen_driver : string)
    (headless screenshots : bool) (browser_height browser_width : Z) (follow : bool) :
  counters_nonneg (init url required_degree chosen_driver headless screenshots
                        browser_height browser_width follow).
Proof.
  split; intros k v H; unfold init in H; cbn [correct wrong] in H;
    apply elem_of_list_to_map_2 in H;
    apply list_elem_of_fmap in H as (k' & [= _ ->] & _); done.
Qed.

Lemma bind_done_inv {A B} (m : M A) (f : A → M B) (s s' : State) (b : B) :
  bind m f s = Done b s' → ∃ a s1, m s = Done a s1 ∧ f a s1 = Done b s'.
Proof. unfold bind. destruct (m s) as [a s1| |]; [|done|done]. intros H. by exists a, s1. Qed.

Lemma doc_language_counted (s s' : State) :
  check_doc_language s = Done tt s' →
  judged "doc_language" s' = judged "doc_language" s + 1.
Proof.
  unfold check_doc_language, get_page, bind, gets, some_or. simpl.
  destruct (page s) as [pg|]; [|done]. simpl.
  destruct (find (soup pg) "html") as [html|]; [|done]. simpl.
  unfold judged.
  destruct (get_attribute_list_0 html.2 "lang") as [lang_attr|];
    [destruct (negb _)|]; unfold bind, print, modify, incr_correct, incr_wrong; simpl;
    [destruct (correct s !! "doc_language") as [v|] eqn:E
    |destruct (wrong s !! "doc_language") as [v|] eqn:E
    |destruct (wrong s !! "doc_language") as [v|] eqn:E]; try done;
    intros [= <-]; simpl; rewrite lookup_insert_eq; simpl; lia.
Qed.

Lemma bind_raised_inv {A B} (m : M A) (f : A → M B) (s s' : State) (e : Exn) :
  bind m f s = Raised e s' →
  m s = Raised e s' ∨ ∃ a s1, m s = Done a s1 ∧ f a s1 = Raised e s'.
Proof.
  unfold bind. destruct (m s) as [a s1|e1 s1|].
  - intros H. right. by exists a, s1.
  - intros [= -> ->]. by left.
  - done.
Qed.

Lemma raises_at {A} (P : Exn → Prop) (m : M A) (s s' : State) (e : Exn) :
  raises_only P m → m s = Raised e s' → P e.
Proof. intros H E. specialize (H s). by rewrite E in H. Qed.

Section RunOutcomes.

Variable fetch : string → option Document.
Variable urljoin : string → option string → string.
Variable hostname : string → option string.

Lemma visit_link_raises (recurse : M unit) (link : WebElement) :
  raises_only library_exception recurse →
  raises_only library_exception (visit_link fetch urljoin hostname recurse link).
Proof. intros Hrec. raises. Qed.

Lemma test_page_raises (fuel : nat) :
  raises_only library_exception (test_page fetch urljoin hostname fuel).
Proof.
  induction fuel as [|fuel IH]; [done|].
  cbn [test_page]. pose proof (λ link, visit_link_raises _ link IH) as Hlink.
  raises.
Qed.

Lemma visit_link_counters_grow (recurse : M unit) (link : WebElement) :
  preserves counters_grow recurse →
  preserves counters_grow (visit_link fetch urljoin hostname recurse link).
Proof. intros Hrec. keeps grows. Qed.

Lemma test_page_counters_grow (fuel : nat) :
  preserves counters_grow (test_page fetch urljoin hostname fuel).
Proof.
  induction fuel as [|fuel IH]; [done|].
  cbn [test_page]. pose proof (λ link, visit_link_counters_grow _ link IH) as Hlink.
  keeps grows.
Qed.

(** A page that [test_page] has tested has its language judged. *)
Lemma test_page_counts_language (fuel : nat) (s s' : State) :
  test_page fetch urljoin hostname fuel s = Done tt s' →
  judged "doc_language" s + 1 <= judged "doc_language" s'.
Proof.
  destruct fuel as [|fuel]; [done|]. cbn [test_page]. intros H.
  apply bind_done_inv in H as (doc & s1 & [-> _]%get_document_run & H).
  apply bind_done_inv in H as ([] & s2 & [= <-] & H).
  apply bind_done_inv in H as ([] & s3 & [= <-] & H).
  apply bind_done_inv in H as ([] & s4 & Hchecks & H).
  unfold run_checks in Hchecks.
  apply bind_done_inv in Hchecks as ([] & s3a & Hlang & Hrest).
  apply doc_language_counted in Hlang.
  assert (Hs : judged "doc_language" s3a = judged "doc_language" s + 1)
    by (rewrite Hlang; reflexivity).
  assert (G1 : counters_grow s3a s4).
  { eapply (preserves_run counters_grow); [|exact Hrest]. keeps grows. }
  assert (G2 : counters_grow s4 s').
  { eapply (preserves_run counters_grow); [|exact H].
    pose proof (λ link, visit_link_counters_grow _ link (test_page_counters_grow fuel)).
    keeps grows. }
  pose proof (counters_grow_judged "doc_language" _ _ G1).
  pose proof (counters_grow_judged "doc_language" _ _ G2). lia.
Qed.

Lemma start_driver_accepted (s : State) :
  chosen_driver (config s) ∈ driver_names →
  start_driver fetch s
  = (self_url <- gets (λ s, url (config s)) ;;
     modify (set_driver (Some {| window_handles := [about_blank];
                                 current_window_handle := 0 |})) ;;
     driver_get fetch self_url ;;
     doc <- get_document ;;
     modify (set_page (Some (page_source doc)))) s.
Proof.
  intros H. unfold start_driver, bind at 1, gets at 1.
  by rewrite bool_decide_eq_true_2.
Qed.

Lemma calculate_result_after_findings (s : State) :
  counters_nonneg s → 1 <= sum_values (correct s) + sum_values (wrong s) →
  match calculate_result s with
  | Done _ s' =>
      driver s' = driver s ∧
      last (stdout s') = Some [VStr "Accessibility test successful - can deploy"] ∧
      (required_degree (config s') <= ratio_of s')%Q
  | Raised e _ => e = Exception "Too many accessibility errors - try fix them!"
  | OutOfFuel => False
  end.
Proof.
  intros Hn Hsum. rewrite calculate_result_ratio by lia.
  destruct (Qle_bool _ _) eqn:E; [|done].
  split; [done|]. split.
  - cbn [stdout set_stdout].
    change [ratio_line s; [VStr "Accessibility test successful - can deploy"]]
      with ([ratio_line s] ++ [[VStr "Accessibility test successful - can deploy"]]).
    by rewrite !app_assoc, last_snoc.
  - by apply Qle_bool_iff in E.
Qed.

(** What a run from a fresh tester with an accepted driver name comes
    to. *)
Lemma run_from_init (fuel : nat) (s : State) :
  counters_nonneg s → chosen_driver (config s) ∈ driver_names →
  match run fetch urljoin hostname fuel s with
  | Done _ s' =>
      window_handles <$> driver s' = Some [] ∧
      last (stdout s') = Some [VStr "Accessibility test successful - can deploy"] ∧
      (required_degree (config s') <= ratio_of s')%Q
  | Raised e s' =>
      e ≠ ZeroDivisionError ∧
      ∀ msg, e = Exception msg → msg = "Too many accessibility errors - try fix them!"
  | OutOfFuel => True
  end.
Proof.
  intros Hn Hname. unfold run. unfold bind at 1.
  pose proof (start_driver_accepted s Hname) as Estart.
  destruct (start_driver fetch s) as [[] s1|e s1|] eqn:E1; [| |done].
  2:{ symmetry in Estart. apply raises_at with (P := library_exception) in Estart as [? Hm].
      - split; [done|]. intros msg ->. by destruct (Hm msg).
      - raises. }
  assert (G1 : counters_grow s s1).
  { symmetry in Estart. eapply (preserves_run counters_grow); [|exact Estart]. keeps grows. }
  unfold bind at 1.
  destruct (test_page fetch urljoin hostname fuel s1) as [[] s2|e s2|] eqn:E2; [| |done].
  2:{ apply (raises_at _ _ _ _ _ (test_page_raises fuel)) in E2 as [? Hm].
      split; [done|]. intros msg ->. by destruct (Hm msg). }
  pose proof (test_page_counts_language _ _ _ E2) as Hlang.
  pose proof (preserves_run _ _ _ _ _ (test_page_counters_grow fuel) E2) as G2.
  unfold bind at 1. unfold driver_quit, get_driver, bind, gets, some_or. simpl.
  destruct (driver s2) as [drv|] eqn:Ed; simpl; [|by split].
  set (s3 := set_driver _ s2).
  assert (Hn3 : counters_nonneg s3).
  { apply (counters_grow_nonneg s2); [by split|].
    by apply (counters_grow_nonneg s1), (counters_grow_nonneg s). }
  assert (Hsum : 1 <= sum_values (correct s3) + sum_values (wrong s3)).
  { pose proof (judged_at_most_sums "doc_language" s3 Hn3) as Hj.
    assert (0 <= judged "doc_language" s1).
    { pose proof (counters_grow_nonneg _ _ G1 Hn) as [Nc Nw]. unfold judged.
      destruct (correct s1 !! "doc_language") as [c|] eqn:Ec,
               (wrong s1 !! "doc_language") as [w|] eqn:Ew; simpl;
        try pose proof (Nc _ _ Ec); try pose proof (Nw _ _ Ew); lia. }
    change (judged "doc_language" s3) with (judged "doc_language" s2) in Hj. lia. }
  pose proof (calculate_result_after_findings s3 Hn3 Hsum) as H.
  destruct (calculate_result s3) as [[] s'|e s'|]; [| |done].
  - destruct H as (-> & ? & ?). by split.
  - subst e. split; [done|]. by intros msg [= <-].
Qed.

(** X25.  The four calls that follow the construction of the tester in
    [main.py], on a tester as [__init__] builds it.  With a driver name
    that [start_driver] does not know the run raises the exception of
    [start_driver] at once, and nothing has happened.  With a name it
    knows the run ends in one of three ways.  It returns: then the
    browser has been quit, the last line printed is the success line and
    the ratio has reached the level; ["Nothing found"] is never the
    outcome, since every tested page has its language judged.  It raises
    ["Too many accessibility errors - try fix them!"].  Or it raises an
    exception of Python or of a library, never [ZeroDivisionError]. *)
Theorem run_outcomes (fuel : nat) (site : string) (degree : Q) (name : string)
    (headless screenshots : bool) (height width : Z) (follow : bool) :
  let tester := init site degree name headless screenshots height width follow in
  (name ∉ driver_names →
   run fetch urljoin hostname fuel tester
   = Raised (Exception "Webdriver must be one of: Chrome, Firefox, Edge, Opera, Safari")
            tester) ∧
  (name ∈ driver_names →
   match run fetch urljoin hostname fuel tester with
   | Done _ s' =>
       window_handles <$> driver s' = Some [] ∧
       last (stdout s') = Some [VStr "Accessibility test successful - can deploy"] ∧
       (required_degree (config s') <= ratio_of s')%Q
   | Raised e s' =>
       e ≠ ZeroDivisionError ∧
       ∀ msg, e = Exception msg → msg = "Too many accessibility errors - try fix them!"
   | OutOfFuel => True
   end).
Proof.
  intros tester. split.
  - intros Hname. unfold run, start_driver, bind, gets. cbn [config chosen_driver tester init].
    by rewrite bool_decide_eq_false_2.
  - intros Hname. apply run_from_init; [apply init_counters_nonneg|exact Hname].
Qed.

End RunOutcomes.

(** On the page that links to itself, with the level 1: the run
    returns. *)
Example run_returns_on_a_sample :
  ∃ s', run self_web sample_urljoin sample_hostname 2
          (init origin_url 1 "chrome" true false 1080 1920 true) = Done tt s'.
Proof. eexists. vm_compute. reflexivity. Qed.

Lemma run_outcomes_witness :
  match run self_web sample_urljoin sample_hostname 2
          (init origin_url 1 "chrome" true false 1080 1920 true) with
  | Done _ s' =>
      window_handles <$> driver s' = Some [] ∧
      last (stdout s') = Some [VStr "Accessibility test successful - can deploy"] ∧
      (required_degree (config s') <= ratio_of s')%Q
  | Raised e s' =>
      e ≠ ZeroDivisionError ∧
      ∀ msg, e = Exception msg → msg = "Too many accessibility errors - try fix them!"
  | OutOfFuel => True
  end.
Proof.
  apply (proj2 (run_outcomes self_web sample_urljoin sample_hostname 2
                  origin_url 1 "chrome" true false 1080 1920 true)).
  unfold driver_names. apply list_elem_of_here.
Defined.

(** ** [main] *)

Section MainOutcomes.

Variable validators_url : string → bool.

(** X1.  [main] never returns normally and never builds a tester.  It
    checks the URL first, then the level, then the driver name in lower
    case, and raises the exception of the first check that fails; when
    all three pass it raises [NameError], the name [AccessibilityTester]
    being bound nowhere in [main.py]. *)
Theorem main_outcomes (argument : Cli.Namespace) :
  (∃ e, main validators_url argument = inl e) ∧
  (validators_url (Cli.webpage argument) = false →
   main validators_url argument = inl (Exception "Invalid URL")) ∧
  (validators_url (Cli.webpage argument) = true →
   ¬ (0 <= Cli.level argument <= 1)%Q →
   main validators_url argument
   = inl (Exception "Accessibility level must be between 0 and 1")) ∧
  (validators_url (Cli.webpage argument) = true →
   (0 <= Cli.level argument <= 1)%Q →
   str_lower (Cli.driver argument) ∉ driver_names →
   main validators_url argument
   = inl (Exception "Webdriver must be one of: Chrome, Firefox, Edge, Opera, Safari")) ∧
  (validators_url (Cli.webpage argument) = true →
   (0 <= Cli.level argument <= 1)%Q →
   str_lower (Cli.driver argument) ∈ driver_names →
   main validators_url argument = inl (NameError "AccessibilityTester")).
Proof.
  assert (Hlevel : Qle_bool 0 (Cli.level argument) && Qle_bool (Cli.level argument) 1 = true
                   ↔ (0 <= Cli.level argument <= 1)%Q).
  { rewrite andb_true_iff, !Qle_bool_iff. done. }
  unfold main. cbv zeta. unfold Py.in_list.
  split; [|split; [|split; [|split]]].
  - destruct (validators_url _); simpl; [|by eexists].
    destruct (Qle_bool 0 _ && Qle_bool _ 1); simpl; [|by eexists].
    destruct (bool_decide _); simpl; by eexists.
  - by intros ->.
  - intros -> Hno. simpl.
    destruct (Qle_bool 0 _ && Qle_bool _ 1) eqn:E; [|done].
    destruct Hno. by apply Hlevel.
  - intros -> Hyes%Hlevel Hname. simpl. rewrite Hyes. simpl.
    by rewrite bool_decide_eq_false_2.
  - intros -> Hyes%Hlevel Hname. simpl. rewrite Hyes. simpl.
    by rewrite bool_decide_eq_true_2.
Qed.

End MainOutcomes.

(** The driver name is compared in lower case: [Chrome] passes the
    validation of [main], and the run ends with [NameError] all the
    same. *)
Example main_raises_name_error :
  main (λ _, true)
       {| Cli.webpage := origin_url; Cli.level := 1; Cli.driver := "Chrome";
          Cli.headless := true; Cli.screenshots := false; Cli.height := 1080;
          Cli.width := 1920; Cli.follow := true |}
  = inl (NameError "AccessibilityTester").
Proof. reflexivity. Qed.

(** ** The theorems at sample inputs *)

Lemma xpath_soup_injective_witness :
  xpath_soup labelled_inputs_page (Some [0; 0; 0]%nat)
  ≠ xpath_soup labelled_inputs_page (Some [3; 0; 0]%nat).
Proof.
  intros H.
  apply xpath_soup_injective in H; [discriminate|reflexivity|done|done|reflexivity|reflexivity].
Defined.

Lemma check_doc_language_outcomes_witness :
  match page (tester_on sample_page) ≫= (λ pg, find (soup pg) "html") with
  | None => check_doc_language (tester_on sample_page)
            = Raised AttributeError (tester_on sample_page)
  | Some html =>
      ∃ s', check_doc_language (tester_on sample_page) = Done tt s' ∧
            length (stdout s') = S (length (stdout (tester_on sample_page))) ∧
            ((nonempty_attr html.2 "lang" ∧ correct s' !! "doc_language" = Some (0 + 1)
              ∧ wrong s' !! "doc_language" = Some 0)
             ∨ (¬ nonempty_attr html.2 "lang" ∧ correct s' !! "doc_language" = Some 0
                ∧ wrong s' !! "doc_language" = Some (0 + 1)))
  end.
Proof. apply check_doc_language_outcomes; reflexivity. Defined.

Lemma check_alt_texts_counts_witness :
  ∃ s', check_alt_texts (tester_on noscript_page) = Done tt s' ∧
        correct s' !! "alt_texts"
        = Some (0 + count (λ e, attr_set e.2 "alt") (find_all (soup noscript_page) "img")) ∧
        wrong s' !! "alt_texts"
        = Some (0 + count (λ e, negb (attr_set e.2 "alt"))
                      (find_all (soup noscript_page) "img")) ∧
        length (stdout s')
        = (length (stdout (tester_on noscript_page))
           + length (find_all (soup noscript_page) "img"))%nat ∧
        (∀ k, k ≠ "alt_texts" →
              correct s' !! k = correct (tester_on noscript_page) !! k
              ∧ wrong s' !! k = wrong (tester_on noscript_page) !! k).
Proof. apply check_alt_texts_counts; reflexivity. Defined.


Lemma test_page_without_follow_witness :
  match test_page self_web sample_urljoin sample_hostname 1
          (started_without_follow lone_doc) with
  | Done _ s' | Raised _ s' =>
      driver s' = driver (started_without_follow lone_doc) ∧
      visited_links s' = visited_links (started_without_follow lone_doc) ∧
      ∃ new, stdout s' = stdout (started_without_follow lone_doc) ++ new ∧
             headers new = match current_page_url (started_without_follow lone_doc) with
                           | Some u => [page_header u]
                           | None => []
                           end
  | OutOfFuel => False
  end.
Proof. apply test_page_without_follow. reflexivity. Defined.

Lemma no_screenshot_when_switched_off_witness :
  match test_page self_web sample_urljoin sample_hostname 2
          (started_on (link_doc origin_url origin_url)) with
  | Done _ s' | Raised _ s' =>
      screenshot_files s' = screenshot_files (started_on (link_doc origin_url origin_url))
  | OutOfFuel => True
  end.
Proof.
  assert (Hoff : screenshots (config (started_on (link_doc origin_url origin_url))) = false)
    by reflexivity.
  pose proof (no_screenshot_when_switched_off self_web sample_urljoin sample_hostname 2
                (started_on (link_doc origin_url origin_url)) Hoff) as [H _].
  exact H.
Defined.

Lemma test_page_ends_in_previous_window_witness :
  ∃ s', test_page self_web sample_urljoin sample_hostname 1 two_windows = Done tt s'
        ∧ current_window_handle <$> driver s' = Some 0%nat
        ∧ visited_links s' = [origin_url].
Proof.
  assert (E : ∃ s', test_page self_web sample_urljoin sample_hostname 1 two_windows
                    = Done tt s') by (eexists; vm_compute; reflexivity).
  destruct E as [s' E]. exists s'. split; [exact E|].
  destruct (test_page_ends_in_previous_window self_web sample_urljoin sample_hostname 0
              two_windows s'
              {| window_handles := [link_doc origin_url origin_url; lone_doc];
                 current_window_handle := 1 |} lone_doc eq_refl eq_refl eq_refl eq_refl E)
    as [Hd Hv].
  split; [by rewrite Hd|exact Hv].
Defined.

Lemma crawl_terminates_witness :
  test_page cycle_web sample_urljoin sample_hostname 2
    (started_on (link_doc origin_url other_url)) ≠ OutOfFuel.
Proof.
  apply (crawl_terminates cycle_web sample_urljoin sample_hostname [origin_url; other_url])
    with (u := origin_url).
  - intros x d. unfold cycle_web. repeat case_bool_decide; intros [= <-]; simpl.
    + by left.
    + right. by left.
  - reflexivity.
  - by left.
  - simpl. apply not_elem_of_nil.
  - vm_compute. lia.
Defined.

Lemma no_page_tested_twice_witness :
  match test_page cycle_web sample_urljoin sample_hostname 2
          (started_on (link_doc origin_url other_url)) with
  | Done _ s' | Raised _ s' => NoDup (headers (stdout s'))
  | OutOfFuel => True
  end.
Proof.
  apply (no_page_tested_twice cycle_web sample_urljoin sample_hostname 2 _ origin_url).
  - reflexivity.
  - reflexivity.
  - reflexivity.
  - simpl. apply not_elem_of_nil.
Defined.

(** ** The address of a string *)

Lemma xpath_components_string (par : Node) :
  ∀ q n i x, walk par q = Some n → node_contents n !! i = Some x → is_tag x = false →
             xpath_components par (q ++ [i]) = xpath_components par q.
Proof.
  intros q. revert par. induction q as [|j q IH]; intros par n i x Hw Hi Hx.
  - simpl in Hw. injection Hw as <-. simpl. rewrite Hi. by destruct x.
  - simpl in Hw. simpl. destruct (node_contents par !! j) as [c|]; [|done].
    destruct c as [nm a cs| | |]; [|done..]. f_equal. by eapply IH.
Qed.

(** X20.  [xpath_soup] answers ["/html"] for no element and for the
    [BeautifulSoup] object itself, and for a string the xpath of the
    element that holds it. *)
Theorem xpath_soup_of_a_string (pg : Node) :
  xpath_soup pg None = "/html" ∧
  xpath_soup pg (Some []) = "/html" ∧
  ∀ i p x, node_at pg (i :: p) = Some x → is_tag x = false →
           xpath_soup pg (Some (i :: p)) = xpath_soup pg (Some p).
Proof.
  split; [done|]. split; [done|]. intros i p x Hat Hx. unfold xpath_soup.
  simpl in Hat. destruct (node_at pg p) as [n|] eqn:Hn; [|done].
  rewrite node_at_walk in Hn. simpl rev.
  by rewrite (xpath_components_string pg (rev p) n i x Hn Hat Hx).
Qed.

Lemma xpath_soup_of_a_string_witness :
  xpath_soup sample_page (Some [0; 0; 0; 0]%nat) = xpath_soup sample_page (Some [0; 0; 0]%nat).
Proof.
  apply (proj2 (proj2 (xpath_soup_of_a_string sample_page)) 0%nat [0; 0; 0]%nat
           (NavigableString "Hi")); reflexivity.
Defined.

(** ** The result at the two ends of the scale *)

Lemma ratio_nonneg (c n : Z) : 0 <= c → 0 < n → (0 <= inject_Z c / inject_Z n)%Q.
Proof.
  intros Hc Hn. destruct n as [|p|p]; [lia| |lia].
  unfold Qle, Qdiv, Qmult, Qinv, inject_Z. simpl. lia.
Qed.

Lemma ratio_at_least_1 (c n : Z) : 0 < n → (1 <= inject_Z c / inject_Z n)%Q ↔ n <= c.
Proof.
  intros Hn. destruct n as [|p|p]; [lia| |lia].
  unfold Qle, Qdiv, Qmult, Qinv, inject_Z. simpl. lia.
Qed.

(** X18.  With counters that are not negative: a required degree of 0 or less
    is always reached, and a required degree of 1 is reached exactly when
    no error has been counted. *)
Theorem calculate_result_at_the_ends (s : State) :
  (∀ k v, correct s !! k = Some v → 0 <= v) → (∀ k v, wrong s !! k = Some v → 0 <= v) →
  ((required_degree (config s) <= 0)%Q → ∃ s', calculate_result s = Done tt s') ∧
  ((required_degree (config s) == 1)%Q →
   (∃ s', calculate_result s = Done tt s') ↔ sum_values (wrong s) = 0).
Proof.
  intros Nc Nw.
  pose proof (sum_values_nonneg _ Nc) as Hc. pose proof (sum_values_nonneg _ Nw) as Hw.
  destruct (decide (sum_values (correct s) + sum_values (wrong s) = 0)) as [H0|Hne].
  - rewrite calculate_result_nothing by lia. split; [by eexists|].
    intros _. split; [lia|by eexists].
  - rewrite calculate_result_ratio by done. unfold ratio_of.
    assert (Hpos : 0 < sum_values (correct s) + sum_values (wrong s)) by lia.
    pose proof (ratio_at_least_1 (sum_values (correct s)) _ Hpos) as Hone.
    destruct (Qle_bool _ _) eqn:E.
    + split; [by eexists|]. intros H1. split; [|by eexists]. intros _.
      apply Qle_bool_iff in E. rewrite H1 in E. apply Hone in E. lia.
    + split.
      * intros Hle. exfalso. apply not_true_iff_false in E. apply E, Qle_bool_iff.
        apply (Qle_trans _ 0); [exact Hle|]. apply ratio_nonneg; lia.
      * intros H1. split; [by intros [? ?]|]. intros Hw0. exfalso.
        apply not_true_iff_false in E. apply E, Qle_bool_iff. rewrite H1.
        apply Hone. lia.
Qed.

Lemma calculate_result_at_the_ends_witness :
  (∃ s', calculate_result one_error_state = Done tt s')
  ↔ sum_values (wrong one_error_state) = 0.
Proof.
  refine (proj2 (calculate_result_at_the_ends one_error_state _ _) _).
  - intros k v H. apply elem_of_list_to_map_2 in H.
    apply list_elem_of_fmap in H as (k' & [= _ ->] & _). done.
  - intros k v. unfold one_error_state. cbn [wrong set_wrong].
    destruct (decide (k = "doc_language")) as [->|Hk].
    + rewrite lookup_insert_eq. by intros [= <-].
    + rewrite lookup_insert_ne by done. intros H. apply elem_of_list_to_map_2 in H.
      apply list_elem_of_fmap in H as (k' & [= _ ->] & _). done.
  - reflexivity.
Defined.

(** ** The counters are never missing *)

Lemma keys_ret {A} (a : A) : keeps_keys (ret a).
Proof. by intros s H. Qed.

Lemma keys_gets {A} (f : State → A) : keeps_keys (gets f).
Proof. by intros s H. Qed.

Lemma keys_raise {A} (e : Exn) : (∀ k, e ≠ KeyError k) → keeps_keys (raise (A := A) e).
Proof. by intros He s H. Qed.

Lemma keys_modify (f : State → State) :
  (∀ s, has_categories s → has_categories (f s)) → keeps_keys (modify f).
Proof. intros Hf s H. by apply Hf. Qed.

Lemma keys_bind {A B} (m : M A) (f : A → M B) :
  keeps_keys m → (∀ a, keeps_keys (f a)) → keeps_keys (bind m f).
Proof.
  intros Hm Hf s H. unfold bind. specialize (Hm s H).
  destruct (m s) as [a s'| |]; [|done|done]. by apply Hf.
Qed.

Lemma keys_for_each {A} (l : list A) (body : A → M unit) :
  (∀ x, keeps_keys (body x)) → keeps_keys (for_each l body).
Proof.
  intros H. induction l as [|x l IH]; [apply keys_ret|].
  simpl. apply keys_bind; [apply H|by intros _].
Qed.

Lemma keys_lift {A} (r : Exn + A) : (∀ e, r = inl e → ∀ k, e ≠ KeyError k) → keeps_keys (lift r).
Proof. intros He s H. destruct r as [e|a]; simpl; [|done]. split; [done|by apply He]. Qed.

Lemma keys_incr_correct (k : string) : k ∈ categories → keeps_keys (incr_correct k).
Proof.
  intros Hk s H. unfold incr_correct. destruct (H k Hk) as [[v Hv] _]. rewrite Hv.
  intros j Hj. destruct (H j Hj) as [Hc Hw]. split; [|exact Hw]. simpl.
  destruct (decide (k = j)) as [->|Hne]; [rewrite lookup_insert_eq; by eexists|].
  by rewrite lookup_insert_ne.
Qed.

Lemma keys_incr_wrong (k : string) : k ∈ categories → keeps_keys (incr_wrong k).
Proof.
  intros Hk s H. unfold incr_wrong. destruct (H k Hk) as [_ [v Hv]]. rewrite Hv.
  intros j Hj. destruct (H j Hj) as [Hc Hw]. split; [exact Hc|]. simpl.
  destruct (decide (k = j)) as [->|Hne]; [rewrite lookup_insert_eq; by eexists|].
  by rewrite lookup_insert_ne.
Qed.

Lemma background_exception (doc : Document) (pg : Node) (text : option Ref) (e : Exn) :
  get_background_color doc pg text = inl e → ∀ k, e ≠ KeyError k.
Proof.
  intros H k. destruct text as [r|]; [|done]. simpl in H.
  pose proof (get_background_color_of_opaque doc pg r) as Ho. rewrite H in Ho.
  by destruct Ho as [-> | [-> | [name ->]]].
Qed.

Lemma large_text_exception (font_size font_weight : string) (text : Node) (e : Exn) :
  large_text font_size font_weight text = inl e → ∀ k, e ≠ KeyError k.
Proof.
  unfold large_text. destruct (Py.contains _ _); [|done].
  destruct (Py.int _); [done|]. by intros [= <-].
Qed.

Lemma colour_exception (c : CssColor) (e : Exn) :
  convert_to_rgba_value c = inl e → ∀ k, e ≠ KeyError k.
Proof. by intros [-> | [name ->]]%convert_to_rgba_value_raises. Qed.

Lemma tuple_exception (color : RgbaText) (e : Exn) :
  eval_tuple color = inl e → ∀ k, e ≠ KeyError k.
Proof. by intros [-> | [name ->]]%eval_tuple_raises. Qed.

Ltac a_category := by repeat (first [left | right]).

Ltac keys_step :=
  lazymatch goal with
  | |- keeps_keys (ret _) => apply keys_ret
  | |- keeps_keys (raise _) => apply keys_raise; by intros ?
  | |- keeps_keys (gets _) => apply keys_gets
  | |- keeps_keys (modify _) => apply keys_modify; by intros ? ?
  | |- keeps_keys (lift _) =>
      let e := fresh "e" in
      let He := fresh "He" in
      apply keys_lift; intros e He;
      first [ exact (background_exception _ _ _ _ He)
            | exact (large_text_exception _ _ _ _ He)
            | exact (colour_exception _ _ He)
            | exact (tuple_exception _ _ He) ]
  | |- keeps_keys (incr_correct _) => apply keys_incr_correct; a_category
  | |- keeps_keys (incr_wrong _) => apply keys_incr_wrong; a_category
  | |- keeps_keys (for_each _ _) => apply keys_for_each; intros ?
  | |- keeps_keys (bind _ _) => apply keys_bind; [|intros ?]
  | |- keeps_keys (if ?b then _ else _) => destruct b
  | |- keeps_keys (match ?x with _ => _ end) => destruct x
  | |- keeps_keys (let _ := _ in _) => cbv zeta
  | |- keeps_keys _ =>
      first
        [ assumption
        | progress unfold some_or, print, get_page, get_driver, get_document,
            find_anchors, element_read, window_open, switch_to_window_at,
            switch_to_previous_window, driver_get, driver_quit, take_screenshot,
            report_contrast, check_contrast, check_color_contrast, check_link, check_links,
            check_button, check_button_input, check_buttons, check_input_label,
            check_input_labels, check_alt_text, check_alt_texts, check_doc_language,
            run_checks, print_items, calculate_result, start_driver, visit_link ]
  end.

Ltac keys := repeat keys_step.

Section NoKeyError.

Variable fetch : string → option Document.
Variable urljoin : string → option string → string.
Variable hostname : string → option string.

Lemma visit_link_keeps_keys (recurse : M unit) (link : WebElement) :
  keeps_keys recurse → keeps_keys (visit_link fetch urljoin hostname recurse link).
Proof. intros Hrec. keys. Qed.

Lemma test_page_keeps_keys (fuel : nat) : keeps_keys (test_page fetch urljoin hostname fuel).
Proof.
  induction fuel as [|fuel IH]; [done|].
  cbn [test_page]. pose proof (λ link, visit_link_keeps_keys _ link IH) as Hlink.
  keys.
Qed.

Lemma run_keeps_keys (fuel : nat) : keeps_keys (run fetch urljoin hostname fuel).
Proof. unfold run. pose proof (test_page_keeps_keys fuel). keys. Qed.

Lemma init_has_categories (url : string) (required_degree : Q) (chosen_driver : string)
    (headless screenshots : bool) (browser_height browser_width : Z) (follow : bool) :
  has_categories (init url required_degree chosen_driver headless screenshots
                       browser_height browser_width follow).
Proof.
  intros k Hk. unfold init. cbn [correct wrong].
  assert (H : is_Some ((list_to_map ((λ k, (k, 0)) <$> categories) : gmap string Z) !! k)).
  { exists 0. apply elem_of_list_to_map_1.
    - rewrite <- list_fmap_compose. apply (bool_decide_unpack _). by vm_compute.
    - apply list_elem_of_fmap. by exists k. }
  by split.
Qed.

(** X2.  The tester that [__init__] builds has the six keys in both
    dictionaries, and nothing ever takes one away: [self.correct[k] += 1]
    and [self.wrong[k] += 1] never raise [KeyError], over [test_page] on
    any state that has the keys and over a whole run of a fresh tester. *)
Theorem counters_are_never_missing (fuel : nat) :
  (∀ s, has_categories s →
        match test_page fetch urljoin hostname fuel s with
        | Done _ s' => has_categories s'
        | Raised e s' => has_categories s' ∧ ∀ k, e ≠ KeyError k
        | OutOfFuel => True
        end) ∧
  (∀ (url : string) (required_degree : Q) (chosen_driver : string)
     (headless screenshots : bool) (browser_height browser_width : Z) (follow : bool),
     match run fetch urljoin hostname fuel
             (init url required_degree chosen_driver headless screenshots
                   browser_height browser_width follow) with
     | Done _ s' => has_categories s'
     | Raised e s' => has_categories s' ∧ ∀ k, e ≠ KeyError k
     | OutOfFuel => True
     end).
Proof.
  split; [apply test_page_keeps_keys|].
  intros. apply run_keeps_keys, init_has_categories.
Qed.

End NoKeyError.

(** ** Every finding printed is counted *)

#[local] Instance counted_with_lines_preorder : PreOrder counted_with_lines.
Proof.
  split.
  - by intros s H.
  - intros s1 s2 s3 H12 H23 H1. destruct (H12 H1) as [H2 E12].
    destruct (H23 H2) as [H3 E23]. split; [done|lia].
Qed.

Lemma sum_values_incr (d : gmap string Z) (k : string) (v : Z) :
  d !! k = Some v → sum_values (<[k := v + 1]> d) = sum_values d + 1.
Proof.
  intros H. rewrite (sum_values_lookup d k v H).
  rewrite (sum_values_lookup (<[k := v + 1]> d) k (v + 1)) by apply lookup_insert_eq.
  rewrite delete_insert_eq. lia.
Qed.

Lemma has_categories_insert_correct (s : State) (k : string) (v : Z) (o : list (list PyVal)) :
  has_categories s →
  has_categories (set_correct (<[k := v + 1]> (correct (set_stdout o s))) (set_stdout o s)).
Proof.
  intros H j Hj. destruct (H j Hj) as [Hc Hw]. split; [|exact Hw]. simpl.
  destruct (decide (k = j)) as [->|Hne]; [rewrite lookup_insert_eq; by eexists|].
  by rewrite lookup_insert_ne.
Qed.

Lemma has_categories_insert_wrong (s : State) (k : string) (v : Z) (o : list (list PyVal)) :
  has_categories s →
  has_categories (set_wrong (<[k := v + 1]> (wrong (set_stdout o s))) (set_stdout o s)).
Proof.
  intros H j Hj. destruct (H j Hj) as [Hc Hw]. split; [exact Hc|]. simpl.
  destruct (decide (k = j)) as [->|Hne]; [rewrite lookup_insert_eq; by eexists|].
  by rewrite lookup_insert_ne.
Qed.

Lemma counted_correct (line : list PyVal) (k : string) :
  k ∈ categories → preserves counted_with_lines (print line ;; incr_correct k).
Proof.
  intros Hk s. unfold bind. rewrite print_run. unfold incr_correct. cbn [correct set_stdout].
  destruct (correct s !! k) as [v|] eqn:E.
  - intros H. split; [by apply has_categories_insert_correct|].
    unfold findings_counted. cbn [correct wrong stdout set_correct set_stdout].
    rewrite (sum_values_incr _ _ _ E), length_app. simpl. lia.
  - intros H. destruct (H k Hk) as [[v Hv] _]. congruence.
Qed.

Lemma counted_wrong (line : list PyVal) (k : string) :
  k ∈ categories → preserves counted_with_lines (print line ;; incr_wrong k).
Proof.
  intros Hk s. unfold bind. rewrite print_run. unfold incr_wrong. cbn [wrong set_stdout].
  destruct (wrong s !! k) as [v|] eqn:E.
  - intros H. split; [by apply has_categories_insert_wrong|].
    unfold findings_counted. cbn [correct wrong stdout set_wrong set_stdout].
    rewrite (sum_values_incr _ _ _ E), length_app. simpl. lia.
  - intros H. destruct (H k Hk) as [_ [v Hv]]. congruence.
Qed.

Ltac counted_step :=
  lazymatch goal with
  | |- preserves _ (bind (print _) (λ _, incr_correct _)) => apply counted_correct; a_category
  | |- preserves _ (bind (print _) (λ _, incr_wrong _)) => apply counted_wrong; a_category
  | |- _ => keeps_step ltac:(first [reflexivity | by intros ?])
  end.

Lemma run_checks_counted : preserves counted_with_lines run_checks.
Proof. repeat counted_step. Qed.

(** X5.  Over the six checks, whether they return or raise, every line
    printed is the line of a finding that has been counted: the sum of
    the two totals of [calculate_result] has grown by exactly the number
    of lines printed. *)
Theorem every_finding_is_counted (s : State) :
  has_categories s →
  match run_checks s with
  | Done _ s' | Raised _ s' =>
      sum_values (correct s') + sum_values (wrong s')
      - (sum_values (correct s) + sum_values (wrong s))
      = Z.of_nat (length (stdout s')) - Z.of_nat (length (stdout s))
  | OutOfFuel => False
  end.
Proof.
  intros H. pose proof (run_checks_counted s) as Hc. pose proof (run_checks_total s) as Ht.
  destruct (run_checks s) as [[] s'|e s'|]; [| |done];
    destruct (Hc H) as [_ E]; unfold findings_counted in E; lia.
Qed.

Lemma every_finding_is_counted_witness :
  match run_checks (tester_on labelled_inputs_page) with
  | Done _ s' | Raised _ s' =>
      sum_values (correct s') + sum_values (wrong s')
      - (sum_values (correct (tester_on labelled_inputs_page))
         + sum_values (wrong (tester_on labelled_inputs_page)))
      = Z.of_nat (length (stdout s'))
        - Z.of_nat (length (stdout (tester_on labelled_inputs_page)))
  | OutOfFuel => False
  end.
Proof. apply every_finding_is_counted. apply init_has_categories. Defined.

(** ** The visited list is the list of the pages tested *)

#[local] Instance log_extends_preorder : PreOrder log_extends.
Proof.
  split.
  - intros s. split; [done|]. exists [], []. by rewrite !app_nil_r.
  - intros s1 s2 s3 (Hc1 & v1 & o1 & Hv1 & Ho1 & Hh1) (Hc2 & v2 & o2 & Hv2 & Ho2 & Hh2).
    split; [congruence|]. exists (v1 ++ v2), (o1 ++ o2).
    rewrite Hv2, Hv1, Ho2, Ho1, !app_assoc. split; [done|]. split; [done|].
    by rewrite headers_app, fmap_app, Hh1, Hh2.
Qed.

Lemma checked_log_extends (s s' : State) : checked s s' → log_extends s s'.
Proof.
  intros [(Hc & new & Ho & Hn) Hv]. split; [done|]. exists [], new.
  unfold same_visited in Hv. rewrite Hv, app_nil_r. split; [done|]. split; [done|].
  by apply headers_none.
Qed.

Lemma logs_of_checked {A} (m : M A) : preserves checked m → logs m.
Proof.
  intros H s _. specialize (H s). destruct (m s); [|done..]. by apply checked_log_extends.
Qed.

Lemma logs_bind {A B} (m : M A) (f : A → M B) :
  logs m → (∀ a, logs (f a)) → logs (bind m f).
Proof.
  intros Hm Hf s Hfollow. unfold bind. specialize (Hm s Hfollow).
  destruct (m s) as [a s1| |]; [|done..].
  assert (Hfollow1 : follow (config s1) = true) by (by rewrite (proj1 Hm)).
  specialize (Hf a s1 Hfollow1). destruct (f a s1); [|done..]. by etransitivity.
Qed.

Lemma logs_for_each {A} (l : list A) (body : A → M unit) :
  (∀ x, logs (body x)) → logs (for_each l body).
Proof.
  intros H. induction l as [|x l IH]; [intros s _; simpl; reflexivity|].
  simpl. apply logs_bind; [apply H|by intros _].
Qed.

Ltac logs_step :=
  lazymatch goal with
  | |- logs (bind _ _) => apply logs_bind; [|intros ?]
  | |- logs (for_each _ _) => apply logs_for_each; intros ?
  | |- logs (if ?b then _ else _) => destruct b
  | |- logs (let _ := _ in _) => cbv zeta
  | |- logs _ => first [ assumption | apply logs_of_checked; checked_tac ]
  end.

Section VisitedLog.

Variable fetch : string → option Document.
Variable urljoin : string → option string → string.
Variable hostname : string → option string.

Hint Resolve driver_get_silent take_screenshot_silent run_checks_no_header : pres.

Lemma visit_link_logs (recurse : M unit) (link : WebElement) :
  logs recurse → logs (visit_link fetch urljoin hostname recurse link).
Proof. intros Hrec. unfold visit_link. repeat logs_step. Qed.

Lemma test_page_logs (fuel : nat) : logs (test_page fetch urljoin hostname fuel).
Proof.
  induction fuel as [|fuel IH]; [done|]. intros s Hfollow. cbn [test_page].
  destruct (bind _ _ s) as [[] s'|e s'|] eqn:E; [|done..].
  apply bind_done_inv in E as (doc & s1 & [-> _]%get_document_run & E).
  apply bind_done_inv in E as ([] & s2 & [= <-] & E).
  apply bind_done_inv in E as ([] & s3 & [= <-] & E).
  apply bind_done_inv in E as ([] & s4 & E4 & E).
  apply bind_done_inv in E as (shots & s5 & [= <- <-] & E).
  apply bind_done_inv in E as ([] & s6 & E6 & E).
  apply bind_done_inv in E as (following & s7 & [= <- <-] & E).
  assert (C4 : checked (set_stdout (stdout (set_page (Some (page_source doc)) s)
                                    ++ [page_header (current_url doc)])
                          (set_page (Some (page_source doc)) s)) s4).
  { eapply (preserves_run checked); [|exact E4]. checked_tac. }
  assert (C6 : checked s4 s6).
  { eapply (preserves_run checked); [|exact E6]. destruct (screenshots (config s4)); checked_tac. }
  destruct C4 as [(Hc4 & o4 & Ho4 & Hn4) Hv4]. destruct C6 as [(Hc6 & o6 & Ho6 & Hn6) Hv6].
  unfold same_visited in Hv4, Hv6. simpl in Hc4, Ho4, Hv4.
  assert (Hf6 : follow (config s6) = true) by (by rewrite Hc6, Hc4).
  rewrite Hf6 in E.
  apply bind_done_inv in E as ([] & s8 & [= <-] & E).
  set (s7 := set_visited_links (visited_links s6 ++ [current_url doc]) s6) in E.
  assert (L : log_extends s s7).
  { split; [unfold s7; simpl; by rewrite Hc6, Hc4|].
    exists [current_url doc], ([page_header (current_url doc)] ++ o4 ++ o6).
    unfold s7. cbn [visited_links stdout set_visited_links].
    rewrite Hv6, Hv4, Ho6, Ho4, <- !app_assoc.
    split; [done|]. split; [done|].
    rewrite !headers_app, (headers_none o4), (headers_none o6), !app_nil_r by done.
    unfold headers. by rewrite filter_cons_True by apply is_page_header_header. }
  assert (Hrest : logs (link_list <- find_anchors ;;
                        for_each link_list (visit_link fetch urljoin hostname
                                              (test_page fetch urljoin hostname fuel)) ;;
                        switch_to_previous_window)).
  { pose proof (λ link, visit_link_logs _ link IH) as Hlink. repeat logs_step. apply Hlink. }
  specialize (Hrest s7 Hf6). rewrite E in Hrest. by etransitivity.
Qed.

(** X8.  When links are followed and [test_page] returns, the URLs it has
    appended to [visited_links] are those of the pages it has tested, one
    for each page header it has printed and in the same order. *)
Theorem visited_links_lists_the_tested_pages (fuel : nat) (s s' : State) :
  follow (config s) = true →
  test_page fetch urljoin hostname fuel s = Done tt s' →
  ∃ newv newo, visited_links s' = visited_links s ++ newv ∧
               stdout s' = stdout s ++ newo ∧
               headers newo = page_header <$> newv.
Proof.
  intros Hfollow E. pose proof (test_page_logs fuel s Hfollow) as H. rewrite E in H.
  exact (proj2 H).
Qed.

End VisitedLog.

Lemma visited_links_lists_the_tested_pages_witness :
  ∃ s' newv newo,
    test_page cycle_web sample_urljoin sample_hostname 2
      (started_on (link_doc origin_url other_url)) = Done tt s' ∧
    visited_links s' = visited_links (started_on (link_doc origin_url other_url)) ++ newv ∧
    stdout s' = stdout (started_on (link_doc origin_url other_url)) ++ newo ∧
    headers newo = page_header <$> newv.
Proof.
  assert (E : ∃ s', test_page cycle_web sample_urljoin sample_hostname 2
                      (started_on (link_doc origin_url other_url)) = Done tt s')
    by (eexists; vm_compute; reflexivity).
  destruct E as [s' E]. exists s'.
  destruct (visited_links_lists_the_tested_pages cycle_web sample_urljoin sample_hostname 2
              (started_on (link_doc origin_url other_url)) s' eq_refl E)
    as (newv & newo & H).
  exists newv, newo. split; [exact E|exact H].
Defined.
